(** * Reconciliation and consistency engine of ai-auto-trading

    A shallow embedding of [PriceOrderMonitor] (scheduler/priceOrderMonitor.ts)
    and of [DistributedLock] (the lease lock of the partial take-profit
    executor), with the properties of the ledger they maintain.

    Conventions of the embedding:
    - JavaScript numbers that hold prices, sizes and fees are rationals
      ([Q]); binary floating-point rounding is not modelled.  Timestamps
      are integers (milliseconds), as returned by [Date.getTime()].
    - The exchange gateway is a record of functions; a call that throws
      returns [None].
    - The ledger store is a record of tables (lists of rows, in table
      order) with an optional open transaction; every [dbClient.execute]
      may raise, as decided by a fault oracle.
    - The one number of the monitor that a division can turn into
      [Infinity] or [NaN] is the PnL percentage; it is an [option Q], and
      the store client raises when it is asked to bind a number that is
      not finite.                                                           *)

From Stdlib Require Import ZArith QArith Qabs List String Bool Lia Lqa.
From stdpp Require Import gmap strings.
Import ListNotations.

Local Open Scope string_scope.
Local Open Scope list_scope.
Local Open Scope Z_scope.

(** ** Numbers *)

Definition Qlt_bool (x y : Q) : bool := negb (Qle_bool y x).

(** ** Data model *)

Inductive Side := long | short.
Inductive OrderType := stop_loss | take_profit.
Inductive OrderStatus := active | triggered | cancelled.
Inductive TradeType := open_trade | close_trade.
Inductive ContractType := inverse | linear.

Definition Side_eqb (a b : Side) : bool :=
  match a, b with long, long | short, short => true | _, _ => false end.
Definition OrderType_eqb (a b : OrderType) : bool :=
  match a, b with
  | stop_loss, stop_loss | take_profit, take_profit => true
  | _, _ => false
  end.
Definition is_active (s : OrderStatus) : bool :=
  match s with active => true | _ => false end.

(** The object the monitor works on ([interface DBPriceOrder]). *)
Record DBPriceOrder := {
  id : Z;
  order_id : string;
  symbol : string;
  side : Side;
  type : OrderType;
  trigger_price : Q;
  quantity : Q;
  created_at : Z
}.

(** Rows of the ledger tables. *)
Record PriceOrderRow := {
  po_order : DBPriceOrder;
  po_status : OrderStatus;
  po_updated_at : option Z;
  po_triggered_at : option Z
}.

Record PositionRow := {
  pos_symbol : string;
  pos_side : Side;
  pos_entry_price : Q;
  pos_quantity : Q;
  pos_leverage : Z
}.

Record TradeRow := {
  tr_order_id : string;
  tr_symbol : string;
  tr_side : Side;
  tr_type : TradeType;
  tr_price : Q;
  tr_quantity : Q;
  tr_leverage : Z;
  tr_pnl : Q;
  tr_fee : Q;
  tr_timestamp : Z;
  tr_status : string
}.

(** [ce_pnl_percent] is [None] when the number is not finite. *)
Record CloseEventRow := {
  ce_symbol : string;
  ce_side : Side;
  ce_close_reason : string;
  ce_trigger_type : string;
  ce_trigger_price : Q;
  ce_close_price : Q;
  ce_entry_price : Q;
  ce_quantity : Q;
  ce_leverage : Z;
  ce_pnl : Q;
  ce_pnl_percent : option Q;
  ce_fee : Q;
  ce_trigger_order_id : string;
  ce_close_trade_id : string;
  ce_order_id : string;
  ce_created_at : Z;
  ce_processed : Z
}.

(** The free-text diagnosis of an inconsistent state: either the template
    of the no-trade path (order type, trigger price, creation time) or the
    message of the exception that aborted the transaction. *)
Inductive Diagnosis :=
| NoTradeFound (t : OrderType) (trigger : Q) (created : Z)
| StoreError.

Record InconsistentRow := {
  is_operation : string;
  is_symbol : string;
  is_side : Side;
  is_exchange_success : Z;
  is_db_success : Z;
  is_exchange_order_id : string;
  is_error_message : Diagnosis;
  is_created_at : Z;
  is_resolved : Z
}.

Record Tables := {
  positions : list PositionRow;
  price_orders : list PriceOrderRow;
  trades : list TradeRow;
  position_close_events : list CloseEventRow;
  inconsistent_states : list InconsistentRow
}.

(** What the exchange returns, after the field fallbacks of the code:
    [ex_id] is [(o.id || o.orderId || o.order_id)?.toString()] (empty when
    there is none), [ex_contract] is [o.contract || o.symbol || ''],
    [ex_rule] is [o.trigger.rule] when the order carries one. *)
Record ExOrder := {
  ex_id : string;
  ex_contract : string;
  ex_rule : option Z
}.

Record ExPosition := {
  xp_contract : string;
  xp_size : Q
}.

(** [xt_timestamp] is [t.timestamp || t.create_time || 0]. *)
Record ExTrade := {
  xt_id : string;
  xt_price : Q;
  xt_size : Q;
  xt_fee : Q;
  xt_timestamp : Z
}.

Record Exchange := {
  normalizeContract : string -> string;
  getPriceOrders : option (list ExOrder);
  getPositions : option (list ExPosition);
  getMyTrades : string -> Z -> Z -> option (list ExTrade);
  calculatePnl : Q -> Q -> Q -> Side -> string -> Q;
  getContractType : ContractType;
  getQuantoMultiplier : string -> Q
}.

(** ** The price test of the trade search *)

(** [priceTolerance = triggerPrice * (priceTolerancePercent / 100)]. *)
Definition priceTolerance (percent triggerPrice : Q) : Q :=
  (triggerPrice * (percent / 100))%Q.

(** The branches on [order.type] and [order.side]; the pre-check of
    [handleTriggeredOrder] runs them with 0.2 percent, the filter of
    [findCloseTrade] with 0.1 percent. *)
Definition priceMatches (percent : Q) (order : DBPriceOrder) (tradePrice : Q)
  : bool :=
  let triggerPrice := trigger_price order in
  let tol := priceTolerance percent triggerPrice in
  match type order with
  | stop_loss =>
      match side order with
      | long => Qle_bool tradePrice (triggerPrice + tol)
      | short => Qle_bool (triggerPrice - tol) tradePrice
      end
  | take_profit =>
      match side order with
      | long => Qle_bool (triggerPrice - tol) tradePrice
      | short => Qle_bool tradePrice (triggerPrice + tol)
      end
  end.

Definition searchTolerancePercent : Q := 1 # 10.
Definition precheckTolerancePercent : Q := 2 # 10.
Definition timeToleranceMs : Z := 5000.
Definition maxTimeWindowMs : Z := 24 * 60 * 60 * 1000.

(** [(order.side === 'long' && tradeSize < 0) ||
     (order.side === 'short' && tradeSize > 0)]. *)
Definition isCloseTrade (sd : Side) (tradeSize : Q) : bool :=
  match sd with
  | long => Qlt_bool tradeSize 0
  | short => Qlt_bool 0 tradeSize
  end.

(** [Array.prototype.reduce] without an initial value. *)
Definition reduce {A : Type} (f : A -> A -> A) (l : list A) : option A :=
  match l with
  | [] => None
  | x :: rest => Some (fold_left f rest x)
  end.

Definition pickEarliest (earliest current : ExTrade) : ExTrade :=
  if xt_timestamp current <? xt_timestamp earliest then current else earliest.

Definition pickLatest (latest current : ExTrade) : ExTrade :=
  if xt_timestamp current >? xt_timestamp latest then current else latest.

Definition searchStartTime (order : DBPriceOrder) : Z :=
  created_at order - timeToleranceMs.

(** The filter of [findCloseTrade]: time window, direction, price. *)
Definition closeTradeFilter (order : DBPriceOrder) (t : ExTrade) : bool :=
  if xt_timestamp t <? searchStartTime order then false
  else if xt_timestamp t - created_at order >? maxTimeWindowMs then false
  else if negb (isCloseTrade (side order) (xt_size t)) then false
  else priceMatches searchTolerancePercent order (xt_price t).

(** The retry loop of [findCloseTrade]; [None] is an exception of the
    gateway, caught by the caller below. *)
Fixpoint findCloseTradeAttempts (ex : Exchange) (order : DBPriceOrder)
  (attempts : nat) : option (option ExTrade) :=
  match attempts with
  | O => Some None
  | S rest =>
      match getMyTrades ex (normalizeContract ex (symbol order)) 500
              (searchStartTime order) with
      | None => None
      | Some trades =>
          match reduce pickEarliest
                  (List.filter (closeTradeFilter order) trades) with
          | Some closeTrade => Some (Some closeTrade)
          | None => findCloseTradeAttempts ex order rest
          end
      end
  end.

Definition retries : nat := 3.

Definition findCloseTrade (ex : Exchange) (order : DBPriceOrder)
  : option ExTrade :=
  match findCloseTradeAttempts ex order retries with
  | Some r => r
  | None => None
  end.

(** The price pre-check at the head of [handleTriggeredOrder]:
    [false] is the early [return]. *)
Definition precheckFilter (order : DBPriceOrder) (t : ExTrade) : bool :=
  if xt_timestamp t <? searchStartTime order then false
  else isCloseTrade (side order) (xt_size t).

Definition priceCheckPasses (ex : Exchange) (order : DBPriceOrder) : bool :=
  match getMyTrades ex (normalizeContract ex (symbol order)) 100
          (searchStartTime order) with
  | None => true
  | Some recentTrades =>
      match reduce pickLatest
              (List.filter (precheckFilter order) recentTrades) with
      | None => true
      | Some latestCloseTrade =>
          priceMatches precheckTolerancePercent order
            (xt_price latestCloseTrade)
      end
  end.

(** ** The ledger store *)

Inductive Stmt :=
| SBegin
| SCommit
| SRollback
| SSelectActiveOrders
| SSelectPosition (sym : string) (sd : Side)
| SSelectOpenTrade (sym : string) (sd : Side)
| SSelectOpposite (sym : string) (sd : Side) (t : OrderType)
| SRenameOrder (old new : string) (now : Z)
| SUpdateStatus (orderId : string) (status : OrderStatus) (now : Z)
| SDeletePosition (sym : string) (sd : Side)
| SInsertTrade (row : TradeRow)
| SInsertCloseEvent (row : CloseEventRow)
| SInsertInconsistent (row : InconsistentRow).

(** [journal] lists, oldest first, the statements that changed the store
    or its transaction state; queries are not journalled. *)
Record Ledger := {
  tables : Tables;
  txn : option Tables;
  journal : list Stmt
}.

Record World := {
  exchange : Exchange;
  fault : Stmt -> Ledger -> bool;
  clock : Z
}.

Definition with_order_id (o : DBPriceOrder) (newId : string) : DBPriceOrder :=
  {| id := id o; order_id := newId; symbol := symbol o; side := side o;
     type := type o; trigger_price := trigger_price o;
     quantity := quantity o; created_at := created_at o |}.

(** [UPDATE price_orders SET order_id = ?, updated_at = ? WHERE order_id = ?] *)
Definition renameRow (old new : string) (now : Z) (r : PriceOrderRow)
  : PriceOrderRow :=
  if String.eqb (order_id (po_order r)) old then
    {| po_order := with_order_id (po_order r) new; po_status := po_status r;
       po_updated_at := Some now; po_triggered_at := po_triggered_at r |}
  else r.

(** [UPDATE price_orders SET status = ?, updated_at = ?, triggered_at = ?
     WHERE order_id = ?] *)
Definition statusRow (orderId : string) (status : OrderStatus) (now : Z)
  (r : PriceOrderRow) : PriceOrderRow :=
  if String.eqb (order_id (po_order r)) orderId then
    {| po_order := po_order r; po_status := status;
       po_updated_at := Some now;
       po_triggered_at :=
         match status with triggered => Some now | _ => None end |}
  else r.

Definition positionIs (sym : string) (sd : Side) (p : PositionRow) : bool :=
  String.eqb (pos_symbol p) sym && Side_eqb (pos_side p) sd.

Definition applyWrite (st : Stmt) (T : Tables) : Tables :=
  match st with
  | SRenameOrder old new now =>
      {| positions := positions T;
         price_orders := map (renameRow old new now) (price_orders T);
         trades := trades T;
         position_close_events := position_close_events T;
         inconsistent_states := inconsistent_states T |}
  | SUpdateStatus orderId status now =>
      {| positions := positions T;
         price_orders := map (statusRow orderId status now) (price_orders T);
         trades := trades T;
         position_close_events := position_close_events T;
         inconsistent_states := inconsistent_states T |}
  | SDeletePosition sym sd =>
      {| positions :=
           List.filter (fun p => negb (positionIs sym sd p)) (positions T);
         price_orders := price_orders T;
         trades := trades T;
         position_close_events := position_close_events T;
         inconsistent_states := inconsistent_states T |}
  | SInsertTrade row =>
      {| positions := positions T;
         price_orders := price_orders T;
         trades := trades T ++ [row];
         position_close_events := position_close_events T;
         inconsistent_states := inconsistent_states T |}
  | SInsertCloseEvent row =>
      {| positions := positions T;
         price_orders := price_orders T;
         trades := trades T;
         position_close_events := position_close_events T ++ [row];
         inconsistent_states := inconsistent_states T |}
  | SInsertInconsistent row =>
      {| positions := positions T;
         price_orders := price_orders T;
         trades := trades T;
         position_close_events := position_close_events T;
         inconsistent_states := inconsistent_states T ++ [row] |}
  | _ => T
  end.

(** Computations on the store: a state monad with exceptions. *)
Definition M (A : Type) : Type := Ledger -> Ledger * option A.

Definition ret {A : Type} (a : A) : M A := fun L => (L, Some a).

Definition throw {A : Type} : M A := fun L => (L, None).

Definition bind {A B : Type} (m : M A) (k : A -> M B) : M B :=
  fun L =>
    match m L with
    | (L', Some a) => k a L'
    | (L', None) => (L', None)
    end.

(** [try { body } catch { handler }] *)
Definition try_catch {A : Type} (body handler : M A) : M A :=
  fun L =>
    match body L with
    | (L', Some a) => (L', Some a)
    | (L', None) => handler L'
    end.

Notation "x <- m ;; k" := (bind m (fun x => k))
  (at level 100, m at next level, right associativity).
Notation "m ;;; k" := (bind m (fun _ => k))
  (at level 100, right associativity).

(** The arguments of a statement are bound before it runs; the client
    raises a [RangeError] for a number that is not finite. *)
Definition bindable (st : Stmt) : bool :=
  match st with
  | SInsertCloseEvent row =>
      match ce_pnl_percent row with Some _ => true | None => false end
  | _ => true
  end.

(** [dbClient.execute] of a statement that changes the store.  SQLite
    refuses [BEGIN] inside a transaction and [COMMIT]/[ROLLBACK] outside
    one; [ROLLBACK] restores the tables of the matching [BEGIN]. *)
Definition execute (w : World) (st : Stmt) : M unit :=
  fun L =>
    if fault w st L then (L, None)
    else if negb (bindable st) then (L, None)
    else
      match st with
      | SBegin =>
          match txn L with
          | Some _ => (L, None)
          | None =>
              ({| tables := tables L; txn := Some (tables L);
                  journal := journal L ++ [st] |}, Some tt)
          end
      | SCommit =>
          match txn L with
          | None => (L, None)
          | Some _ =>
              ({| tables := tables L; txn := None;
                  journal := journal L ++ [st] |}, Some tt)
          end
      | SRollback =>
          match txn L with
          | None => (L, None)
          | Some T0 =>
              ({| tables := T0; txn := None;
                  journal := journal L ++ [st] |}, Some tt)
          end
      | _ =>
          ({| tables := applyWrite st (tables L); txn := txn L;
              journal := journal L ++ [st] |}, Some tt)
      end.

(** [dbClient.execute] of a [SELECT]. *)
Definition query {A : Type} (w : World) (st : Stmt) (f : Tables -> A) : M A :=
  fun L => if fault w st L then (L, None) else (L, Some (f (tables L))).

(** ** PriceOrderMonitor *)

(** [ORDER BY symbol, created_at DESC], as a stable insertion sort. *)
Definition sortsBefore (a b : PriceOrderRow) : bool :=
  match String.compare (symbol (po_order a)) (symbol (po_order b)) with
  | Lt => true
  | Gt => false
  | Eq => created_at (po_order b) <? created_at (po_order a)
  end.

Fixpoint insertRow (r : PriceOrderRow) (l : list PriceOrderRow)
  : list PriceOrderRow :=
  match l with
  | [] => [r]
  | x :: rest => if sortsBefore x r then x :: insertRow r rest else r :: l
  end.

Definition orderBy (l : list PriceOrderRow) : list PriceOrderRow :=
  fold_right insertRow [] l.

Definition selectActiveOrders (T : Tables) : list DBPriceOrder :=
  map po_order
    (orderBy
       (List.filter (fun r => is_active (po_status r)) (price_orders T))).

Definition getActiveOrdersFromDB (w : World) : M (list DBPriceOrder) :=
  query w SSelectActiveOrders selectActiveOrders.

(** [SELECT * FROM positions WHERE symbol = ? AND side = ? LIMIT 1];
    an exception of the store is caught and gives [null]. *)
Definition getPositionInfo (w : World) (sym : string) (sd : Side)
  : M (option PositionRow) :=
  try_catch
    (query w (SSelectPosition sym sd)
       (fun T => find (positionIs sym sd) (positions T)))
    (ret None).

Definition isOpenTradeOf (sym : string) (sd : Side) (t : TradeRow) : bool :=
  String.eqb (tr_symbol t) sym && Side_eqb (tr_side t) sd &&
  match tr_type t with open_trade => true | close_trade => false end.

Definition pickNewest (newest current : TradeRow) : TradeRow :=
  if tr_timestamp current >? tr_timestamp newest then current else newest.

(** [SELECT * FROM trades WHERE symbol = ? AND side = ? AND type = 'open'
     ORDER BY timestamp DESC LIMIT 1], exceptions caught. *)
Definition findOpenTrade (w : World) (sym : string) (sd : Side)
  : M (option TradeRow) :=
  try_catch
    (query w (SSelectOpenTrade sym sd)
       (fun T =>
          reduce pickNewest (List.filter (isOpenTradeOf sym sd) (trades T))))
    (ret None).

Definition updateOrderStatus (w : World) (orderId : string)
  (status : OrderStatus) : M unit :=
  execute w (SUpdateStatus orderId status (clock w)).

Definition oppositeType (t : OrderType) : OrderType :=
  match t with stop_loss => take_profit | take_profit => stop_loss end.

(** [SELECT order_id FROM price_orders WHERE symbol = ? AND side = ?
     AND type = ? AND status = 'active' LIMIT 1] *)
Definition selectOpposite (sym : string) (sd : Side) (t : OrderType)
  (T : Tables) : option string :=
  option_map (fun r => order_id (po_order r))
    (find (fun r =>
             String.eqb (symbol (po_order r)) sym &&
             Side_eqb (side (po_order r)) sd &&
             OrderType_eqb (type (po_order r)) t &&
             is_active (po_status r))
       (price_orders T)).

(** The cancellation on the exchange is attempted inside its own
    [try]/[catch] and its outcome is discarded; it leaves the ledger as it
    is, so only the store statements appear here. *)
Definition cancelOppositeOrderInDB (w : World) (triggeredOrder : DBPriceOrder)
  : M unit :=
  result <- query w
      (SSelectOpposite (symbol triggeredOrder) (side triggeredOrder)
         (oppositeType (type triggeredOrder)))
      (selectOpposite (symbol triggeredOrder) (side triggeredOrder)
         (oppositeType (type triggeredOrder))) ;;
  match result with
  | Some oppositeOrderId => updateOrderStatus w oppositeOrderId cancelled
  | None => ret tt
  end.

(** [formatTradeRecord]: the timestamp falls back to the current time. *)
Definition formatTradeRecord (now : Z) (trade : ExTrade) : ExTrade :=
  {| xt_id := xt_id trade; xt_price := xt_price trade;
     xt_size := xt_size trade; xt_fee := xt_fee trade;
     xt_timestamp :=
       if xt_timestamp trade =? 0 then now else xt_timestamp trade |}.

(** [Math.abs(parseFloat(p.size || '0')) > 0] *)
Definition nonzeroSize (p : ExPosition) : bool := Qlt_bool 0 (Qabs (xp_size p)).

Definition positionExists (positions : list ExPosition) (contract : string)
  : bool :=
  existsb (fun p => String.eqb (xp_contract p) contract && nonzeroSize p)
    positions.

(** The figures of phase 4 of [handleTriggeredOrder]. *)
Definition exitPriceOf (trade : ExTrade) : Q := xt_price trade.
Definition quantityOf (trade : ExTrade) : Q := Qabs (xt_size trade).
(** [parseInt(position.leverage) || 1] *)
Definition leverageOf (position : PositionRow) : Z :=
  if pos_leverage position =? 0 then 1 else pos_leverage position.

Definition positionValueOf (ex : Exchange) (order : DBPriceOrder)
  (trade : ExTrade) : Q :=
  match getContractType ex with
  | inverse =>
      (quantityOf trade *
       getQuantoMultiplier ex (normalizeContract ex (symbol order)) *
       exitPriceOf trade)%Q
  | linear => (quantityOf trade * exitPriceOf trade)%Q
  end.

Definition totalFeeOf (ex : Exchange) (order : DBPriceOrder) (trade : ExTrade)
  : Q :=
  (positionValueOf ex order trade * (5 # 10000) +
   positionValueOf ex order trade * (5 # 10000))%Q.

Definition netPnlOf (ex : Exchange) (order : DBPriceOrder) (trade : ExTrade)
  (position : PositionRow) : Q :=
  (calculatePnl ex (pos_entry_price position) (exitPriceOf trade)
     (quantityOf trade) (side order) (normalizeContract ex (symbol order))
   - totalFeeOf ex order trade)%Q.

(** [priceChangePercent * leverage]; the division by an entry price of 0
    gives [Infinity] or [NaN], which the product with the leverage (never
    0) keeps. *)
Definition pnlPercentOf (order : DBPriceOrder) (trade : ExTrade)
  (position : PositionRow) : option Q :=
  let entryPrice := pos_entry_price position in
  let exitPrice := exitPriceOf trade in
  if Qeq_bool entryPrice 0 then None
  else
    Some
      ((match side order with
        | long => ((exitPrice - entryPrice) / entryPrice) * 100
        | short => ((entryPrice - exitPrice) / entryPrice) * 100
        end) * inject_Z (leverageOf position))%Q.

(** [trade.id || order.order_id] *)
Definition closeOrderIdOf (order : DBPriceOrder) (trade : ExTrade) : string :=
  if String.eqb (xt_id trade) "" then order_id order else xt_id trade.

Definition closeTradeRow (w : World) (order : DBPriceOrder) (trade : ExTrade)
  (position : PositionRow) : TradeRow :=
  {| tr_order_id := closeOrderIdOf order trade;
     tr_symbol := symbol order;
     tr_side := side order;
     tr_type := close_trade;
     tr_price := exitPriceOf trade;
     tr_quantity := quantityOf trade;
     tr_leverage := leverageOf position;
     tr_pnl := netPnlOf (exchange w) order trade position;
     tr_fee := totalFeeOf (exchange w) order trade;
     tr_timestamp := clock w;
     tr_status := "filled" |}.

Definition closeReasonOf (order : DBPriceOrder) : string :=
  match type order with
  | stop_loss => "stop_loss_triggered"
  | take_profit => "take_profit_triggered"
  end.

Definition closeEventRow (w : World) (order : DBPriceOrder) (trade : ExTrade)
  (position : PositionRow) : CloseEventRow :=
  {| ce_symbol := symbol order;
     ce_side := side order;
     ce_close_reason := closeReasonOf order;
     ce_trigger_type := "exchange_order";
     ce_trigger_price := trigger_price order;
     ce_close_price := exitPriceOf trade;
     ce_entry_price := pos_entry_price position;
     ce_quantity := quantityOf trade;
     ce_leverage := leverageOf position;
     ce_pnl := netPnlOf (exchange w) order trade position;
     ce_pnl_percent := pnlPercentOf order trade position;
     ce_fee := totalFeeOf (exchange w) order trade;
     ce_trigger_order_id := order_id order;
     ce_close_trade_id := xt_id trade;
     ce_order_id := closeOrderIdOf order trade;
     ce_created_at := clock w;
     ce_processed := 0 |}.

Definition inconsistentRow (w : World) (operation : string)
  (order : DBPriceOrder) (message : Diagnosis) : InconsistentRow :=
  {| is_operation := operation;
     is_symbol := symbol order;
     is_side := side order;
     is_exchange_success := 1;
     is_db_success := 0;
     is_exchange_order_id := order_id order;
     is_error_message := message;
     is_created_at := clock w;
     is_resolved := 0 |}.

(** The branch "position still on the exchange" of the no-trade case. *)
Definition markCancelled (w : World) (order : DBPriceOrder) : M unit :=
  execute w SBegin ;;;
  try_catch
    (updateOrderStatus w (order_id order) cancelled ;;;
     execute w SCommit)
    (execute w SRollback).

(** The branch "position gone, no trade found" of the no-trade case. *)
Definition recordNoTrade (w : World) (order : DBPriceOrder) : M unit :=
  execute w SBegin ;;;
  try_catch
    (updateOrderStatus w (order_id order) triggered ;;;
     cancelOppositeOrderInDB w order ;;;
     execute w (SDeletePosition (symbol order) (side order)) ;;;
     execute w
       (SInsertInconsistent
          (inconsistentRow w "price_order_triggered_no_trade" order
             (NoTradeFound (type order) (trigger_price order)
                (created_at order)))) ;;;
     execute w SCommit)
    (execute w SRollback).

(** The five steps of phase 5 and the [COMMIT]. *)
Definition commitSteps (w : World) (order : DBPriceOrder) (trade : ExTrade)
  (position : PositionRow) : M unit :=
  execute w (SDeletePosition (symbol order) (side order)) ;;;
  updateOrderStatus w (order_id order) triggered ;;;
  cancelOppositeOrderInDB w order ;;;
  execute w (SInsertTrade (closeTradeRow w order trade position)) ;;;
  execute w (SInsertCloseEvent (closeEventRow w order trade position)) ;;;
  execute w SCommit.

(** Phase 5: the transaction, its rollback and the record of the failure. *)
Definition commitTriggered (w : World) (order : DBPriceOrder) (trade : ExTrade)
  (position : PositionRow) : M unit :=
  execute w SBegin ;;;
  try_catch
    (commitSteps w order trade position)
    (execute w SRollback ;;;
     try_catch
       (execute w
          (SInsertInconsistent
             (inconsistentRow w "price_order_triggered" order StoreError)))
       (ret tt)).

Definition positionOfOpenTrade (openTrade : TradeRow) : PositionRow :=
  {| pos_symbol := tr_symbol openTrade;
     pos_side := tr_side openTrade;
     pos_entry_price := tr_price openTrade;
     pos_quantity := tr_quantity openTrade;
     pos_leverage := tr_leverage openTrade |}.

(** Phase 1: the position row, or else the latest open trade. *)
Definition lookupPosition (w : World) (order : DBPriceOrder)
  : M (option PositionRow) :=
  position <- getPositionInfo w (symbol order) (side order) ;;
  match position with
  | Some p => ret (Some p)
  | None =>
      openTrade <- findOpenTrade w (symbol order) (side order) ;;
      ret (option_map positionOfOpenTrade openTrade)
  end.

Definition handleTriggeredOrder (w : World) (order : DBPriceOrder) : M unit :=
  if negb (priceCheckPasses (exchange w) order) then ret tt
  else
    position <- lookupPosition w order ;;
    match findCloseTrade (exchange w) order with
    | None =>
        match getPositions (exchange w) with
        | None => throw
        | Some positions =>
            if positionExists positions
                 (normalizeContract (exchange w) (symbol order))
            then markCancelled w order
            else recordNoTrade w order
        end
    | Some closeTrade =>
        match position with
        | None =>
            updateOrderStatus w (order_id order) triggered ;;;
            cancelOppositeOrderInDB w order
        | Some p =>
            commitTriggered w order (formatTradeRecord (clock w) closeTrade) p
        end
    end.

(** [exchangeOrderMap.has(id)]: the map keeps the orders that have an id. *)
Definition orderMapHas (exchangeOrders : list ExOrder) (orderId : string)
  : bool :=
  existsb (fun o => negb (String.eqb (ex_id o) "") &&
                    String.eqb (ex_id o) orderId)
    exchangeOrders.

(** [exchangePositionMap.has(contract)]: the map keeps nonzero sizes. *)
Definition positionMapHas (exchangePositions : list ExPosition)
  (contract : string) : bool :=
  existsb (fun p => String.eqb (xp_contract p) contract)
    (List.filter nonzeroSize exchangePositions).

(** The inference of the order kind from the trigger rule of the exchange
    (rule 1 fires at or above the price, rule 2 at or below). *)
Definition ruleMatches (dbOrder : DBPriceOrder) (o : ExOrder) : bool :=
  match ex_rule o with
  | Some rule =>
      match type dbOrder with
      | stop_loss =>
          match side dbOrder with long => rule =? 2 | short => rule =? 1 end
      | take_profit =>
          match side dbOrder with long => rule =? 1 | short => rule =? 2 end
      end
  | None => false
  end.

Definition findMatchingOrder (ex : Exchange) (exchangeOrders : list ExOrder)
  (dbOrder : DBPriceOrder) : option ExOrder :=
  find (ruleMatches dbOrder)
    (List.filter (fun o => String.eqb (normalizeContract ex (ex_contract o))
                        (normalizeContract ex (symbol dbOrder)))
       exchangeOrders).

(** The identifier drift repair; returns the order object (its id updated
    when the [UPDATE] went through) and the new [orderInExchange]. *)
Definition repairOrderId (w : World) (exchangeOrders : list ExOrder)
  (dbOrder : DBPriceOrder) : M (DBPriceOrder * bool) :=
  match findMatchingOrder (exchange w) exchangeOrders dbOrder with
  | Some matchingOrder =>
      let newOrderId := ex_id matchingOrder in
      if negb (String.eqb newOrderId "") &&
         negb (String.eqb newOrderId (order_id dbOrder))
      then
        try_catch
          (execute w (SRenameOrder (order_id dbOrder) newOrderId (clock w)) ;;;
           ret (with_order_id dbOrder newOrderId, true))
          (ret (dbOrder, false))
      else ret (dbOrder, false)
  | None => ret (dbOrder, false)
  end.

(** The body of the loop over the active orders (inside its [try]). *)
Definition processOrder (w : World) (exchangeOrders : list ExOrder)
  (exchangePositions : list ExPosition) (dbOrder : DBPriceOrder) : M unit :=
  let contract := normalizeContract (exchange w) (symbol dbOrder) in
  let orderInExchange := orderMapHas exchangeOrders (order_id dbOrder) in
  let positionInExchange := positionMapHas exchangePositions contract in
  r <- (if negb orderInExchange && positionInExchange
        then repairOrderId w exchangeOrders dbOrder
        else ret (dbOrder, orderInExchange)) ;;
  let dbOrder := fst r in
  let orderInExchange := snd r in
  if negb orderInExchange then
    if negb positionInExchange then handleTriggeredOrder w dbOrder
    else
      match findCloseTrade (exchange w) dbOrder with
      | Some _ => handleTriggeredOrder w dbOrder
      | None => ret tt
      end
  else ret tt.

(** The loop: an exception while processing one order is caught and the
    loop goes on with the next order. *)
Fixpoint forEachOrder (w : World) (exchangeOrders : list ExOrder)
  (exchangePositions : list ExPosition) (orders : list DBPriceOrder)
  (L : Ledger) : Ledger :=
  match orders with
  | [] => L
  | dbOrder :: rest =>
      forEachOrder w exchangeOrders exchangePositions rest
        (fst (processOrder w exchangeOrders exchangePositions dbOrder L))
  end.

(** One cycle of the monitor; [isRunning] is the flag found on entry. *)
Definition checkTriggeredOrders (w : World) (isRunning : bool) (L : Ledger)
  : Ledger :=
  if isRunning then L
  else
    match getActiveOrdersFromDB w L with
    | (L1, None) => L1
    | (L1, Some activeOrders) =>
        match activeOrders with
        | [] => L1
        | _ :: _ =>
            match getPriceOrders (exchange w) with
            | None => L1
            | Some exchangeOrders =>
                forEachOrder w exchangeOrders
                  (match getPositions (exchange w) with
                   | Some ps => ps
                   | None => []
                   end)
                  activeOrders L1
            end
        end
    end.

(** ** DistributedLock *)

Module DistributedLock.

(** A row of [system_config], keyed by [key]. *)
Record ConfigRow := {
  value : string;
  updated_at : Z
}.

Inductive LockStmt :=
| SelectLock (key : string)
| RefreshLock (key : string) (now : Z)
| InsertOrReplaceLock (key holder : string) (now : Z)
| DeleteLock (key : string).

Definition LOCK_TIMEOUT_MS : Z := 30000.

(** [tryAcquire(key, holder)] at time [now]; [lockFault] tells which
    statements raise.  Returns the answer and the table afterwards. *)
Definition tryAcquire (lockFault : LockStmt -> gmap string ConfigRow -> bool)
  (now : Z) (key holder : string) (cfg : gmap string ConfigRow)
  : bool * gmap string ConfigRow :=
  let acquire :=
    if lockFault (InsertOrReplaceLock key holder now) cfg then (false, cfg)
    else (true, <[key := {| value := holder; updated_at := now |}]> cfg) in
  if lockFault (SelectLock key) cfg then (false, cfg)
  else
    match cfg !! key with
    | Some row =>
        let lockAge := now - updated_at row in
        if lockAge <? LOCK_TIMEOUT_MS then
          if String.eqb (value row) holder then
            if lockFault (RefreshLock key now) cfg then (false, cfg)
            else
              (true,
               <[key := {| value := value row; updated_at := now |}]> cfg)
          else (false, cfg)
        else acquire
    | None => acquire
    end.

(** [release(key, holder)]: only the recorded holder deletes the row. *)
Definition release (lockFault : LockStmt -> gmap string ConfigRow -> bool)
  (key holder : string) (cfg : gmap string ConfigRow)
  : gmap string ConfigRow :=
  if lockFault (SelectLock key) cfg then cfg
  else
    match cfg !! key with
    | Some row =>
        if String.eqb (value row) holder then
          if lockFault (DeleteLock key) cfg then cfg else delete key cfg
        else cfg
    | None => cfg
    end.

End DistributedLock.

(** * Runs on a store that executes its statements

    The functions below give, in closed form, the ledger that the code
    above reaches when no statement raises.  They are proved equal to the
    code further down and serve to state and prove its properties. *)

Definition storeWorks (w : World) : Prop := forall st L, fault w st L = false.

Definition plainWrite (st : Stmt) : bool :=
  match st with
  | SBegin | SCommit | SRollback => false
  | _ => true
  end.

Definition run (st : Stmt) (L : Ledger) : Ledger :=
  {| tables := applyWrite st (tables L); txn := txn L;
     journal := journal L ++ [st] |}.

Definition beginTx (L : Ledger) : Ledger :=
  {| tables := tables L; txn := Some (tables L);
     journal := journal L ++ [SBegin] |}.

Definition commitTx (L : Ledger) : Ledger :=
  {| tables := tables L; txn := None; journal := journal L ++ [SCommit] |}.

Definition rollbackTx (T0 : Tables) (L : Ledger) : Ledger :=
  {| tables := T0; txn := None; journal := journal L ++ [SRollback] |}.

(** The opposite order that step 3 finds in the current tables. *)
Definition oppositeOf (order : DBPriceOrder) (L : Ledger) : option string :=
  selectOpposite (symbol order) (side order) (oppositeType (type order))
    (tables L).

Definition cancelOppositeRun (w : World) (order : DBPriceOrder) (L : Ledger)
  : Ledger :=
  match oppositeOf order L with
  | Some oppositeOrderId =>
      run (SUpdateStatus oppositeOrderId cancelled (clock w)) L
  | None => L
  end.

Definition positionOf (order : DBPriceOrder) (T : Tables)
  : option PositionRow :=
  match find (positionIs (symbol order) (side order)) (positions T) with
  | Some p => Some p
  | None =>
      option_map positionOfOpenTrade
        (reduce pickNewest
           (List.filter (isOpenTradeOf (symbol order) (side order)) (trades T)))
  end.

Definition markCancelledRun (w : World) (order : DBPriceOrder) (L : Ledger)
  : Ledger :=
  commitTx (run (SUpdateStatus (order_id order) cancelled (clock w))
              (beginTx L)).

Definition noTradeRow (w : World) (order : DBPriceOrder) : InconsistentRow :=
  inconsistentRow w "price_order_triggered_no_trade" order
    (NoTradeFound (type order) (trigger_price order) (created_at order)).

Definition recordNoTradeRun (w : World) (order : DBPriceOrder) (L : Ledger)
  : Ledger :=
  commitTx
    (run (SInsertInconsistent (noTradeRow w order))
       (run (SDeletePosition (symbol order) (side order))
          (cancelOppositeRun w order
             (run (SUpdateStatus (order_id order) triggered (clock w))
                (beginTx L))))).

Definition statusOnlyRun (w : World) (order : DBPriceOrder) (L : Ledger)
  : Ledger :=
  cancelOppositeRun w order
    (run (SUpdateStatus (order_id order) triggered (clock w)) L).

(** The ledger after steps 1 and 2 of the transaction. *)
Definition afterStep2 (w : World) (order : DBPriceOrder) (L : Ledger)
  : Ledger :=
  run (SUpdateStatus (order_id order) triggered (clock w))
    (run (SDeletePosition (symbol order) (side order)) (beginTx L)).

Definition commitRun (w : World) (order : DBPriceOrder) (trade : ExTrade)
  (position : PositionRow) (L : Ledger) : Ledger :=
  commitTx
    (run (SInsertCloseEvent (closeEventRow w order trade position))
       (run (SInsertTrade (closeTradeRow w order trade position))
          (cancelOppositeRun w order (afterStep2 w order L)))).

(** The transaction when the entry price is 0: the insert of the
    PositionCloseEvent is refused, the transaction is rolled back and the
    failure is recorded. *)
Definition refusedRun (w : World) (order : DBPriceOrder) (trade : ExTrade)
  (position : PositionRow) (L : Ledger) : Ledger :=
  run (SInsertInconsistent
         (inconsistentRow w "price_order_triggered" order StoreError))
    (rollbackTx (tables L)
       (run (SInsertTrade (closeTradeRow w order trade position))
          (cancelOppositeRun w order (afterStep2 w order L)))).

Definition handleRun (w : World) (order : DBPriceOrder) (L : Ledger)
  : Ledger :=
  if negb (priceCheckPasses (exchange w) order) then L
  else
    match findCloseTrade (exchange w) order with
    | None =>
        match getPositions (exchange w) with
        | None => L
        | Some positions =>
            if positionExists positions
                 (normalizeContract (exchange w) (symbol order))
            then markCancelledRun w order L
            else recordNoTradeRun w order L
        end
    | Some closeTrade =>
        match positionOf order (tables L) with
        | None => statusOnlyRun w order L
        | Some p =>
            if Qeq_bool (pos_entry_price p) 0
            then refusedRun w order (formatTradeRecord (clock w) closeTrade)
                   p L
            else commitRun w order (formatTradeRecord (clock w) closeTrade)
                   p L
        end
    end.

(** The id that the drift repair writes, if it fires. *)
Definition repairTarget (ex : Exchange) (exchangeOrders : list ExOrder)
  (dbOrder : DBPriceOrder) : option string :=
  match findMatchingOrder ex exchangeOrders dbOrder with
  | Some matchingOrder =>
      if negb (String.eqb (ex_id matchingOrder) "") &&
         negb (String.eqb (ex_id matchingOrder) (order_id dbOrder))
      then Some (ex_id matchingOrder)
      else None
  | None => None
  end.

Definition processRun (w : World) (exchangeOrders : list ExOrder)
  (exchangePositions : list ExPosition) (dbOrder : DBPriceOrder) (L : Ledger)
  : Ledger :=
  if orderMapHas exchangeOrders (order_id dbOrder) then L
  else if positionMapHas exchangePositions
            (normalizeContract (exchange w) (symbol dbOrder))
  then
    match repairTarget (exchange w) exchangeOrders dbOrder with
    | Some newOrderId =>
        run (SRenameOrder (order_id dbOrder) newOrderId (clock w)) L
    | None =>
        match findCloseTrade (exchange w) dbOrder with
        | Some _ => handleRun w dbOrder L
        | None => L
        end
    end
  else handleRun w dbOrder L.

(** The orders that a cycle leaves alone, told from the exchange only. *)
Definition handleIdle (ex : Exchange) (order : DBPriceOrder) : bool :=
  negb (priceCheckPasses ex order) ||
  match findCloseTrade ex order, getPositions ex with
  | None, None => true
  | _, _ => false
  end.

Definition idle (ex : Exchange) (exchangeOrders : list ExOrder)
  (exchangePositions : list ExPosition) (dbOrder : DBPriceOrder) : bool :=
  if orderMapHas exchangeOrders (order_id dbOrder) then true
  else if positionMapHas exchangePositions
            (normalizeContract ex (symbol dbOrder))
  then
    match repairTarget ex exchangeOrders dbOrder with
    | Some _ => false
    | None =>
        match findCloseTrade ex dbOrder with
        | Some _ => handleIdle ex dbOrder
        | None => true
        end
    end
  else handleIdle ex dbOrder.

(** The rows a statement list inserted. *)
Definition insertedTrades (d : list Stmt) : list TradeRow :=
  flat_map (fun st => match st with SInsertTrade r => [r] | _ => [] end) d.

Definition insertedCloseEvents (d : list Stmt) : list CloseEventRow :=
  flat_map (fun st => match st with SInsertCloseEvent r => [r] | _ => [] end) d.

Definition insertedInconsistent (d : list Stmt) : list InconsistentRow :=
  flat_map
    (fun st => match st with SInsertInconsistent r => [r] | _ => [] end) d.

Definition isRename (st : Stmt) : bool :=
  match st with SRenameOrder _ _ _ => true | _ => false end.

(** Every statement that [m] adds to the journal satisfies [P]. *)
Definition emits {A : Type} (P : Stmt -> Prop) (m : M A) : Prop :=
  forall L, exists d,
    journal (fst (m L)) = journal L ++ d /\ Forall P d.

(** The statements that [handleTriggeredOrder] may add to the journal. *)
Definition handleStmt (w : World) (order : DBPriceOrder) (st : Stmt) : Prop :=
  match st with
  | SBegin | SCommit | SRollback => True
  | SUpdateStatus _ status _ => status <> active
  | SDeletePosition sym sd => sym = symbol order /\ sd = side order
  | SInsertTrade r =>
      exists t p,
        findCloseTrade (exchange w) order = Some t /\
        r = closeTradeRow w order (formatTradeRecord (clock w) t) p
  | SInsertCloseEvent r =>
      exists t p,
        findCloseTrade (exchange w) order = Some t /\
        r = closeEventRow w order (formatTradeRecord (clock w) t) p
  | SInsertInconsistent r =>
      is_exchange_success r = 1 /\ is_db_success r = 0
  | _ => False
  end.

(** * Specification-level definitions and sample data *)

(** The rule in the words of the specification: a stop-loss on a long
    fills at or below trigger minus tolerance, a take-profit on a long at
    or above trigger minus tolerance, and the two are mirrored for a
    short. *)
Definition claimedPriceRule (order : DBPriceOrder) (tradePrice : Q) : Prop :=
  let triggerPrice := trigger_price order in
  let tol := priceTolerance searchTolerancePercent triggerPrice in
  match type order, side order with
  | stop_loss, long => (tradePrice <= triggerPrice - tol)%Q
  | take_profit, long => (triggerPrice - tol <= tradePrice)%Q
  | stop_loss, short => (triggerPrice + tol <= tradePrice)%Q
  | take_profit, short => (tradePrice <= triggerPrice + tol)%Q
  end.

Definition stopLossLong49000 : DBPriceOrder :=
  {| id := 1; order_id := "sl-1"; symbol := "BTC"; side := long;
     type := stop_loss; trigger_price := 49000; quantity := 1;
     created_at := 1000000 |}.

Definition lockStoreWorks
  (lockFault : DistributedLock.LockStmt ->
               gmap string DistributedLock.ConfigRow -> bool) : Prop :=
  forall st cfg, lockFault st cfg = false.

Definition noLockFault (st : DistributedLock.LockStmt)
  (cfg : gmap string DistributedLock.ConfigRow) : bool := false.

Definition heldByHealthCheck : gmap string DistributedLock.ConfigRow :=
  {[ "partial_tp_BTC_long_stage1" :=
       {| DistributedLock.value := "health-check";
          DistributedLock.updated_at := 1000 |} ]}.

Definition takeProfitLong55000 : DBPriceOrder :=
  {| id := 2; order_id := "tp-1"; symbol := "BTC"; side := long;
     type := take_profit; trigger_price := 55000; quantity := 1;
     created_at := 1000000 |}.

Definition activeRow (o : DBPriceOrder) : PriceOrderRow :=
  {| po_order := o; po_status := active; po_updated_at := None;
     po_triggered_at := None |}.

Definition btcLong : PositionRow :=
  {| pos_symbol := "BTC"; pos_side := long; pos_entry_price := 50000;
     pos_quantity := 1; pos_leverage := 10 |}.

(** A ledger with one long BTC position protected by a stop-loss at 49000
    and a take-profit at 55000. *)
Definition sampleLedger : Ledger :=
  {| tables :=
       {| positions := [btcLong];
          price_orders :=
            [activeRow stopLossLong49000; activeRow takeProfitLong55000];
          trades := [];
          position_close_events := [];
          inconsistent_states := [] |};
     txn := None;
     journal := [] |}.

Definition sampleExchange (ps : list ExPosition) (ts : list ExTrade)
  : Exchange :=
  {| normalizeContract := fun s => s;
     getPriceOrders := Some [];
     getPositions := Some ps;
     getMyTrades := fun _ _ _ => Some ts;
     calculatePnl := fun entry exit qty sd _ =>
       match sd with
       | long => ((exit - entry) * qty)%Q
       | short => ((entry - exit) * qty)%Q
       end;
     getContractType := linear;
     getQuantoMultiplier := fun _ => 1%Q |}.

Definition noFault (st : Stmt) (L : Ledger) : bool := false.

Definition sampleWorld (ps : list ExPosition) (ts : list ExTrade) : World :=
  {| exchange := sampleExchange ps ts; fault := noFault; clock := 2000000 |}.

Definition fillAt (price : Q) : ExTrade :=
  {| xt_id := "t-9"; xt_price := price; xt_size := -1; xt_fee := 0;
     xt_timestamp := 1000500 |}.

(** Scenario A: order and position gone, a close fill at 48950. *)
Definition worldTriggered : World := sampleWorld [] [fillAt 48950].
(** Order and position gone, the only close fill is at 52000. *)
Definition worldOtherFill : World := sampleWorld [] [fillAt 52000].
(** Scenario C: order and position gone, no trade at all. *)
Definition worldNoTrade : World := sampleWorld [] [].
(** Scenario B: orders gone, the position is still open, no trade. *)
Definition worldPositionOpen : World :=
  sampleWorld [{| xp_contract := "BTC"; xp_size := 1 |}] [].

(** The store refuses the insert of the close trade. *)
Definition worldTradeInsertFails : World :=
  {| exchange := sampleExchange [] [fillAt 48950];
     fault := fun st _ =>
       match st with SInsertTrade _ => true | _ => false end;
     clock := 2000000 |}.

(** C3 in the words of the specification, for one order of one cycle. *)
Definition C3_as_stated (w : World) (exchangeOrders : list ExOrder)
  (exchangePositions : list ExPosition) (order : DBPriceOrder) (L : Ledger)
  : Prop :=
  storeWorks w ->
  txn L = None ->
  getPositions (exchange w) = Some exchangePositions ->
  In order (selectActiveOrders (tables L)) ->
  orderMapHas exchangeOrders (order_id order) = false ->
  positionMapHas exchangePositions
    (normalizeContract (exchange w) (symbol order)) = false ->
  findCloseTrade (exchange w) order = None ->
  let L' := fst (processOrder w exchangeOrders exchangePositions order L) in
  find (positionIs (symbol order) (side order)) (positions (tables L'))
  = None /\
  (exists record,
     inconsistent_states (tables L')
     = inconsistent_states (tables L) ++ [record] /\
     is_exchange_success record = 1 /\ is_db_success record = 0) /\
  trades (tables L') = trades (tables L).

(** C4 in the words of the specification, for one run of
    [handleTriggeredOrder]: [d] is what the run added to the journal. *)
Definition C4_as_stated (w : World) (order : DBPriceOrder) (L : Ledger)
  : Prop :=
  storeWorks w ->
  txn L = None ->
  forall d,
    journal (fst (handleTriggeredOrder w order L)) = journal L ++ d ->
    In (SDeletePosition (symbol order) (side order)) d ->
    (exists tr, insertedTrades d = [tr] /\ tr_type tr = close_trade) /\
    (exists ev, insertedCloseEvents d = [ev] /\
                ce_trigger_order_id ev = order_id order).

(** How a cycle may change a row of price_orders while it handles the
    order with id [orderId]: rows with another id stay as they are or
    leave the active status; rows with that id leave the active status or
    receive an id that the exchange lists. *)
Definition rowStep (exchangeOrders : list ExOrder) (orderId : string)
  (r r' : PriceOrderRow) : Prop :=
  (order_id (po_order r) <> orderId /\ r' = r) \/
  is_active (po_status r') = false \/
  orderMapHas exchangeOrders (order_id (po_order r')) = true.

Definition settled (orderId : string) (h : PriceOrderRow -> PriceOrderRow)
  : Prop :=
  forall r,
    (order_id (po_order r) <> orderId /\ h r = r) \/
    is_active (po_status (h r)) = false.

(** Every active row is either left alone by a cycle or still to be
    handled in this cycle. *)
Definition pending (ex : Exchange) (exchangeOrders : list ExOrder)
  (exchangePositions : list ExPosition) (todo : list DBPriceOrder)
  (L : Ledger) : Prop :=
  forall r, In r (price_orders (tables L)) ->
    is_active (po_status r) = true ->
    idle ex exchangeOrders exchangePositions (po_order r) = true \/
    In (po_order r) todo.

(** What scenario A adds to the journal of [sampleLedger]. *)
Definition scenarioAJournal : list Stmt :=
  [SBegin;
   SDeletePosition "BTC" long;
   SUpdateStatus "sl-1" triggered 2000000;
   SUpdateStatus "tp-1" cancelled 2000000;
   SInsertTrade
     (closeTradeRow worldTriggered stopLossLong49000 (fillAt 48950) btcLong);
   SInsertCloseEvent
     (closeEventRow worldTriggered stopLossLong49000 (fillAt 48950) btcLong);
   SCommit].

(** * What a cycle keeps

    How the tables may differ after the monitor has run: rows of
    price_orders keep their place and their order data and never return to
    the active status; positions are only removed; trades,
    position_close_events and inconsistent_states only grow at the end. *)

Definition sameOrderData (r r' : PriceOrderRow) : Prop :=
  id (po_order r') = id (po_order r) /\
  symbol (po_order r') = symbol (po_order r) /\
  side (po_order r') = side (po_order r) /\
  type (po_order r') = type (po_order r) /\
  trigger_price (po_order r') = trigger_price (po_order r) /\
  quantity (po_order r') = quantity (po_order r) /\
  created_at (po_order r') = created_at (po_order r).

Definition rowAdvance (r r' : PriceOrderRow) : Prop :=
  sameOrderData r r' /\
  (is_active (po_status r) = false -> is_active (po_status r') = false).

Definition extends {A : Type} (l l' : list A) : Prop :=
  exists more, l' = l ++ more.

Definition advance (T T' : Tables) : Prop :=
  Forall2 rowAdvance (price_orders T) (price_orders T') /\
  (forall p, In p (positions T') -> In p (positions T)) /\
  extends (trades T) (trades T') /\
  extends (position_close_events T) (position_close_events T') /\
  extends (inconsistent_states T) (inconsistent_states T').

(** The tables, and the tables saved by an open transaction, both derive
    from [T0]. *)
Definition derivesFrom (T0 : Tables) (L : Ledger) : Prop :=
  advance T0 (tables L) /\
  forall Ts, txn L = Some Ts -> advance T0 Ts.

Definition keeps {A : Type} (I : Ledger -> Prop) (m : M A) : Prop :=
  forall L, I L -> I (fst (m L)).

(** The statements of the monitor never set a status to active. *)
Definition safeStmt (st : Stmt) : Prop :=
  match st with
  | SUpdateStatus _ status _ => status <> active
  | _ => True
  end.

(** A computation that does not touch the transaction state. *)
Definition txnStable {A : Type} (m : M A) : Prop :=
  forall L, txn (fst (m L)) = txn L.

(** A computation that, when it raises, leaves the transaction state as
    it found it. *)
Definition txnStableOnThrow {A : Type} (m : M A) : Prop :=
  forall L, snd (m L) = None -> txn (fst (m L)) = txn L.

(** A computation that, when it returns, has closed the transaction. *)
Definition closesOnReturn {A : Type} (m : M A) : Prop :=
  forall L, snd (m L) <> None -> txn (fst (m L)) = None.

(** A computation that leaves no transaction open when none was. *)
Definition leavesClosed {A : Type} (m : M A) : Prop :=
  forall L, txn L = None -> txn (fst (m L)) = None.

(** * PartialTakeProfitExecutor

    [executeCheck] and [DistributedLock.hasRecentExecution].  The
    take-profit tool, the ticker and [calculateRMultiple] are not part of
    these sources and are taken as parameters; a call that throws returns
    [None].  One clock value stands for the calls of [Date.now()] within
    one check. *)

Module PartialTakeProfit.

(** [SELECT symbol, side, entry_price, stop_loss, quantity FROM positions] *)
Record PositionView := {
  pv_symbol : string;
  pv_side : Side;
  pv_entry_price : Q;
  pv_stop_loss : Q;
  pv_quantity : Q
}.

(** A row of partial_take_profit_history; [ph_timestamp] is the time, in
    milliseconds, of the ISO string that the column holds (a date with a
    four-digit year). *)
Record HistoryRow := {
  ph_symbol : string;
  ph_stage : Z;
  ph_timestamp : Z;
  ph_status : string
}.

Record Store := {
  history : list HistoryRow;
  system_config : gmap string DistributedLock.ConfigRow
}.

Inductive Stage := stage1 | stage2.

Definition stageNumber (s : Stage) : Z :=
  match s with stage1 => 1 | stage2 => 2 end.

Inductive StageResult :=
| recently_executed
| lock_busy
| success
| failed
| already_executed.

Record Detail := {
  d_symbol : string;
  d_stage : Z;
  d_result : StageResult
}.

(** The object that [executeCheck] returns. *)
Record Outcome := {
  oc_success : bool;
  oc_executed : nat;
  oc_skipped : nat;
  oc_details : list Detail
}.

Inductive TpStmt :=
| SelectOpenPositions
| CountRecent (sym : string) (stage : Z) (cutoffTime : Z)
| CountCompleted (sym : string) (stage : Z).

Record Env := {
  tp_normalizeContract : string -> string;
  (** [parseFloat(ticker.last || '0')] *)
  getFuturesTicker : string -> option Q;
  calculateRMultiple : Q -> Q -> Q -> Side -> Q;
  (** [partialTakeProfitTool.execute({symbol, stage})]: the store
      afterwards and [result.success], or [None] when it throws. *)
  partialTakeProfitTool : string -> Z -> Store -> Store * option bool;
  dbFault : TpStmt -> Store -> bool;
  lockFault : DistributedLock.LockStmt ->
              gmap string DistributedLock.ConfigRow -> bool;
  now : Z
}.

Definition isCompleted (sym : string) (stage : Z) (h : HistoryRow) : bool :=
  String.eqb (ph_symbol h) sym && (ph_stage h =? stage) &&
  String.eqb (ph_status h) "completed".

(** A [Date] holds a time of at most 8.64e15 ms before or after the
    epoch; [toISOString] of any other [Date] raises a [RangeError]. *)
Definition MAX_DATE_MS : Z := 8640000000000000.

Definition validDate (ms : Z) : bool :=
  (- MAX_DATE_MS <=? ms) && (ms <=? MAX_DATE_MS).

(** From 0000-01-01T00:00:00.000Z to 9999-12-31T23:59:59.999Z the ISO
    string has a four-digit year. *)
Definition FIRST_FOUR_DIGIT_MS : Z := -62167219200000.
Definition LAST_FOUR_DIGIT_MS : Z := 253402300799999.

Definition fourDigitYear (ms : Z) : bool :=
  (FIRST_FOUR_DIGIT_MS <=? ms) && (ms <=? LAST_FOUR_DIGIT_MS).

(** [timestamp > ?] compares the text of the column with the ISO string
    of the cutoff.  A cutoff with a four-digit year compares as the times
    do; the string of any other year starts with a sign, which sorts
    before every digit. *)
Definition laterThan (cutoffTime : Z) (h : HistoryRow) : bool :=
  if fourDigitYear cutoffTime then cutoffTime <? ph_timestamp h else true.

(** [hasRecentExecution(symbol, stage, windowSeconds)]: an exception (the
    [RangeError] of [toISOString], or one of the store) is caught and
    gives [false]. *)
Definition hasRecentExecution (env : Env) (sym : string) (stage : Z)
  (windowSeconds : Z) (st : Store) : bool :=
  let cutoffTime := now env - windowSeconds * 1000 in
  if negb (validDate cutoffTime) then false
  else if dbFault env (CountRecent sym stage cutoffTime) st then false
  else
    Nat.ltb 0
      (length
         (List.filter
            (fun h => isCompleted sym stage h && laterThan cutoffTime h)
            (history st))).

(** [String.prototype.replace] with a string pattern: the first
    occurrence only. *)
Fixpoint replaceFirst (pat rep s : string) : string :=
  if String.prefix pat s then
    String.append rep
      (String.substring (String.length pat)
         (String.length s - String.length pat) s)
  else
    match s with
    | EmptyString => EmptyString
    | String c rest => String c (replaceFirst pat rep rest)
    end.

(** [symbol.replace('_USDT', '').replace('USDT', '')] *)
Definition toolSymbol (sym : string) : string :=
  replaceFirst "USDT" "" (replaceFirst "_USDT" "" sym).

Definition sideName (sd : Side) : string :=
  match sd with long => "long" | short => "short" end.

(** [`partial_tp_${symbol}_${side}_stage1`] and its stage 2 twin. *)
Definition lockKeyOf (sym : string) (sd : Side) (s : Stage) : string :=
  String.append "partial_tp_"
    (String.append sym
       (String.append "_"
          (String.append (sideName sd)
             (match s with stage1 => "_stage1" | stage2 => "_stage2" end)))).

(** The counters and the list [executed] of [executeCheck]. *)
Record Acc := {
  executedCount : nat;
  skippedCount : nat;
  executed : list Detail
}.

(** [skippedCount++; executed.push(d)] *)
Definition skipWith (acc : Acc) (d : Detail) : Acc :=
  {| executedCount := executedCount acc;
     skippedCount := S (skippedCount acc);
     executed := executed acc ++ [d] |}.

(** [executedCount++; executed.push(d)] *)
Definition countWith (acc : Acc) (d : Detail) : Acc :=
  {| executedCount := S (executedCount acc);
     skippedCount := skippedCount acc;
     executed := executed acc ++ [d] |}.

(** [executed.push(d)] *)
Definition noteWith (acc : Acc) (d : Detail) : Acc :=
  {| executedCount := executedCount acc;
     skippedCount := skippedCount acc;
     executed := executed acc ++ [d] |}.

(** How a stage block ends: it falls through to the next statement, it
    [continue]s with the next position, or an exception leaves it. *)
Inductive Flow := FallThrough | Continue | Raise.

(** The body of the [try] of a stage block, the lock being held. *)
Definition runStage (env : Env) (caller sym : string) (s : Stage)
  (st : Store) (acc : Acc) : Store * Acc * Flow :=
  let n := stageNumber s in
  if dbFault env (CountCompleted sym n) st then (st, acc, Raise)
  else if Nat.ltb 0 (length (List.filter (isCompleted sym n) (history st)))
  then
    (st,
     skipWith acc {| d_symbol := sym; d_stage := n;
                     d_result := already_executed |},
     FallThrough)
  else
    match partialTakeProfitTool env (toolSymbol sym) n st with
    | (st', Some true) =>
        (st',
         countWith acc {| d_symbol := sym; d_stage := n;
                          d_result := success |},
         FallThrough)
    | (st', Some false) =>
        (st',
         noteWith acc {| d_symbol := sym; d_stage := n; d_result := failed |},
         FallThrough)
    | (st', None) => (st', acc, Raise)
    end.

(** The block of one stage (the code has it twice, for stage 1 and for
    stage 2): recency check, lock, [try { ... } finally { release }]. *)
Definition stageBlock (env : Env) (caller sym : string) (sd : Side)
  (s : Stage) (st : Store) (acc : Acc) : Store * Acc * Flow :=
  let n := stageNumber s in
  let lockKey := lockKeyOf sym sd s in
  if hasRecentExecution env sym n 30 st then
    (st,
     skipWith acc {| d_symbol := sym; d_stage := n;
                     d_result := recently_executed |},
     Continue)
  else
    let acquired :=
      DistributedLock.tryAcquire (lockFault env) (now env) lockKey caller
        (system_config st) in
    let held := {| history := history st; system_config := snd acquired |} in
    if negb (fst acquired) then
      (held,
       skipWith acc {| d_symbol := sym; d_stage := n; d_result := lock_busy |},
       Continue)
    else
      let inner := runStage env caller sym s held acc in
      let st' := fst (fst inner) in
      ({| history := history st';
          system_config :=
            DistributedLock.release (lockFault env) lockKey caller
              (system_config st') |},
       snd (fst inner), snd inner).

(** The body of the loop over the positions; the last component tells
    whether an exception left it. *)
Definition checkPosition (env : Env) (caller : string) (pos : PositionView)
  (st : Store) (acc : Acc) : Store * Acc * bool :=
  let sym := pv_symbol pos in
  let entryPrice := pv_entry_price pos in
  let stopLossPrice := pv_stop_loss pos in
  if Qle_bool stopLossPrice 0 then (st, acc, false)
  else
    match getFuturesTicker env (tp_normalizeContract env sym) with
    | None => (st, acc, false)
    | Some currentPrice =>
        if Qle_bool currentPrice 0 then (st, acc, false)
        else if Qeq_bool (Qabs (entryPrice - stopLossPrice)) 0
        then (st, acc, false)
        else
          let currentR :=
            calculateRMultiple env entryPrice currentPrice stopLossPrice
              (pv_side pos) in
          let r1 :=
            if Qle_bool (6 # 10) currentR
            then stageBlock env caller sym (pv_side pos) stage1 st acc
            else (st, acc, FallThrough) in
          match snd r1 with
          | Continue => (fst r1, false)
          | Raise => (fst r1, true)
          | FallThrough =>
              let r2 :=
                if Qle_bool (12 # 10) currentR
                then stageBlock env caller sym (pv_side pos) stage2
                       (fst (fst r1)) (snd (fst r1))
                else (fst r1, FallThrough) in
              (fst r2, match snd r2 with Raise => true | _ => false end)
          end
    end.

Fixpoint forEachPosition (env : Env) (caller : string)
  (rows : list PositionView) (st : Store) (acc : Acc) : Store * Acc * bool :=
  match rows with
  | [] => (st, acc, false)
  | pos :: rest =>
      let r := checkPosition env caller pos st acc in
      if snd r then r
      else forEachPosition env caller rest (fst (fst r)) (snd (fst r))
  end.

(** [executeCheck(caller)] on the rows of positions. *)
Definition executeCheck (env : Env) (caller : string)
  (positions : list PositionView) (st : Store) : Store * Outcome :=
  if dbFault env SelectOpenPositions st then
    (st, {| oc_success := false; oc_executed := 0%nat; oc_skipped := 0%nat;
            oc_details := [] |})
  else
    match List.filter (fun p => negb (Qeq_bool (pv_quantity p) 0)) positions
    with
    | [] =>
        (st, {| oc_success := true; oc_executed := 0%nat;
                oc_skipped := 0%nat; oc_details := [] |})
    | dbPositions =>
        let r :=
          forEachPosition env caller dbPositions st
            {| executedCount := 0%nat; skippedCount := 0%nat;
               executed := [] |} in
        (fst (fst r),
         {| oc_success := negb (snd r);
            oc_executed := executedCount (snd (fst r));
            oc_skipped := skippedCount (snd (fst r));
            oc_details := executed (snd (fst r)) |})
    end.

Definition isSkip (d : Detail) : bool :=
  match d_result d with
  | recently_executed | lock_busy | already_executed => true
  | _ => false
  end.

Definition isSuccess (d : Detail) : bool :=
  match d_result d with success => true | _ => false end.

(** The counters agree with the list of details. *)
Definition countsAgree (acc : Acc) : Prop :=
  executedCount acc = length (List.filter isSuccess (executed acc)) /\
  skippedCount acc = length (List.filter isSkip (executed acc)).

(** The tool leaves the lease rows alone. *)
Definition toolKeepsLeases (env : Env) : Prop :=
  forall sym n st,
    system_config (fst (partialTakeProfitTool env sym n st))
    = system_config st.

(** History holds a completed row for both stages of each position. *)
Definition allStagesCompleted (positions : list PositionView) (st : Store)
  : Prop :=
  forall pos, In pos positions ->
    (exists h, In h (history st) /\ isCompleted (pv_symbol pos) 1 h = true) /\
    (exists h, In h (history st) /\ isCompleted (pv_symbol pos) 2 h = true).

End PartialTakeProfit.

(** The tool has not run: nothing counted as executed, and every detail
    is a skip. *)
Definition neverRan (acc : PartialTakeProfit.Acc) : Prop :=
  PartialTakeProfit.executedCount acc = 0%nat /\
  Forall (fun d => PartialTakeProfit.isSkip d = true)
    (PartialTakeProfit.executed acc).

(** Sample data for the properties above. *)

(** The exchange lists both protective orders of [sampleLedger]. *)
Definition worldListed : World :=
  {| exchange :=
       {| normalizeContract := fun s => s;
          getPriceOrders :=
            Some [{| ex_id := "sl-1"; ex_contract := "BTC";
                     ex_rule := Some 2 |};
                  {| ex_id := "tp-1"; ex_contract := "BTC";
                     ex_rule := Some 1 |}];
          getPositions := Some [{| xp_contract := "BTC"; xp_size := 1 |}];
          getMyTrades := fun _ _ _ => Some [];
          calculatePnl := fun _ _ _ _ _ => 0%Q;
          getContractType := linear;
          getQuantoMultiplier := fun _ => 1%Q |};
     fault := noFault;
     clock := 2000000 |}.

(** The stop-loss of the exchange carries another id than the ledger. *)
Definition driftedStopLoss : ExOrder :=
  {| ex_id := "sl-9"; ex_contract := "BTC"; ex_rule := Some 2 |}.

(** [sampleLedger] without its Position row. *)
Definition ledgerWithoutPosition : Ledger :=
  {| tables :=
       {| positions := [];
          price_orders :=
            [activeRow stopLossLong49000; activeRow takeProfitLong55000];
          trades := [];
          position_close_events := [];
          inconsistent_states := [] |};
     txn := None;
     journal := [] |}.

Definition btcView : PartialTakeProfit.PositionView :=
  {| PartialTakeProfit.pv_symbol := "BTC_USDT";
     PartialTakeProfit.pv_side := long;
     PartialTakeProfit.pv_entry_price := 50000;
     PartialTakeProfit.pv_stop_loss := 49000;
     PartialTakeProfit.pv_quantity := 1 |}.

Definition completedRow (stage timestamp : Z) : PartialTakeProfit.HistoryRow :=
  {| PartialTakeProfit.ph_symbol := "BTC_USDT";
     PartialTakeProfit.ph_stage := stage;
     PartialTakeProfit.ph_timestamp := timestamp;
     PartialTakeProfit.ph_status := "completed" |}.

(** A tool that appends a completed row for the stage and reports
    success; the price is at 51300 and the R multiple is counted from the
    entry in units of the stop distance. *)
Definition sampleEnv : PartialTakeProfit.Env :=
  {| PartialTakeProfit.tp_normalizeContract := fun s => s;
     PartialTakeProfit.getFuturesTicker := fun _ => Some (51300 # 1);
     PartialTakeProfit.calculateRMultiple := fun entry price stop _ =>
       ((price - entry) / (entry - stop))%Q;
     PartialTakeProfit.partialTakeProfitTool := fun sym n st =>
       ({| PartialTakeProfit.history :=
             PartialTakeProfit.history st ++ [completedRow n 2000000];
           PartialTakeProfit.system_config :=
             PartialTakeProfit.system_config st |},
        Some true);
     PartialTakeProfit.dbFault := fun _ _ => false;
     PartialTakeProfit.lockFault := noLockFault;
     PartialTakeProfit.now := 2000000 |}.

Definition emptyStore : PartialTakeProfit.Store :=
  {| PartialTakeProfit.history := [];
     PartialTakeProfit.system_config := ∅ |}.

Definition bothStagesDone : PartialTakeProfit.Store :=
  {| PartialTakeProfit.history :=
       [completedRow 1 1000000; completedRow 2 1500000];
     PartialTakeProfit.system_config := ∅ |}.

(** The health check holds the lease of stage 1 since 1.99 million ms. *)
Definition stage1Contended : PartialTakeProfit.Store :=
  {| PartialTakeProfit.history := [];
     PartialTakeProfit.system_config :=
       {[ PartialTakeProfit.lockKeyOf "BTC_USDT" long PartialTakeProfit.stage1
          := {| DistributedLock.value := "health-check";
                DistributedLock.updated_at := 1990000 |} ]} |}.

(** A computation that either raises or returns with the ledger [f L]. *)
Definition allOrThrow (m : M unit) (f : Ledger -> Ledger) : Prop :=
  forall L, snd (m L) = None \/ m L = (f L, Some tt).

(** The rows of price_orders carry pairwise different order ids. *)
Definition uniqueOrderIds (T : Tables) : Prop :=
  List.NoDup (map (fun r => order_id (po_order r)) (price_orders T)).

(** * Rows and ledgers used by the statements on the transaction *)

(** A row of price_orders after steps 2 and 3 of the transaction,
    [opposite] being the order id that step 3 found. *)
Definition settledRow (w : World) (order : DBPriceOrder)
  (opposite : option string) (r : PriceOrderRow) : PriceOrderRow :=
  let r2 := statusRow (order_id order) triggered (clock w) r in
  match opposite with
  | Some oppositeOrderId => statusRow oppositeOrderId cancelled (clock w) r2
  | None => r2
  end.

(** Every entry price that phase 1 can find (a Position row, or else an
    open Trade row) is not 0. *)
Definition entryPricesUsable (T : Tables) : Prop :=
  (forall p, In p (positions T) -> Qeq_bool (pos_entry_price p) 0 = false) /\
  (forall t, In t (trades T) -> tr_type t = open_trade ->
     Qeq_bool (tr_price t) 0 = false).

(** A computation that, when it raises, has journalled only statements
    of [P]. *)
Definition emitsOnThrow {A : Type} (P : Stmt -> Prop) (m : M A) : Prop :=
  forall L, snd (m L) = None ->
    exists d, journal (fst (m L)) = journal L ++ d /\ Forall P d.

(** C2 in the words of the specification, for one transaction: a step
    of the transaction raises. *)
Definition C2_as_stated (w : World) (order : DBPriceOrder) (L : Ledger)
  (closeTrade : ExTrade) (p : PositionRow) : Prop :=
  txn L = None ->
  fault w SBegin L = false ->
  priceCheckPasses (exchange w) order = true ->
  findCloseTrade (exchange w) order = Some closeTrade ->
  lookupPosition w order L = (L, Some (Some p)) ->
  snd (commitSteps w order (formatTradeRecord (clock w) closeTrade) p
         (beginTx L)) = None ->
  let L' := fst (handleTriggeredOrder w order L) in
  positions (tables L') = positions (tables L) /\
  price_orders (tables L') = price_orders (tables L) /\
  trades (tables L') = trades (tables L) /\
  position_close_events (tables L') = position_close_events (tables L) /\
  exists record,
    inconsistent_states (tables L')
    = inconsistent_states (tables L) ++ [record] /\
    is_exchange_success record = 1 /\
    is_db_success record = 0.

(** The store refuses the insert of the close trade and every insert into
    inconsistent_states. *)
Definition worldRecordInsertFails : World :=
  {| exchange := sampleExchange [] [fillAt 48950];
     fault := fun st _ =>
       match st with
       | SInsertTrade _ | SInsertInconsistent _ => true
       | _ => false
       end;
     clock := 2000000 |}.

(** C9 in the words of the specification: a second cycle against the same
    exchange answers leaves the ledger of the first cycle as it is. *)
Definition C9_as_stated (w : World) (L : Ledger) : Prop :=
  txn L = None ->
  checkTriggeredOrders w false (checkTriggeredOrders w false L)
  = checkTriggeredOrders w false L.

(** [sampleLedger] with an entry price of 0 in its Position row. *)
Definition zeroEntryLedger : Ledger :=
  {| tables :=
       {| positions :=
            [{| pos_symbol := "BTC"; pos_side := long; pos_entry_price := 0;
                pos_quantity := 1; pos_leverage := 10 |}];
          price_orders :=
            [activeRow stopLossLong49000; activeRow takeProfitLong55000];
          trades := [];
          position_close_events := [];
          inconsistent_states := [] |};
     txn := None;
     journal := [] |}.

(** A second close fill, later and lower than the fill at 48950. *)
Definition laterFill : ExTrade :=
  {| xt_id := "t-10"; xt_price := 48900; xt_size := -1; xt_fee := 0;
     xt_timestamp := 1000900 |}.

(** Order and position gone; two close fills pass the filters, and the
    exchange lists the later one first. *)
Definition worldTwoFills : World := sampleWorld [] [laterFill; fillAt 48950].
(** * Properties *)

(** ** Numbers and enumerations *)

Lemma Qlt_bool_iff x y : Qlt_bool x y = true <-> (x < y)%Q.
Proof.
  unfold Qlt_bool. rewrite negb_true_iff. split.
  - intros H. apply Qnot_le_lt. intros Hle.
    apply Qle_bool_iff in Hle. congruence.
  - intros H. destruct (Qle_bool y x) eqn:E; [|reflexivity].
    apply Qle_bool_iff in E. exfalso. exact (Qlt_not_le _ _ H E).
Qed.

Lemma Side_eqb_eq a b : Side_eqb a b = true <-> a = b.
Proof. destruct a, b; simpl; split; congruence. Qed.

Lemma OrderType_eqb_eq a b : OrderType_eqb a b = true <-> a = b.
Proof. destruct a, b; simpl; split; congruence. Qed.

(** ** The price test *)

Lemma searchTolerance_value (triggerPrice : Q) :
  (priceTolerance searchTolerancePercent triggerPrice
   == triggerPrice * (1 # 1000))%Q.
Proof.
  unfold priceTolerance, searchTolerancePercent.
  apply Qmult_comp; [reflexivity|]. reflexivity.
Qed.

(** C6, as stated, fails: a stop-loss on a long with trigger 49000 accepts
    a fill at 49000, which is above trigger minus tolerance (48951). *)
Lemma C6_counterexample :
  priceMatches searchTolerancePercent stopLossLong49000 49000 = true /\
  ~ claimedPriceRule stopLossLong49000 49000.
Proof.
  split; [reflexivity|].
  unfold claimedPriceRule; simpl. intros H.
  apply Qle_bool_iff in H. vm_compute in H. discriminate.
Qed.

(** C6, amended: the price test of [findCloseTrade] uses a tolerance of
    0.1 percent of the trigger price and accepts a fill exactly when: for a
    stop-loss on a long, the price is at or below trigger plus tolerance;
    for a take-profit on a long, at or above trigger minus tolerance; for a
    stop-loss on a short, at or above trigger minus tolerance; for a
    take-profit on a short, at or below trigger plus tolerance. *)
Theorem C6_price_test_by_kind_and_side (order : DBPriceOrder)
  (tradePrice : Q) :
  let triggerPrice := trigger_price order in
  let tol := priceTolerance searchTolerancePercent triggerPrice in
  (tol == triggerPrice * (1 # 1000))%Q /\
  (priceMatches searchTolerancePercent order tradePrice = true <->
   match type order, side order with
   | stop_loss, long => (tradePrice <= triggerPrice + tol)%Q
   | take_profit, long => (triggerPrice - tol <= tradePrice)%Q
   | stop_loss, short => (triggerPrice - tol <= tradePrice)%Q
   | take_profit, short => (tradePrice <= triggerPrice + tol)%Q
   end).
Proof.
  simpl. split; [apply searchTolerance_value|].
  unfold priceMatches.
  destruct (type order), (side order); apply Qle_bool_iff.
Qed.

(** ** The lease lock *)

(** C7: with a store that executes its statements, [tryAcquire] answers
    true when there is no lease row, when the caller holds a lease within
    the TTL (the timestamp is refreshed), and when the lease is older than
    the TTL (the row is overwritten for the caller); it answers false, and
    changes nothing, when another holder has a lease younger than the
    TTL. *)
Theorem C7_tryAcquire_contract
  (lockFault : DistributedLock.LockStmt ->
               gmap string DistributedLock.ConfigRow -> bool)
  (now : Z) (key holder : string)
  (cfg : gmap string DistributedLock.ConfigRow)
  (Hworks : lockStoreWorks lockFault) :
  let result := DistributedLock.tryAcquire lockFault now key holder cfg in
  let mine :=
    {| DistributedLock.value := holder;
       DistributedLock.updated_at := now |} in
  (cfg !! key = None ->
   result = (true, <[key := mine]> cfg)) /\
  (forall row, cfg !! key = Some row ->
     DistributedLock.value row = holder ->
     now - DistributedLock.updated_at row <= DistributedLock.LOCK_TIMEOUT_MS ->
     result = (true, <[key := mine]> cfg)) /\
  (forall row, cfg !! key = Some row ->
     DistributedLock.LOCK_TIMEOUT_MS < now - DistributedLock.updated_at row ->
     result = (true, <[key := mine]> cfg)) /\
  (forall row, cfg !! key = Some row ->
     DistributedLock.value row <> holder ->
     now - DistributedLock.updated_at row < DistributedLock.LOCK_TIMEOUT_MS ->
     result = (false, cfg)).
Proof.
  unfold DistributedLock.tryAcquire. cbv zeta.
  rewrite !Hworks.
  repeat split.
  - intros ->. reflexivity.
  - intros row -> Hval Hage.
    destruct (Z.ltb_spec (now - DistributedLock.updated_at row)
                DistributedLock.LOCK_TIMEOUT_MS); [|reflexivity].
    rewrite Hval, String.eqb_refl. reflexivity.
  - intros row -> Hage.
    destruct (Z.ltb_spec (now - DistributedLock.updated_at row)
                DistributedLock.LOCK_TIMEOUT_MS); [lia|reflexivity].
  - intros row -> Hval Hage.
    destruct (Z.ltb_spec (now - DistributedLock.updated_at row)
                DistributedLock.LOCK_TIMEOUT_MS); [|lia].
    destruct (String.eqb_spec (DistributedLock.value row) holder);
      [contradiction|reflexivity].
Qed.

(** A lease of the health check, asked for by the agent after 4 and after
    39 seconds. *)
Lemma C7_witness :
  DistributedLock.tryAcquire noLockFault 5000
    "partial_tp_BTC_long_stage1" "ai-agent" heldByHealthCheck
  = (false, heldByHealthCheck) /\
  DistributedLock.tryAcquire noLockFault 40000
    "partial_tp_BTC_long_stage1" "ai-agent" heldByHealthCheck
  = (true,
     <["partial_tp_BTC_long_stage1" :=
         {| DistributedLock.value := "ai-agent";
            DistributedLock.updated_at := 40000 |}]> heldByHealthCheck).
Proof.
  assert (Hw : lockStoreWorks noLockFault) by (intros st cfg; reflexivity).
  assert (Hrow : heldByHealthCheck !! "partial_tp_BTC_long_stage1"
                 = Some {| DistributedLock.value := "health-check";
                           DistributedLock.updated_at := 1000 |})
    by (apply lookup_singleton_eq).
  split.
  - destruct (C7_tryAcquire_contract noLockFault 5000
                "partial_tp_BTC_long_stage1" "ai-agent" heldByHealthCheck Hw)
      as (_ & _ & _ & Hother).
    apply (Hother _ Hrow); simpl; [discriminate | reflexivity].
  - destruct (C7_tryAcquire_contract noLockFault 40000
                "partial_tp_BTC_long_stage1" "ai-agent" heldByHealthCheck Hw)
      as (_ & _ & Hstale & _).
    apply (Hstale _ Hrow); simpl; reflexivity.
Defined.

(** ** The store monad *)

Lemma bind_ok {A B : Type} (m : M A) (k : A -> M B) L L' a :
  m L = (L', Some a) -> bind m k L = k a L'.
Proof. intros H. unfold bind. rewrite H. reflexivity. Qed.

Lemma bind_throw {A B : Type} (m : M A) (k : A -> M B) L L' :
  m L = (L', None) -> bind m k L = (L', None).
Proof. intros H. unfold bind. rewrite H. reflexivity. Qed.

Lemma try_ok {A : Type} (body handler : M A) L L' a :
  body L = (L', Some a) -> try_catch body handler L = (L', Some a).
Proof. intros H. unfold try_catch. rewrite H. reflexivity. Qed.

Lemma try_throw {A : Type} (body handler : M A) L L' :
  body L = (L', None) -> try_catch body handler L = handler L'.
Proof. intros H. unfold try_catch. rewrite H. reflexivity. Qed.

Lemma query_state {A : Type} w st (f : Tables -> A) L :
  fst (query w st f L) = L.
Proof. unfold query. destruct (fault w st L); reflexivity. Qed.

Lemma getPositionInfo_state w sym sd L :
  exists r, getPositionInfo w sym sd L = (L, Some r).
Proof.
  unfold getPositionInfo, try_catch, query, ret.
  destruct (fault w _ L); eauto.
Qed.

Lemma findOpenTrade_state w sym sd L :
  exists r, findOpenTrade w sym sd L = (L, Some r).
Proof.
  unfold findOpenTrade, try_catch, query, ret.
  destruct (fault w _ L); eauto.
Qed.

(** Phase 1 reads only: it returns, and leaves the ledger as it was. *)
Lemma lookupPosition_state w order L :
  exists r, lookupPosition w order L = (L, Some r).
Proof.
  unfold lookupPosition.
  destruct (getPositionInfo_state w (symbol order) (side order) L) as [r Hr].
  rewrite (bind_ok _ _ _ _ _ Hr). destruct r as [p|].
  - eexists. reflexivity.
  - destruct (findOpenTrade_state w (symbol order) (side order) L) as [t Ht].
    rewrite (bind_ok _ _ _ _ _ Ht). eexists. reflexivity.
Qed.

(** ** Runs on a store that executes its statements *)

Section StoreWorks.

Variable w : World.
Hypothesis Hworks : storeWorks w.

Lemma query_run {A : Type} st (f : Tables -> A) L :
  query w st f L = (L, Some (f (tables L))).
Proof. unfold query. rewrite Hworks. reflexivity. Qed.

Lemma execute_run st L :
  plainWrite st = true -> bindable st = true ->
  execute w st L = (run st L, Some tt).
Proof.
  intros H Hb. unfold execute. rewrite Hworks, Hb. simpl.
  destruct st; try discriminate; reflexivity.
Qed.

Lemma bind_execute_run {B : Type} st (k : unit -> M B) L :
  plainWrite st = true -> bindable st = true ->
  bind (execute w st) k L = k tt (run st L).
Proof. intros H Hb. apply bind_ok. apply execute_run; assumption. Qed.

(** The store client refuses a statement that it cannot bind. *)
Lemma execute_refused st L :
  bindable st = false -> execute w st L = (L, None).
Proof. intros Hb. unfold execute. rewrite Hworks, Hb. reflexivity. Qed.

Lemma closeEvent_bindable order trade position :
  bindable (SInsertCloseEvent (closeEventRow w order trade position))
  = negb (Qeq_bool (pos_entry_price position) 0).
Proof.
  simpl. unfold pnlPercentOf.
  destruct (Qeq_bool (pos_entry_price position) 0); reflexivity.
Qed.

Lemma execute_begin L :
  txn L = None -> execute w SBegin L = (beginTx L, Some tt).
Proof. intros H. unfold execute. rewrite Hworks, H. reflexivity. Qed.

Lemma execute_commit L T0 :
  txn L = Some T0 -> execute w SCommit L = (commitTx L, Some tt).
Proof. intros H. unfold execute. rewrite Hworks, H. reflexivity. Qed.

Lemma updateOrderStatus_run orderId status L :
  updateOrderStatus w orderId status L
  = (run (SUpdateStatus orderId status (clock w)) L, Some tt).
Proof. unfold updateOrderStatus. apply execute_run; reflexivity. Qed.

Lemma cancelOpposite_run order L :
  cancelOppositeOrderInDB w order L = (cancelOppositeRun w order L, Some tt).
Proof.
  unfold cancelOppositeOrderInDB, cancelOppositeRun, oppositeOf.
  rewrite (bind_ok _ _ _ _ _ (query_run _ _ L)).
  destruct (selectOpposite _ _ _ (tables L)).
  - apply updateOrderStatus_run.
  - reflexivity.
Qed.

Lemma cancelOppositeRun_txn order L :
  txn (cancelOppositeRun w order L) = txn L.
Proof.
  unfold cancelOppositeRun. destruct (oppositeOf order L); reflexivity.
Qed.

Lemma lookupPosition_run order L :
  lookupPosition w order L = (L, Some (positionOf order (tables L))).
Proof.
  unfold lookupPosition, positionOf, getPositionInfo, findOpenTrade.
  rewrite (bind_ok _ _ _ _ _ (try_ok _ _ _ _ _ (query_run _ _ L))).
  destruct (find _ (positions (tables L))); [reflexivity|].
  rewrite (bind_ok _ _ _ _ _ (try_ok _ _ _ _ _ (query_run _ _ L))).
  reflexivity.
Qed.

Lemma markCancelled_run order L :
  txn L = None ->
  markCancelled w order L = (markCancelledRun w order L, Some tt).
Proof.
  intros H. unfold markCancelled, markCancelledRun.
  rewrite (bind_ok _ _ _ _ _ (execute_begin L H)).
  apply try_ok.
  rewrite (bind_ok _ _ _ _ _ (updateOrderStatus_run _ _ _)).
  apply (execute_commit _ (tables L)). reflexivity.
Qed.

Lemma recordNoTrade_run order L :
  txn L = None ->
  recordNoTrade w order L = (recordNoTradeRun w order L, Some tt).
Proof.
  intros H. unfold recordNoTrade, recordNoTradeRun, noTradeRow.
  rewrite (bind_ok _ _ _ _ _ (execute_begin L H)).
  apply try_ok.
  rewrite (bind_ok _ _ _ _ _ (updateOrderStatus_run _ _ _)).
  rewrite (bind_ok _ _ _ _ _ (cancelOpposite_run _ _)).
  rewrite bind_execute_run by reflexivity.
  rewrite bind_execute_run by reflexivity.
  apply (execute_commit _ (tables L)).
  simpl. rewrite cancelOppositeRun_txn. reflexivity.
Qed.

Lemma statusOnly_run order L :
  bind (updateOrderStatus w (order_id order) triggered)
    (fun _ => cancelOppositeOrderInDB w order) L
  = (statusOnlyRun w order L, Some tt).
Proof.
  rewrite (bind_ok _ _ _ _ _ (updateOrderStatus_run _ _ _)).
  apply cancelOpposite_run.
Qed.

Lemma commitSteps_run order trade position L T0 :
  txn L = Some T0 ->
  Qeq_bool (pos_entry_price position) 0 = false ->
  commitSteps w order trade position L
  = (commitTx
       (run (SInsertCloseEvent (closeEventRow w order trade position))
          (run (SInsertTrade (closeTradeRow w order trade position))
             (cancelOppositeRun w order
                (run (SUpdateStatus (order_id order) triggered (clock w))
                   (run (SDeletePosition (symbol order) (side order)) L))))),
     Some tt).
Proof.
  intros H He. unfold commitSteps.
  rewrite bind_execute_run by reflexivity.
  rewrite (bind_ok _ _ _ _ _ (updateOrderStatus_run _ _ _)).
  rewrite (bind_ok _ _ _ _ _ (cancelOpposite_run _ _)).
  rewrite bind_execute_run by reflexivity.
  rewrite bind_execute_run;
    [|reflexivity|rewrite closeEvent_bindable, He; reflexivity].
  apply (execute_commit _ T0).
  simpl. rewrite cancelOppositeRun_txn. exact H.
Qed.

(** With an entry price of 0 the fifth step raises. *)
Lemma commitSteps_refused order trade position L :
  Qeq_bool (pos_entry_price position) 0 = true ->
  commitSteps w order trade position L
  = (run (SInsertTrade (closeTradeRow w order trade position))
       (cancelOppositeRun w order
          (run (SUpdateStatus (order_id order) triggered (clock w))
             (run (SDeletePosition (symbol order) (side order)) L))),
     None).
Proof.
  intros He. unfold commitSteps.
  rewrite bind_execute_run by reflexivity.
  rewrite (bind_ok _ _ _ _ _ (updateOrderStatus_run _ _ _)).
  rewrite (bind_ok _ _ _ _ _ (cancelOpposite_run _ _)).
  rewrite bind_execute_run by reflexivity.
  apply bind_throw. apply execute_refused.
  rewrite closeEvent_bindable, He. reflexivity.
Qed.

Lemma commitTriggered_run order trade position L :
  txn L = None ->
  Qeq_bool (pos_entry_price position) 0 = false ->
  commitTriggered w order trade position L
  = (commitRun w order trade position L, Some tt).
Proof.
  intros H He. unfold commitTriggered, commitRun, afterStep2.
  rewrite (bind_ok _ _ _ _ _ (execute_begin L H)).
  apply try_ok. apply (commitSteps_run _ _ _ _ (tables L)); auto.
Qed.

Lemma commitTriggered_refused order trade position L :
  txn L = None ->
  Qeq_bool (pos_entry_price position) 0 = true ->
  commitTriggered w order trade position L
  = (refusedRun w order trade position L, Some tt).
Proof.
  intros H He. unfold commitTriggered, refusedRun, afterStep2.
  rewrite (bind_ok _ _ _ _ _ (execute_begin L H)).
  rewrite (try_throw _ _ _ _ (commitSteps_refused _ _ _ _ He)).
  set (Lf := run (SInsertTrade _) _).
  assert (Hopen : txn Lf = Some (tables L)).
  { unfold Lf. simpl. rewrite cancelOppositeRun_txn. reflexivity. }
  assert (Hr : execute w SRollback Lf = (rollbackTx (tables L) Lf, Some tt)).
  { unfold execute. rewrite Hworks, Hopen. reflexivity. }
  rewrite (bind_ok _ _ _ _ _ Hr).
  apply try_ok. apply execute_run; reflexivity.
Qed.

(** [handleTriggeredOrder] reaches [handleRun]. *)
Lemma handleTriggeredOrder_run order L :
  txn L = None ->
  fst (handleTriggeredOrder w order L) = handleRun w order L.
Proof.
  intros H. unfold handleTriggeredOrder, handleRun.
  destruct (priceCheckPasses (exchange w) order); [|reflexivity]. simpl.
  rewrite (bind_ok _ _ _ _ _ (lookupPosition_run order L)).
  destruct (findCloseTrade (exchange w) order) as [closeTrade|].
  - destruct (positionOf order (tables L)) as [p|].
    + destruct (Qeq_bool (pos_entry_price p) 0) eqn:He.
      * rewrite commitTriggered_refused by assumption. reflexivity.
      * rewrite commitTriggered_run by assumption. reflexivity.
    + rewrite statusOnly_run. reflexivity.
  - destruct (getPositions (exchange w)) as [ps|]; [|reflexivity].
    destruct (positionExists ps _).
    + rewrite markCancelled_run by exact H. reflexivity.
    + rewrite recordNoTrade_run by exact H. reflexivity.
Qed.

Lemma handleRun_txn order L : txn L = None -> txn (handleRun w order L) = None.
Proof.
  intros H. unfold handleRun.
  destruct (priceCheckPasses (exchange w) order); [|exact H]. simpl.
  destruct (findCloseTrade (exchange w) order) as [closeTrade|].
  - destruct (positionOf order (tables L)) as [p|].
    + destruct (Qeq_bool (pos_entry_price p) 0); reflexivity.
    + unfold statusOnlyRun. rewrite cancelOppositeRun_txn. exact H.
  - destruct (getPositions (exchange w)) as [ps|]; [|exact H].
    destruct (positionExists ps _); reflexivity.
Qed.

Lemma repairOrderId_run exchangeOrders dbOrder L :
  repairOrderId w exchangeOrders dbOrder L
  = match repairTarget (exchange w) exchangeOrders dbOrder with
    | Some newOrderId =>
        (run (SRenameOrder (order_id dbOrder) newOrderId (clock w)) L,
         Some (with_order_id dbOrder newOrderId, true))
    | None => (L, Some (dbOrder, false))
    end.
Proof.
  unfold repairOrderId, repairTarget.
  destruct (findMatchingOrder _ _ _) as [m|]; [|reflexivity].
  destruct (negb (String.eqb (ex_id m) "") && _); [|reflexivity].
  apply try_ok.
  rewrite bind_execute_run by reflexivity. reflexivity.
Qed.

(** The loop body reaches [processRun]. *)
Lemma processOrder_run exchangeOrders exchangePositions dbOrder L :
  txn L = None ->
  fst (processOrder w exchangeOrders exchangePositions dbOrder L)
  = processRun w exchangeOrders exchangePositions dbOrder L.
Proof.
  intros H. unfold processOrder, processRun.
  destruct (orderMapHas exchangeOrders (order_id dbOrder)) eqn:Ein; simpl.
  - reflexivity.
  - destruct (positionMapHas exchangePositions _) eqn:Epos; simpl.
    + unfold bind at 1. rewrite repairOrderId_run.
      destruct (repairTarget _ _ _) as [newId|]; simpl; [reflexivity|].
      destruct (findCloseTrade (exchange w) dbOrder); [|reflexivity].
      apply handleTriggeredOrder_run. exact H.
    + apply handleTriggeredOrder_run. exact H.
Qed.

Lemma processRun_txn exchangeOrders exchangePositions dbOrder L :
  txn L = None ->
  txn (processRun w exchangeOrders exchangePositions dbOrder L) = None.
Proof.
  intros H. unfold processRun.
  destruct (orderMapHas _ _); [exact H|].
  destruct (positionMapHas _ _); [|apply handleRun_txn; exact H].
  destruct (repairTarget _ _ _); [exact H|].
  destruct (findCloseTrade _ _); [apply handleRun_txn|]; exact H.
Qed.

End StoreWorks.

(** ** The transaction of a triggered order *)

Lemma cancelOppositeRun_tables w order L :
  positions (tables (cancelOppositeRun w order L)) = positions (tables L) /\
  trades (tables (cancelOppositeRun w order L)) = trades (tables L) /\
  position_close_events (tables (cancelOppositeRun w order L))
  = position_close_events (tables L) /\
  inconsistent_states (tables (cancelOppositeRun w order L))
  = inconsistent_states (tables L).
Proof.
  unfold cancelOppositeRun. destruct (oppositeOf order L); simpl; auto.
Qed.

Lemma cancelOppositeRun_journal w order L :
  journal (cancelOppositeRun w order L)
  = journal L ++
    match oppositeOf order L with
    | Some oppositeOrderId =>
        [SUpdateStatus oppositeOrderId cancelled (clock w)]
    | None => []
    end.
Proof.
  unfold cancelOppositeRun. destruct (oppositeOf order L); simpl.
  - reflexivity.
  - rewrite app_nil_r. reflexivity.
Qed.

Lemma handleRun_commit w order L closeTrade p :
  priceCheckPasses (exchange w) order = true ->
  findCloseTrade (exchange w) order = Some closeTrade ->
  positionOf order (tables L) = Some p ->
  Qeq_bool (pos_entry_price p) 0 = false ->
  handleRun w order L
  = commitRun w order (formatTradeRecord (clock w) closeTrade) p L.
Proof.
  intros Hc Ht Hp He. unfold handleRun. rewrite Hc, Ht, Hp, He. reflexivity.
Qed.

Lemma commitRun_journal w order trade p L :
  journal (commitRun w order trade p L)
  = journal L ++
    [SBegin; SDeletePosition (symbol order) (side order);
     SUpdateStatus (order_id order) triggered (clock w)] ++
    match oppositeOf order (afterStep2 w order L) with
    | Some oppositeOrderId =>
        [SUpdateStatus oppositeOrderId cancelled (clock w)]
    | None => []
    end ++
    [SInsertTrade (closeTradeRow w order trade p);
     SInsertCloseEvent (closeEventRow w order trade p); SCommit].
Proof.
  unfold commitRun. simpl. rewrite cancelOppositeRun_journal. simpl.
  repeat rewrite <- app_assoc. reflexivity.
Qed.

Lemma refusedRun_journal w order trade p L :
  journal (refusedRun w order trade p L)
  = journal L ++
    [SBegin; SDeletePosition (symbol order) (side order);
     SUpdateStatus (order_id order) triggered (clock w)] ++
    match oppositeOf order (afterStep2 w order L) with
    | Some oppositeOrderId =>
        [SUpdateStatus oppositeOrderId cancelled (clock w)]
    | None => []
    end ++
    [SInsertTrade (closeTradeRow w order trade p); SRollback;
     SInsertInconsistent
       (inconsistentRow w "price_order_triggered" order StoreError)].
Proof.
  unfold refusedRun. simpl. rewrite cancelOppositeRun_journal. simpl.
  repeat rewrite <- app_assoc. reflexivity.
Qed.

Lemma lookupPosition_known w order L p :
  storeWorks w ->
  lookupPosition w order L = (L, Some (Some p)) ->
  positionOf order (tables L) = Some p.
Proof.
  intros Hw H. rewrite (lookupPosition_run w Hw) in H. congruence.
Qed.

(** Steps that leave the transaction open. *)
Lemma execute_plain_txn w st L :
  plainWrite st = true -> txn (fst (execute w st L)) = txn L.
Proof.
  intros H. unfold execute. destruct (fault w st L); [reflexivity|].
  destruct (bindable st); [|reflexivity].
  destruct st; try discriminate; reflexivity.
Qed.

Lemma cancelOpposite_txn w order L :
  txn (fst (cancelOppositeOrderInDB w order L)) = txn L.
Proof.
  unfold cancelOppositeOrderInDB, bind, query.
  destruct (fault w _ L); [reflexivity|].
  destruct (selectOpposite _ _ _ (tables L)); [|reflexivity].
  apply execute_plain_txn. reflexivity.
Qed.

Lemma bind_fail_txn {A B : Type} (m : M A) (k : A -> M B) :
  (forall L, txn (fst (m L)) = txn L) ->
  (forall a L, snd (k a L) = None -> txn (fst (k a L)) = txn L) ->
  forall L, snd (bind m k L) = None -> txn (fst (bind m k L)) = txn L.
Proof.
  intros Hm Hk L. unfold bind. specialize (Hm L).
  destruct (m L) as [L1 [a|]]; simpl in *.
  - intros H. rewrite (Hk a L1 H). exact Hm.
  - intros _. exact Hm.
Qed.

Lemma execute_commit_fail_txn w L :
  snd (execute w SCommit L) = None -> txn (fst (execute w SCommit L)) = txn L.
Proof.
  unfold execute. destruct (fault w SCommit L); [intros _; reflexivity|].
  simpl. destruct (txn L) eqn:E; [discriminate|intros _; simpl; exact E].
Qed.

(** When a step of the transaction raises, the transaction is still open
    on the tables saved by BEGIN. *)
Lemma commitSteps_fail_txn w order trade p L :
  snd (commitSteps w order trade p L) = None ->
  txn (fst (commitSteps w order trade p L)) = txn L.
Proof.
  unfold commitSteps.
  apply bind_fail_txn; [intros; apply execute_plain_txn; reflexivity|].
  intros _. apply bind_fail_txn;
    [intros; apply execute_plain_txn; reflexivity|].
  intros _. apply bind_fail_txn; [intros; apply cancelOpposite_txn|].
  intros _. apply bind_fail_txn;
    [intros; apply execute_plain_txn; reflexivity|].
  intros _. apply bind_fail_txn;
    [intros; apply execute_plain_txn; reflexivity|].
  intros _. intros L0. apply execute_commit_fail_txn.
Qed.

(** C2, as stated, fails: when the insert of the close trade raises and
    the insert into inconsistent_states raises too, the transaction is
    rolled back and the second exception is caught and logged; no record
    is appended. *)
Lemma C2_counterexample :
  ~ C2_as_stated worldRecordInsertFails stopLossLong49000 sampleLedger
      (fillAt 48950) btcLong.
Proof.
  unfold C2_as_stated. intros H.
  destruct H as (_ & _ & _ & _ & record & Hr & _);
    try (vm_compute; reflexivity).
  apply (f_equal (@length InconsistentRow)) in Hr.
  vm_compute in Hr. discriminate.
Qed.

(** C2, amended: when a step of the transaction of a triggered order
    raises, and ROLLBACK and the insert into inconsistent_states go
    through, the tables are those from before the transaction, with one
    record appended to inconsistent_states whose exchange_success is 1 and
    whose db_success is 0. *)
Theorem C2_failed_commit_rolls_back_and_records (w : World)
  (order : DBPriceOrder) (L : Ledger) (closeTrade : ExTrade)
  (p : PositionRow) :
  txn L = None ->
  fault w SBegin L = false ->
  (forall L0, fault w SRollback L0 = false) ->
  (forall r L0, fault w (SInsertInconsistent r) L0 = false) ->
  priceCheckPasses (exchange w) order = true ->
  findCloseTrade (exchange w) order = Some closeTrade ->
  lookupPosition w order L = (L, Some (Some p)) ->
  snd (commitSteps w order (formatTradeRecord (clock w) closeTrade) p
         (beginTx L)) = None ->
  let L' := fst (handleTriggeredOrder w order L) in
  let record := inconsistentRow w "price_order_triggered" order StoreError in
  positions (tables L') = positions (tables L) /\
  price_orders (tables L') = price_orders (tables L) /\
  trades (tables L') = trades (tables L) /\
  position_close_events (tables L') = position_close_events (tables L) /\
  inconsistent_states (tables L')
  = inconsistent_states (tables L) ++ [record] /\
  is_exchange_success record = 1 /\
  is_db_success record = 0 /\
  txn L' = None.
Proof.
  intros Htxn Hbegin Hroll Hrec Hc Ht Hp Hfail. cbv zeta.
  unfold handleTriggeredOrder. rewrite Hc. simpl.
  rewrite (bind_ok _ _ _ _ _ Hp). rewrite Ht.
  unfold commitTriggered.
  assert (Hb : execute w SBegin L = (beginTx L, Some tt)).
  { unfold execute. rewrite Hbegin, Htxn. reflexivity. }
  rewrite (bind_ok _ _ _ _ _ Hb).
  pose proof (commitSteps_fail_txn w order _ p (beginTx L) Hfail) as Hopen.
  destruct (commitSteps w order (formatTradeRecord (clock w) closeTrade) p
              (beginTx L)) as [Lf r] eqn:E.
  simpl in Hfail, Hopen. subst r.
  rewrite (try_throw _ _ _ _ E).
  assert (Hr : execute w SRollback Lf = (rollbackTx (tables L) Lf, Some tt)).
  { unfold execute. rewrite Hroll, Hopen. reflexivity. }
  rewrite (bind_ok _ _ _ _ _ Hr).
  unfold try_catch, execute. rewrite Hrec. simpl.
  repeat split; reflexivity.
Qed.

(** ** What the code may write *)

Lemma emits_ret {A : Type} (P : Stmt -> Prop) (a : A) : emits P (ret a).
Proof. intros L. exists []. simpl. rewrite app_nil_r. auto. Qed.

Lemma emits_throw {A : Type} (P : Stmt -> Prop) : emits P (@throw A).
Proof. intros L. exists []. simpl. rewrite app_nil_r. auto. Qed.

Lemma emits_query {A : Type} (P : Stmt -> Prop) w st (f : Tables -> A) :
  emits P (query w st f).
Proof.
  intros L. exists []. rewrite query_state, app_nil_r. auto.
Qed.

Lemma emits_execute (P : Stmt -> Prop) w st : P st -> emits P (execute w st).
Proof.
  intros HP L. unfold execute.
  assert (Hone : Forall P [st]) by (constructor; auto).
  assert (Hnone : exists d, journal L = journal L ++ d /\ Forall P d)
    by (exists []; rewrite app_nil_r; auto).
  destruct (fault w st L); [exact Hnone|].
  destruct (bindable st); [|exact Hnone]. cbn [negb].
  destruct st; try (exists [st]; split; [reflexivity|exact Hone]);
    destruct (txn L); try exact Hnone;
    (eexists; split; [reflexivity|exact Hone]).
Qed.

Lemma emits_bind {A B : Type} (P : Stmt -> Prop) (m : M A) (k : A -> M B) :
  emits P m -> (forall a, emits P (k a)) -> emits P (bind m k).
Proof.
  intros Hm Hk L. unfold bind. destruct (Hm L) as (d1 & E1 & F1).
  destruct (m L) as [L1 [a|]]; simpl in *.
  - destruct (Hk a L1) as (d2 & E2 & F2).
    exists (d1 ++ d2). rewrite E2, E1, app_assoc. split; [reflexivity|].
    apply Forall_app; auto.
  - exists d1. auto.
Qed.

Lemma emits_try {A : Type} (P : Stmt -> Prop) (body handler : M A) :
  emits P body -> emits P handler -> emits P (try_catch body handler).
Proof.
  intros Hb Hh L. unfold try_catch. destruct (Hb L) as (d1 & E1 & F1).
  destruct (body L) as [L1 [a|]]; simpl in *.
  - exists d1. auto.
  - destruct (Hh L1) as (d2 & E2 & F2).
    exists (d1 ++ d2). rewrite E2, E1, app_assoc. split; [reflexivity|].
    apply Forall_app; auto.
Qed.

Lemma emits_weaken {A : Type} (P Q : Stmt -> Prop) (m : M A) :
  (forall st, P st -> Q st) -> emits P m -> emits Q m.
Proof.
  intros HPQ Hm L. destruct (Hm L) as (d & E & F).
  exists d. split; [exact E|]. eapply Forall_impl; eauto.
Qed.

Lemma emits_lookupPosition (P : Stmt -> Prop) w order :
  emits P (lookupPosition w order).
Proof.
  intros L. destruct (lookupPosition_state w order L) as [r Hr].
  rewrite Hr. exists []. simpl. rewrite app_nil_r. auto.
Qed.

Lemma emits_updateOrderStatus (P : Stmt -> Prop) w orderId status :
  P (SUpdateStatus orderId status (clock w)) ->
  emits P (updateOrderStatus w orderId status).
Proof. apply emits_execute. Qed.

Lemma emits_cancelOpposite (P : Stmt -> Prop) w order :
  (forall orderId, P (SUpdateStatus orderId cancelled (clock w))) ->
  emits P (cancelOppositeOrderInDB w order).
Proof.
  intros HP. unfold cancelOppositeOrderInDB.
  apply emits_bind; [apply emits_query|].
  intros [oppositeOrderId|]; [|apply emits_ret].
  apply emits_updateOrderStatus. apply HP.
Qed.

(** Whatever the store does, [handleTriggeredOrder] journals only
    statements of [handleStmt]. *)
Lemma emits_handleTriggeredOrder w order :
  emits (handleStmt w order) (handleTriggeredOrder w order).
Proof.
  unfold handleTriggeredOrder.
  destruct (priceCheckPasses (exchange w) order); simpl; [|apply emits_ret].
  apply emits_bind; [apply emits_lookupPosition|]. intros position.
  destruct (findCloseTrade (exchange w) order) as [closeTrade|] eqn:Et.
  - destruct position as [p|].
    + unfold commitTriggered, commitSteps.
      apply emits_bind; [apply emits_execute; exact I|]. intros _.
      apply emits_try.
      * repeat (apply emits_bind; [|intros _]);
          try (apply emits_execute; simpl); auto; try discriminate.
        -- apply emits_cancelOpposite. simpl. discriminate.
        -- exists closeTrade, p. auto.
        -- exists closeTrade, p. auto.
      * apply emits_bind; [apply emits_execute; exact I|]. intros _.
        apply emits_try; [|apply emits_ret].
        apply emits_execute. simpl. auto.
    + apply emits_bind; [|intros _].
      * apply emits_updateOrderStatus. simpl. discriminate.
      * apply emits_cancelOpposite. simpl. discriminate.
  - destruct (getPositions (exchange w)) as [ps|]; [|apply emits_throw].
    destruct (positionExists ps _).
    + unfold markCancelled.
      apply emits_bind; [apply emits_execute; exact I|]. intros _.
      apply emits_try; [|apply emits_execute; exact I].
      apply emits_bind; [|intros _; apply emits_execute; exact I].
      apply emits_updateOrderStatus. simpl. discriminate.
    + unfold recordNoTrade.
      apply emits_bind; [apply emits_execute; exact I|]. intros _.
      apply emits_try; [|apply emits_execute; exact I].
      repeat (apply emits_bind; [|intros _]);
        try (apply emits_execute; simpl); auto; try discriminate.
      apply emits_cancelOpposite. simpl. discriminate.
Qed.

(** ** The trade search *)

Lemma pickEarliest_cases a b :
  (pickEarliest a b = a \/ pickEarliest a b = b) /\
  xt_timestamp (pickEarliest a b) <= xt_timestamp a /\
  xt_timestamp (pickEarliest a b) <= xt_timestamp b.
Proof.
  unfold pickEarliest.
  destruct (Z.ltb_spec (xt_timestamp b) (xt_timestamp a)); split; auto; lia.
Qed.

Lemma fold_pickEarliest rest : forall x,
  In (fold_left pickEarliest rest x) (x :: rest) /\
  forall y, In y (x :: rest) ->
    xt_timestamp (fold_left pickEarliest rest x) <= xt_timestamp y.
Proof.
  induction rest as [|z rest IH]; intros x; simpl.
  - split; [auto|]. intros y [<-|[]]. lia.
  - destruct (IH (pickEarliest x z)) as [Hin Hle].
    destruct (pickEarliest_cases x z) as (Hor & Hx & Hz).
    split.
    + destruct Hin as [Hin|Hin]; [|auto].
      rewrite <- Hin. destruct Hor as [->| ->]; auto.
    + intros y [<-|[<-|Hy]].
      * specialize (Hle _ (or_introl eq_refl)). lia.
      * specialize (Hle _ (or_introl eq_refl)). lia.
      * apply Hle. right. exact Hy.
Qed.

Lemma reduce_pickEarliest l t :
  reduce pickEarliest l = Some t ->
  In t l /\ forall y, In y l -> xt_timestamp t <= xt_timestamp y.
Proof.
  destruct l as [|x rest]; simpl; [discriminate|].
  intros [= <-]. apply fold_pickEarliest.
Qed.

Lemma findCloseTradeAttempts_found ex order attempts t :
  findCloseTradeAttempts ex order attempts = Some (Some t) ->
  exists trades,
    getMyTrades ex (normalizeContract ex (symbol order)) 500
      (searchStartTime order) = Some trades /\
    reduce pickEarliest (List.filter (closeTradeFilter order) trades) = Some t.
Proof.
  induction attempts as [|n IH]; simpl; [discriminate|].
  destruct (getMyTrades ex _ 500 _) as [trades|]; [|discriminate].
  destruct (reduce pickEarliest _) as [c|] eqn:E.
  - intros [= <-]. exists trades. auto.
  - exact IH.
Qed.

Lemma closeTradeFilter_window order t :
  closeTradeFilter order t = true ->
  searchStartTime order <= xt_timestamp t /\
  xt_timestamp t - created_at order <= maxTimeWindowMs /\
  isCloseTrade (side order) (xt_size t) = true /\
  priceMatches searchTolerancePercent order (xt_price t) = true.
Proof.
  unfold closeTradeFilter.
  destruct (Z.ltb_spec (xt_timestamp t) (searchStartTime order));
    [discriminate|].
  destruct (Z.gtb_spec (xt_timestamp t - created_at order) maxTimeWindowMs);
    [discriminate|].
  destruct (isCloseTrade (side order) (xt_size t)); simpl; [|discriminate].
  intros Hprice. repeat split; auto; lia.
Qed.

(** The trade that [findCloseTrade] returns. *)
Lemma findCloseTrade_earliest ex order t :
  findCloseTrade ex order = Some t ->
  exists trades,
    getMyTrades ex (normalizeContract ex (symbol order)) 500
      (searchStartTime order) = Some trades /\
    In t trades /\
    closeTradeFilter order t = true /\
    forall t', In t' trades -> closeTradeFilter order t' = true ->
      xt_timestamp t <= xt_timestamp t'.
Proof.
  unfold findCloseTrade.
  destruct (findCloseTradeAttempts ex order retries) as [[c|]|] eqn:E;
    try discriminate.
  intros [= ->].
  destruct (findCloseTradeAttempts_found _ _ _ _ E) as (trades & Hget & Hred).
  destruct (reduce_pickEarliest _ _ Hred) as [Hin Hle].
  apply filter_In in Hin. destruct Hin as [Hin Hf].
  exists trades. repeat split; auto.
  intros t' Hin' Hf'. apply Hle. apply filter_In. auto.
Qed.

(** ** The identifier drift repair *)

Lemma handleStmt_not_rename w order st :
  handleStmt w order st -> isRename st = false.
Proof. destruct st; simpl; auto; contradiction. Qed.

Lemma emits_repairOrderId w exchangeOrders dbOrder :
  emits (fun _ => True) (repairOrderId w exchangeOrders dbOrder).
Proof.
  intros L. destruct (repairOrderId w exchangeOrders dbOrder L) as [L' r] eqn:E.
  revert E. unfold repairOrderId.
  destruct (findMatchingOrder _ _ _) as [m|];
    [|intros [= <- <-]; exists []; simpl; rewrite app_nil_r; auto].
  destruct (negb _ && _);
    [|intros [= <- <-]; exists []; simpl; rewrite app_nil_r; auto].
  intros E.
  assert (H : emits (fun _ => True)
                (try_catch
                   (bind (execute w (SRenameOrder (order_id dbOrder) (ex_id m)
                                       (clock w)))
                      (fun _ => ret (with_order_id dbOrder (ex_id m), true)))
                   (ret (dbOrder, false)))).
  { apply emits_try; [|apply emits_ret].
    apply emits_bind; [apply emits_execute; exact I|].
    intros _. apply emits_ret. }
  specialize (H L). rewrite E in H. exact H.
Qed.

(** C10: the loop body can journal an id rewrite only when the order id
    is absent from the exchange order list and the exchange position map
    holds the contract; for an order whose id is absent and whose contract
    has no exchange position, the loop body is [handleTriggeredOrder] on
    the unchanged order, and it journals no id rewrite. *)
Theorem C10_repair_only_with_exchange_position (w : World)
  (exchangeOrders : list ExOrder) (exchangePositions : list ExPosition)
  (dbOrder : DBPriceOrder) (L : Ledger) :
  let contract := normalizeContract (exchange w) (symbol dbOrder) in
  let L' := fst (processOrder w exchangeOrders exchangePositions dbOrder L) in
  (exists d, journal L' = journal L ++ d /\
     (existsb isRename d = true ->
      orderMapHas exchangeOrders (order_id dbOrder) = false /\
      positionMapHas exchangePositions contract = true)) /\
  (orderMapHas exchangeOrders (order_id dbOrder) = false ->
   positionMapHas exchangePositions contract = false ->
   processOrder w exchangeOrders exchangePositions dbOrder L
   = handleTriggeredOrder w dbOrder L /\
   exists d, journal L' = journal L ++ d /\ existsb isRename d = false).
Proof.
  cbv zeta.
  assert (Hquiet : forall d, Forall (handleStmt w dbOrder) d ->
                             existsb isRename d = false).
  { intros d F. induction F as [|st d Hst _ IH]; simpl; [reflexivity|].
    rewrite (handleStmt_not_rename _ _ _ Hst). exact IH. }
  assert (Hdirect :
            orderMapHas exchangeOrders (order_id dbOrder) = false ->
            positionMapHas exchangePositions
              (normalizeContract (exchange w) (symbol dbOrder)) = false ->
            processOrder w exchangeOrders exchangePositions dbOrder L
            = handleTriggeredOrder w dbOrder L).
  { intros Hin Hpos. unfold processOrder. rewrite Hin, Hpos. reflexivity. }
  split.
  - destruct (orderMapHas exchangeOrders (order_id dbOrder)) eqn:Hin.
    + exists []. unfold processOrder. rewrite Hin. simpl.
      rewrite app_nil_r. split; [reflexivity|discriminate].
    + destruct (positionMapHas exchangePositions
                  (normalizeContract (exchange w) (symbol dbOrder))) eqn:Hpos.
      * assert (H : emits (fun _ => True)
                      (processOrder w exchangeOrders exchangePositions
                         dbOrder)).
        { unfold processOrder. rewrite Hin, Hpos. simpl.
          apply emits_bind; [apply emits_repairOrderId|]. intros r.
          destruct (negb (snd r)); [|apply emits_ret].
          destruct (findCloseTrade _ _); [|apply emits_ret].
          eapply emits_weaken; [|apply emits_handleTriggeredOrder]. auto. }
        destruct (H L) as (d & E & _). exists d. auto.
      * rewrite (Hdirect eq_refl eq_refl).
        destruct (emits_handleTriggeredOrder w dbOrder L) as (d & E & F).
        exists d. split; [exact E|]. rewrite (Hquiet d F). discriminate.
  - intros Hin Hpos. split; [exact (Hdirect Hin Hpos)|].
    rewrite (Hdirect Hin Hpos).
    destruct (emits_handleTriggeredOrder w dbOrder L) as (d & E & F).
    exists d. split; [exact E|]. exact (Hquiet d F).
Qed.

(** ** The no-trade paths *)

Lemma positionExists_mapHas ps contract :
  positionExists ps contract = positionMapHas ps contract.
Proof.
  unfold positionExists, positionMapHas.
  induction ps as [|p ps IH]; simpl; [reflexivity|].
  destruct (nonzeroSize p); simpl.
  - rewrite andb_true_r, IH. reflexivity.
  - rewrite andb_false_r. simpl. exact IH.
Qed.

Lemma filter_find_none sym sd (ps : list PositionRow) :
  find (positionIs sym sd)
    (List.filter (fun q => negb (positionIs sym sd q)) ps) = None.
Proof.
  induction ps as [|q ps IH]; simpl; [reflexivity|].
  destruct (positionIs sym sd q) eqn:E; simpl; [exact IH|].
  rewrite E. exact IH.
Qed.

Lemma recordNoTradeRun_journal w order L :
  journal (recordNoTradeRun w order L)
  = journal L ++
    [SBegin; SUpdateStatus (order_id order) triggered (clock w)] ++
    match oppositeOf order
            (run (SUpdateStatus (order_id order) triggered (clock w))
               (beginTx L)) with
    | Some oppositeOrderId =>
        [SUpdateStatus oppositeOrderId cancelled (clock w)]
    | None => []
    end ++
    [SDeletePosition (symbol order) (side order);
     SInsertInconsistent (noTradeRow w order); SCommit].
Proof.
  unfold recordNoTradeRun. simpl. rewrite cancelOppositeRun_journal. simpl.
  repeat rewrite <- app_assoc. reflexivity.
Qed.

Lemma statusOnlyRun_journal w order L :
  journal (statusOnlyRun w order L)
  = journal L ++
    [SUpdateStatus (order_id order) triggered (clock w)] ++
    match oppositeOf order
            (run (SUpdateStatus (order_id order) triggered (clock w)) L) with
    | Some oppositeOrderId =>
        [SUpdateStatus oppositeOrderId cancelled (clock w)]
    | None => []
    end.
Proof.
  unfold statusOnlyRun. rewrite cancelOppositeRun_journal. simpl.
  repeat rewrite <- app_assoc. reflexivity.
Qed.

(** C3, as stated, fails: with the order and the position gone and no
    matching trade, a close fill at 52000 makes the price pre-check of
    [handleTriggeredOrder] return at once for a stop-loss at 49000; the
    Position row stays and nothing is recorded. *)
Lemma C3_counterexample :
  ~ C3_as_stated worldOtherFill [] [] stopLossLong49000 sampleLedger.
Proof.
  intros H.
  assert (Hw : storeWorks worldOtherFill) by (intros st L; reflexivity).
  specialize (H Hw eq_refl eq_refl).
  assert (Hin : In stopLossLong49000 (selectActiveOrders (tables sampleLedger)))
    by (left; reflexivity).
  specialize (H Hin eq_refl eq_refl eq_refl).
  destruct H as [Hfind _]. vm_compute in Hfind. discriminate.
Qed.

(** C3, amended: for an order whose id is absent from the exchange order
    list, whose contract has no exchange position, for which the trade
    search finds nothing, and which the price pre-check of
    [handleTriggeredOrder] lets through, the loop body (on a store that
    executes its statements) deletes the Position row of (symbol, side),
    appends one record to inconsistent_states with exchange_success 1 and
    db_success 0, and inserts no close Trade and no PositionCloseEvent. *)
Theorem C3_no_trade_removes_position_and_records (w : World)
  (exchangeOrders : list ExOrder) (exchangePositions : list ExPosition)
  (order : DBPriceOrder) (L : Ledger) :
  storeWorks w ->
  txn L = None ->
  getPositions (exchange w) = Some exchangePositions ->
  orderMapHas exchangeOrders (order_id order) = false ->
  positionMapHas exchangePositions
    (normalizeContract (exchange w) (symbol order)) = false ->
  findCloseTrade (exchange w) order = None ->
  priceCheckPasses (exchange w) order = true ->
  let L' := fst (processOrder w exchangeOrders exchangePositions order L) in
  positions (tables L')
  = List.filter (fun q => negb (positionIs (symbol order) (side order) q))
      (positions (tables L)) /\
  find (positionIs (symbol order) (side order)) (positions (tables L'))
  = None /\
  inconsistent_states (tables L')
  = inconsistent_states (tables L) ++ [noTradeRow w order] /\
  is_operation (noTradeRow w order) = "price_order_triggered_no_trade" /\
  is_exchange_success (noTradeRow w order) = 1 /\
  is_db_success (noTradeRow w order) = 0 /\
  trades (tables L') = trades (tables L) /\
  position_close_events (tables L') = position_close_events (tables L) /\
  exists d, journal L' = journal L ++ d /\
            insertedTrades d = [] /\ insertedCloseEvents d = [].
Proof.
  intros Hw Htxn Hget Hin Hpos Ht Hc. cbv zeta.
  rewrite (processOrder_run w Hw _ _ _ _ Htxn).
  unfold processRun. rewrite Hin, Hpos.
  unfold handleRun. rewrite Hc, Ht, Hget. simpl.
  rewrite positionExists_mapHas, Hpos.
  assert (Hpositions :
            positions (tables (recordNoTradeRun w order L))
            = List.filter
                (fun q => negb (positionIs (symbol order) (side order) q))
                (positions (tables L))).
  { unfold recordNoTradeRun. simpl.
    destruct (cancelOppositeRun_tables w order
                (run (SUpdateStatus (order_id order) triggered (clock w))
                   (beginTx L))) as (Hp & _).
    rewrite Hp. reflexivity. }
  split; [exact Hpositions|].
  split; [rewrite Hpositions; apply filter_find_none|].
  destruct (cancelOppositeRun_tables w order
              (run (SUpdateStatus (order_id order) triggered (clock w))
                 (beginTx L))) as (_ & Htr & Hev & Hinc).
  unfold recordNoTradeRun at 1 2 3. simpl. rewrite Hinc, Htr, Hev. simpl.
  repeat (split; [reflexivity|]).
  eexists. split; [apply recordNoTradeRun_journal|].
  destruct (oppositeOf order _); split; reflexivity.
Qed.

(** ** Close completeness *)

(** C4, as stated, fails: when the order and the position are gone and no
    trade is found, the Position row is deleted and no close Trade and no
    PositionCloseEvent is written. *)
Lemma C4_counterexample :
  ~ C4_as_stated worldNoTrade stopLossLong49000 sampleLedger.
Proof.
  intros H.
  assert (Hw : storeWorks worldNoTrade) by (intros st L; reflexivity).
  specialize (H Hw eq_refl
                (journal (fst (handleTriggeredOrder worldNoTrade
                                 stopLossLong49000 sampleLedger)))
                eq_refl).
  assert (Hdel : In (SDeletePosition (symbol stopLossLong49000)
                       (side stopLossLong49000))
                   (journal (fst (handleTriggeredOrder worldNoTrade
                                    stopLossLong49000 sampleLedger)))).
  { vm_compute. right. right. right. left. reflexivity. }
  destruct (H Hdel) as [[tr [Htr _]] _].
  vm_compute in Htr. discriminate.
Qed.

Lemma markCancelledRun_journal w order L :
  journal (markCancelledRun w order L)
  = journal L ++
    [SBegin; SUpdateStatus (order_id order) cancelled (clock w); SCommit].
Proof.
  unfold markCancelledRun. simpl. repeat rewrite <- app_assoc. reflexivity.
Qed.

(** C4, amended: on a store that executes its statements, a run of
    [handleTriggeredOrder] that deletes the Position row (and does not
    roll the delete back) is one of two paths.  With a close trade found,
    it inserts exactly one Trade row of type close and exactly one
    PositionCloseEvent row; the event carries the id of the triggering
    order and the order id of the trade row.  With no close trade found,
    it inserts neither and appends one record to inconsistent_states. *)
Theorem C4_position_delete_paths (w : World) (order : DBPriceOrder)
  (L : Ledger) (d : list Stmt) :
  storeWorks w ->
  txn L = None ->
  journal (fst (handleTriggeredOrder w order L)) = journal L ++ d ->
  In (SDeletePosition (symbol order) (side order)) d ->
  ~ In SRollback d ->
  match findCloseTrade (exchange w) order with
  | Some closeTrade =>
      exists p,
        lookupPosition w order L = (L, Some (Some p)) /\
        let trade := formatTradeRecord (clock w) closeTrade in
        let tr := closeTradeRow w order trade p in
        let ev := closeEventRow w order trade p in
        insertedTrades d = [tr] /\
        insertedCloseEvents d = [ev] /\
        insertedInconsistent d = [] /\
        tr_type tr = close_trade /\
        ce_trigger_order_id ev = order_id order /\
        ce_order_id ev = tr_order_id tr /\
        ce_close_trade_id ev = xt_id closeTrade
  | None =>
      insertedTrades d = [] /\
      insertedCloseEvents d = [] /\
      insertedInconsistent d = [noTradeRow w order]
  end.
Proof.
  intros Hw Htxn E Hdel Hkept.
  rewrite (handleTriggeredOrder_run w Hw order L Htxn) in E.
  unfold handleRun in E.
  assert (Hnil : forall d0, journal L = journal L ++ d0 -> d0 = []).
  { intros d0 H0. rewrite <- (app_nil_r (journal L)) in H0 at 1.
    apply app_inv_head in H0. auto. }
  destruct (priceCheckPasses (exchange w) order); simpl in E;
    [|apply Hnil in E; subst d; contradiction].
  destruct (findCloseTrade (exchange w) order) as [closeTrade|].
  - destruct (positionOf order (tables L)) as [p|] eqn:Hp.
    + exists p. split.
      { rewrite (lookupPosition_run w Hw), Hp. reflexivity. }
      destruct (Qeq_bool (pos_entry_price p) 0).
      { rewrite refusedRun_journal in E. apply app_inv_head in E. subst d.
        exfalso. apply Hkept.
        destruct (oppositeOf order _); simpl; tauto. }
      rewrite commitRun_journal in E. apply app_inv_head in E. subst d.
      cbv zeta. destruct (oppositeOf order _); simpl; repeat split.
    + rewrite statusOnlyRun_journal in E. apply app_inv_head in E. subst d.
      exfalso. destruct (oppositeOf order _); simpl in Hdel;
        repeat (destruct Hdel as [Hdel|Hdel]; try discriminate);
        contradiction.
  - destruct (getPositions (exchange w)) as [ps|];
      [|apply Hnil in E; subst d; contradiction].
    destruct (positionExists ps _).
    + rewrite markCancelledRun_journal in E. apply app_inv_head in E. subst d.
      exfalso. simpl in Hdel.
      repeat (destruct Hdel as [Hdel|Hdel]; try discriminate); contradiction.
    + rewrite recordNoTradeRun_journal in E. apply app_inv_head in E. subst d.
      destruct (oppositeOf order _); simpl; repeat split.
Qed.

(** The branch "order missing, position present, no close trade" of
    the loop body issues no statement, whatever the store does. *)
Lemma processOrder_position_open_no_trade w exchangeOrders exchangePositions
  dbOrder L :
  orderMapHas exchangeOrders (order_id dbOrder) = false ->
  positionMapHas exchangePositions
    (normalizeContract (exchange w) (symbol dbOrder)) = true ->
  repairTarget (exchange w) exchangeOrders dbOrder = None ->
  findCloseTrade (exchange w) dbOrder = None ->
  processOrder w exchangeOrders exchangePositions dbOrder L = (L, Some tt).
Proof.
  intros Hin Hpos Hrep Ht. unfold processOrder. rewrite Hin, Hpos. simpl.
  assert (Hr : repairOrderId w exchangeOrders dbOrder L
               = (L, Some (dbOrder, false))).
  { revert Hrep. unfold repairOrderId, repairTarget.
    destruct (findMatchingOrder _ _ _) as [m|]; [|reflexivity].
    destruct (negb (String.eqb (ex_id m) "") && _);
      [discriminate|reflexivity]. }
  rewrite (bind_ok _ _ _ _ _ Hr). simpl. rewrite Ht. reflexivity.
Qed.

(** C5 at scenario B: both protective orders are absent from the exchange
    order list, the exchange reports a position of size 1 for the
    contract, the trade search finds nothing; the cycle leaves the ledger
    as it was, so both orders keep the status active. *)
Lemma C5_scenario_B_order_left_active :
  orderMapHas [] (order_id takeProfitLong55000) = false /\
  positionMapHas [{| xp_contract := "BTC"; xp_size := 1 |}] "BTC" = true /\
  findCloseTrade (exchange worldPositionOpen) takeProfitLong55000 = None /\
  checkTriggeredOrders worldPositionOpen false sampleLedger = sampleLedger /\
  map po_status
    (price_orders
       (tables (checkTriggeredOrders worldPositionOpen false sampleLedger)))
  = [active; active].
Proof. repeat split; vm_compute; reflexivity. Qed.

(** ** Idempotent reconciliation *)

Lemma insertRow_In r l x : In x (insertRow r l) <-> x = r \/ In x l.
Proof.
  induction l as [|y l IH]; simpl.
  - split; intros [H|H]; auto.
  - destruct (sortsBefore y r); simpl.
    + rewrite IH. split; intros H; intuition.
    + split; intros H; intuition.
Qed.

Lemma orderBy_In l x : In x (orderBy l) <-> In x l.
Proof.
  unfold orderBy. induction l as [|y l IH]; simpl; [reflexivity|].
  rewrite insertRow_In, IH. split; intros [H|H]; auto.
Qed.

Lemma selectActiveOrders_In T o :
  In o (selectActiveOrders T) <->
  exists r, In r (price_orders T) /\ is_active (po_status r) = true /\
            po_order r = o.
Proof.
  unfold selectActiveOrders. rewrite in_map_iff. split.
  - intros (r & Ho & Hin). apply orderBy_In, filter_In in Hin.
    exists r. tauto.
  - intros (r & Hin & Hact & Ho). exists r. split; [exact Ho|].
    apply orderBy_In, filter_In. auto.
Qed.

Lemma handleIdle_run w order L :
  handleIdle (exchange w) order = true -> handleRun w order L = L.
Proof.
  unfold handleIdle, handleRun.
  destruct (priceCheckPasses (exchange w) order); simpl; [|reflexivity].
  destruct (findCloseTrade (exchange w) order); [discriminate|].
  destruct (getPositions (exchange w)); [discriminate|reflexivity].
Qed.

(** An idle order is left alone. *)
Lemma idle_run w exchangeOrders exchangePositions dbOrder L :
  idle (exchange w) exchangeOrders exchangePositions dbOrder = true ->
  processRun w exchangeOrders exchangePositions dbOrder L = L.
Proof.
  unfold idle, processRun.
  destruct (orderMapHas _ _); [reflexivity|].
  destruct (positionMapHas _ _); [|apply handleIdle_run].
  destruct (repairTarget _ _ _); [discriminate|].
  destruct (findCloseTrade _ _); [apply handleIdle_run|reflexivity].
Qed.

Lemma statusRow_settled orderId status now :
  status <> active -> settled orderId (statusRow orderId status now).
Proof.
  intros Hs r. unfold statusRow.
  destruct (String.eqb_spec (order_id (po_order r)) orderId).
  - right. simpl. destruct status; [contradiction|reflexivity|reflexivity].
  - left. auto.
Qed.

Lemma statusRow_calm orderId status now r :
  status <> active ->
  statusRow orderId status now r = r \/
  is_active (po_status (statusRow orderId status now r)) = false.
Proof.
  intros Hs. destruct (statusRow_settled orderId status now Hs r) as [[_ H]|H];
    auto.
Qed.

Lemma statusRow_keeps_inactive orderId status now r :
  status <> active ->
  is_active (po_status r) = false ->
  is_active (po_status (statusRow orderId status now r)) = false.
Proof.
  intros Hs Hr. destruct (statusRow_calm orderId status now r Hs) as [->|H];
    auto.
Qed.

(** Step 2 followed by step 3, on the rows of price_orders. *)
Lemma status_then_opposite_rows w order L1 rows status :
  status <> active ->
  price_orders (tables L1)
  = map (statusRow (order_id order) status (clock w)) rows ->
  exists h,
    price_orders (tables (cancelOppositeRun w order L1)) = map h rows /\
    settled (order_id order) h.
Proof.
  intros Hs Hrows. unfold cancelOppositeRun.
  destruct (oppositeOf order L1) as [opp|].
  - exists (fun r => statusRow opp cancelled (clock w)
                       (statusRow (order_id order) status (clock w) r)).
    split; [simpl; rewrite Hrows, map_map; reflexivity|].
    intros r.
    destruct (statusRow_settled (order_id order) status (clock w) Hs r)
      as [[Hne Heq]|Hin].
    + rewrite Heq.
      destruct (statusRow_calm opp cancelled (clock w) r) as [->|H];
        [discriminate|auto|auto].
    + right. apply statusRow_keeps_inactive; [discriminate|exact Hin].
  - exists (statusRow (order_id order) status (clock w)).
    split; [exact Hrows|]. apply statusRow_settled. exact Hs.
Qed.

Lemma fold_left_pick_In {A : Type} (f : A -> A -> A) :
  (forall a b, f a b = a \/ f a b = b) ->
  forall rest x, In (fold_left f rest x) (x :: rest).
Proof.
  intros Hf rest. induction rest as [|y rest IH]; intros x; simpl; [auto|].
  destruct (IH (f x y)) as [H|H]; [|auto].
  rewrite <- H. destruct (Hf x y) as [->| ->]; auto.
Qed.

(** The entry price that phase 1 finds is one of the ledger. *)
Lemma positionOf_usable order T p :
  entryPricesUsable T ->
  positionOf order T = Some p ->
  Qeq_bool (pos_entry_price p) 0 = false.
Proof.
  intros [Hpos Htr]. unfold positionOf.
  destruct (find _ (positions T)) as [q|] eqn:E.
  - intros [= <-]. apply find_some in E. apply Hpos. apply E.
  - destruct (List.filter _ (trades T)) as [|t rest] eqn:F; [discriminate|].
    simpl. intros [= <-]. simpl.
    assert (Hin : In (fold_left pickNewest rest t) (t :: rest)).
    { apply fold_left_pick_In. intros a b. unfold pickNewest.
      destruct (_ >? _); auto. }
    rewrite <- F in Hin. apply filter_In in Hin. destruct Hin as [Hin Ho].
    apply Htr; [exact Hin|].
    unfold isOpenTradeOf in Ho.
    destruct (tr_type (fold_left pickNewest rest t)); [reflexivity|].
    rewrite andb_false_r in Ho. discriminate.
Qed.

Lemma usable_shrink T T' :
  (forall p, In p (positions T') -> In p (positions T)) ->
  (forall t, In t (trades T') -> tr_type t = open_trade -> In t (trades T)) ->
  entryPricesUsable T -> entryPricesUsable T'.
Proof.
  intros Hp Ht [Hpos Htr]. split.
  - intros p Hin. apply Hpos, Hp, Hin.
  - intros t Hin Ho. apply Htr; [apply Ht|]; assumption.
Qed.

(** A run of [handleTriggeredOrder] brings in no new entry price. *)
Lemma handleRun_usable w order L :
  entryPricesUsable (tables L) ->
  entryPricesUsable (tables (handleRun w order L)).
Proof.
  intros Hu. unfold handleRun.
  destruct (priceCheckPasses (exchange w) order); simpl; [|exact Hu].
  destruct (findCloseTrade (exchange w) order) as [closeTrade|].
  - destruct (positionOf order (tables L)) as [p|].
    + destruct (cancelOppositeRun_tables w order (afterStep2 w order L))
        as (Hpos & Htr & _).
      destruct (Qeq_bool (pos_entry_price p) 0).
      * exact Hu.
      * apply (usable_shrink (tables L)); [| |exact Hu];
          unfold commitRun; simpl; rewrite ?Hpos, ?Htr; simpl.
        -- intros q Hq. apply filter_In in Hq. apply Hq.
        -- intros t Hin Ho. apply in_app_or in Hin.
           destruct Hin as [Hin|[<-|[]]]; [exact Hin|discriminate].
    + destruct (cancelOppositeRun_tables w order
                  (run (SUpdateStatus (order_id order) triggered (clock w))
                     L)) as (Hpos & Htr & _).
      apply (usable_shrink (tables L)); [| |exact Hu];
        unfold statusOnlyRun; rewrite ?Hpos, ?Htr; simpl; auto.
  - destruct (getPositions (exchange w)) as [ps|]; [|exact Hu].
    destruct (positionExists ps _).
    + exact Hu.
    + destruct (cancelOppositeRun_tables w order
                  (run (SUpdateStatus (order_id order) triggered (clock w))
                     (beginTx L))) as (Hpos & Htr & _).
      apply (usable_shrink (tables L)); [| |exact Hu];
        unfold recordNoTradeRun; simpl; rewrite ?Hpos, ?Htr; simpl; auto.
      intros q Hq. apply filter_In in Hq. apply Hq.
Qed.

Lemma processRun_usable w exchangeOrders exchangePositions dbOrder L :
  entryPricesUsable (tables L) ->
  entryPricesUsable
    (tables (processRun w exchangeOrders exchangePositions dbOrder L)).
Proof.
  intros Hu. unfold processRun.
  destruct (orderMapHas _ _); [exact Hu|].
  destruct (positionMapHas _ _); [|apply handleRun_usable; exact Hu].
  destruct (repairTarget _ _ _); [exact Hu|].
  destruct (findCloseTrade _ _); [apply handleRun_usable|]; exact Hu.
Qed.

(** A run of [handleTriggeredOrder] that writes settles its order, when
    the entry prices of the ledger are usable. *)
Lemma handleRun_rows w order L :
  entryPricesUsable (tables L) ->
  handleIdle (exchange w) order = false ->
  exists h,
    price_orders (tables (handleRun w order L))
    = map h (price_orders (tables L)) /\
    settled (order_id order) h.
Proof.
  intros Hu. unfold handleIdle, handleRun.
  destruct (priceCheckPasses (exchange w) order); simpl; [|discriminate].
  destruct (findCloseTrade (exchange w) order) as [closeTrade|].
  - intros _. destruct (positionOf order (tables L)) as [p|] eqn:Hp.
    + rewrite (positionOf_usable order (tables L) p Hu Hp).
      unfold commitRun. simpl.
      apply (status_then_opposite_rows w order (afterStep2 w order L)
               (price_orders (tables L)) triggered); [discriminate|].
      reflexivity.
    + unfold statusOnlyRun.
      apply (status_then_opposite_rows w order _
               (price_orders (tables L)) triggered); [discriminate|].
      reflexivity.
  - destruct (getPositions (exchange w)) as [ps|]; [|discriminate].
    intros _. destruct (positionExists ps _).
    + exists (statusRow (order_id order) cancelled (clock w)).
      split; [reflexivity|]. apply statusRow_settled. discriminate.
    + unfold recordNoTradeRun. simpl.
      apply (status_then_opposite_rows w order _
               (price_orders (tables L)) triggered); [discriminate|].
      reflexivity.
Qed.

Lemma repairTarget_listed ex exchangeOrders dbOrder newOrderId :
  repairTarget ex exchangeOrders dbOrder = Some newOrderId ->
  orderMapHas exchangeOrders newOrderId = true.
Proof.
  unfold repairTarget, findMatchingOrder.
  destruct (find _ _) as [m|] eqn:E; [|discriminate].
  destruct (negb (String.eqb (ex_id m) "")) eqn:Hne; simpl; [|discriminate].
  destruct (negb (String.eqb (ex_id m) (order_id dbOrder))); [|discriminate].
  intros [= <-]. apply find_some in E. destruct E as [Hin _].
  apply filter_In in Hin. destruct Hin as [Hin _].
  unfold orderMapHas. apply existsb_exists. exists m.
  split; [exact Hin|]. rewrite Hne, String.eqb_refl. reflexivity.
Qed.

Lemma orderMapHas_idle ex exchangeOrders exchangePositions dbOrder :
  orderMapHas exchangeOrders (order_id dbOrder) = true ->
  idle ex exchangeOrders exchangePositions dbOrder = true.
Proof. intros H. unfold idle. rewrite H. reflexivity. Qed.

(** An order that is not idle is settled by its turn in the loop. *)
Lemma busy_rows w exchangeOrders exchangePositions dbOrder L :
  entryPricesUsable (tables L) ->
  idle (exchange w) exchangeOrders exchangePositions dbOrder = false ->
  exists h,
    price_orders
      (tables (processRun w exchangeOrders exchangePositions dbOrder L))
    = map h (price_orders (tables L)) /\
    forall r, rowStep exchangeOrders (order_id dbOrder) r (h r).
Proof.
  assert (Hsettled : forall h, settled (order_id dbOrder) h ->
            forall r, rowStep exchangeOrders (order_id dbOrder) r (h r)).
  { intros h Hh r. destruct (Hh r) as [H|H]; [left|right; left]; auto. }
  intros Hu. unfold idle, processRun.
  destruct (orderMapHas exchangeOrders (order_id dbOrder)); [discriminate|].
  destruct (positionMapHas exchangePositions _).
  - destruct (repairTarget _ _ _) as [newOrderId|] eqn:Er.
    + intros _.
      exists (renameRow (order_id dbOrder) newOrderId (clock w)).
      split; [reflexivity|]. intros r. unfold renameRow.
      destruct (String.eqb_spec (order_id (po_order r)) (order_id dbOrder)).
      * right; right. simpl. eapply repairTarget_listed; eauto.
      * left. auto.
    + destruct (findCloseTrade (exchange w) dbOrder); [|discriminate].
      intros Hi. destruct (handleRun_rows w dbOrder L Hu Hi) as (h & E & Hh).
      exists h. auto.
  - intros Hi. destruct (handleRun_rows w dbOrder L Hu Hi) as (h & E & Hh).
    exists h. auto.
Qed.

(** One turn of the loop keeps [pending]. *)
Lemma processRun_pending w exchangeOrders exchangePositions dbOrder todo L :
  entryPricesUsable (tables L) ->
  pending (exchange w) exchangeOrders exchangePositions (dbOrder :: todo) L ->
  pending (exchange w) exchangeOrders exchangePositions todo
    (processRun w exchangeOrders exchangePositions dbOrder L).
Proof.
  intros Hu Hp.
  destruct (idle (exchange w) exchangeOrders exchangePositions dbOrder) eqn:Ei.
  - rewrite (idle_run w _ _ _ L Ei). intros r Hin Hact.
    destruct (Hp r Hin Hact) as [H|[H|H]]; auto.
    left. rewrite <- H. exact Ei.
  - destruct (busy_rows w exchangeOrders exchangePositions dbOrder L Hu Ei)
      as (h & E & Hstep).
    intros r' Hin Hact. rewrite E in Hin. apply in_map_iff in Hin.
    destruct Hin as (r & <- & Hin).
    destruct (Hstep r) as [[Hne Heq]|[Hoff|Hlisted]].
    + rewrite Heq in *. destruct (Hp r Hin Hact) as [H|[H|H]]; auto.
      exfalso. apply Hne. rewrite <- H. reflexivity.
    + congruence.
    + left. apply orderMapHas_idle. exact Hlisted.
Qed.

Lemma forEachOrder_pending w exchangeOrders exchangePositions :
  storeWorks w ->
  forall orders L,
    txn L = None ->
    entryPricesUsable (tables L) ->
    pending (exchange w) exchangeOrders exchangePositions orders L ->
    txn (forEachOrder w exchangeOrders exchangePositions orders L) = None /\
    pending (exchange w) exchangeOrders exchangePositions []
      (forEachOrder w exchangeOrders exchangePositions orders L).
Proof.
  intros Hw orders. induction orders as [|o orders IH]; intros L Htxn Hu Hp.
  - simpl. auto.
  - simpl. rewrite (processOrder_run w Hw _ _ _ _ Htxn).
    apply IH.
    + apply processRun_txn. exact Htxn.
    + apply processRun_usable. exact Hu.
    + apply processRun_pending; assumption.
Qed.

Lemma forEachOrder_idle w exchangeOrders exchangePositions :
  storeWorks w ->
  forall orders L,
    txn L = None ->
    (forall o, In o orders ->
       idle (exchange w) exchangeOrders exchangePositions o = true) ->
    forEachOrder w exchangeOrders exchangePositions orders L = L.
Proof.
  intros Hw orders. induction orders as [|o orders IH]; intros L Htxn Hi.
  - reflexivity.
  - simpl. rewrite (processOrder_run w Hw _ _ _ _ Htxn).
    rewrite (idle_run w _ _ _ L (Hi o (or_introl eq_refl))).
    apply IH; [exact Htxn|]. intros o' Ho'. apply Hi. right. exact Ho'.
Qed.

(** C9, as stated, fails: with an entry price of 0 in the Position row
    (and a store that executes every statement it can bind), the
    transaction of the stop-loss is rolled back in each cycle and each
    cycle appends one more record to inconsistent_states. *)
Lemma C9_counterexample : ~ C9_as_stated worldTriggered zeroEntryLedger.
Proof.
  unfold C9_as_stated. intros H. specialize (H eq_refl).
  apply (f_equal (fun L => length (inconsistent_states (tables L)))) in H.
  vm_compute in H. discriminate.
Qed.

(** C9, amended: on a store that executes its statements, with no
    transaction left open and with entry prices (of the Position rows and
    of the open Trade rows) other than 0, a full cycle followed by a
    second full cycle against the same exchange answers leaves the ledger
    of the first cycle as it is: same tables and same journal, so the
    second cycle writes nothing. *)
Theorem C9_second_cycle_writes_nothing (w : World) (L : Ledger) :
  storeWorks w ->
  txn L = None ->
  entryPricesUsable (tables L) ->
  let L1 := checkTriggeredOrders w false L in
  checkTriggeredOrders w false L1 = L1 /\
  journal (checkTriggeredOrders w false L1) = journal L1 /\
  tables (checkTriggeredOrders w false L1) = tables L1.
Proof.
  intros Hw Htxn Hu. cbv zeta.
  set (ep := match getPositions (exchange w) with
             | Some ps => ps | None => [] end).
  assert (Hquiet : forall L0,
            txn L0 = None ->
            (forall eo, getPriceOrders (exchange w) = Some eo ->
                        pending (exchange w) eo ep [] L0) ->
            checkTriggeredOrders w false L0 = L0).
  { intros L0 Htxn0 Hp0. unfold checkTriggeredOrders, getActiveOrdersFromDB.
    rewrite (query_run w Hw).
    destruct (selectActiveOrders (tables L0)) as [|o orders] eqn:Eo;
      [reflexivity|].
    destruct (getPriceOrders (exchange w)) as [eo|]; [|reflexivity].
    apply (forEachOrder_idle w eo _ Hw); [exact Htxn0|].
    intros o' Ho'. rewrite <- Eo in Ho'.
    apply selectActiveOrders_In in Ho'.
    destruct Ho' as (r & Hin & Hact & <-).
    destruct (Hp0 eo eq_refl r Hin Hact) as [H|[]]. exact H. }
  assert (Hfirst :
            txn (checkTriggeredOrders w false L) = None /\
            forall eo, getPriceOrders (exchange w) = Some eo ->
                       pending (exchange w) eo ep []
                         (checkTriggeredOrders w false L)).
  { unfold checkTriggeredOrders, getActiveOrdersFromDB.
    rewrite (query_run w Hw).
    destruct (selectActiveOrders (tables L)) as [|o orders] eqn:Eo.
    - split; [exact Htxn|]. intros eo _ r Hin Hact. exfalso.
      assert (Ho : In (po_order r) (selectActiveOrders (tables L)))
        by (apply selectActiveOrders_In; exists r; auto).
      rewrite Eo in Ho. exact Ho.
    - destruct (getPriceOrders (exchange w)) as [eo|].
      + destruct (forEachOrder_pending w eo ep Hw (o :: orders) L Htxn Hu)
          as [Htxn1 Hp1].
        { intros r Hin Hact. right. rewrite <- Eo.
          apply selectActiveOrders_In. exists r. auto. }
        split; [exact Htxn1|]. intros eo' [= <-]. exact Hp1.
      + split; [exact Htxn|]. intros eo' [=]. }
  destruct Hfirst as [Htxn1 Hp1].
  rewrite (Hquiet _ Htxn1 Hp1). auto.
Qed.

(** ** The properties on the sample scenarios *)

(** Scenario A on a store that refuses the insert of the close trade. *)
Lemma C2_witness :
  tables (fst (handleTriggeredOrder worldTradeInsertFails stopLossLong49000
                 sampleLedger))
  = {| positions := [btcLong];
       price_orders :=
         [activeRow stopLossLong49000; activeRow takeProfitLong55000];
       trades := [];
       position_close_events := [];
       inconsistent_states :=
         [inconsistentRow worldTradeInsertFails "price_order_triggered"
            stopLossLong49000 StoreError] |}.
Proof.
  destruct (C2_failed_commit_rolls_back_and_records worldTradeInsertFails
              stopLossLong49000 sampleLedger (fillAt 48950) btcLong)
    as (Hp & Ho & Ht & He & Hi & _).
  - reflexivity.
  - reflexivity.
  - intros L0. reflexivity.
  - intros r L0. reflexivity.
  - vm_compute. reflexivity.
  - vm_compute. reflexivity.
  - vm_compute. reflexivity.
  - vm_compute. reflexivity.
  - destruct (tables (fst (handleTriggeredOrder worldTradeInsertFails
                             stopLossLong49000 sampleLedger))).
    simpl in Hp, Ho, Ht, He, Hi. rewrite Hp, Ho, Ht, He, Hi. reflexivity.
Defined.

(** Scenario C: order and position gone, no trade. *)
Lemma C3_witness :
  positions
    (tables (fst (processOrder worldNoTrade [] [] stopLossLong49000
                    sampleLedger))) = [] /\
  inconsistent_states
    (tables (fst (processOrder worldNoTrade [] [] stopLossLong49000
                    sampleLedger)))
  = [noTradeRow worldNoTrade stopLossLong49000].
Proof.
  destruct (C3_no_trade_removes_position_and_records worldNoTrade [] []
              stopLossLong49000 sampleLedger)
    as (Hp & _ & Hi & _).
  - intros st L. reflexivity.
  - reflexivity.
  - reflexivity.
  - reflexivity.
  - reflexivity.
  - vm_compute. reflexivity.
  - vm_compute. reflexivity.
  - split; [exact Hp|exact Hi].
Defined.

(** Scenario A: one close Trade and one PositionCloseEvent. *)
Lemma C4_witness :
  insertedTrades scenarioAJournal
  = [closeTradeRow worldTriggered stopLossLong49000 (fillAt 48950) btcLong] /\
  insertedCloseEvents scenarioAJournal
  = [closeEventRow worldTriggered stopLossLong49000 (fillAt 48950) btcLong].
Proof.
  pose proof (C4_position_delete_paths worldTriggered stopLossLong49000
                sampleLedger scenarioAJournal) as H.
  assert (Hw : storeWorks worldTriggered) by (intros st L; reflexivity).
  assert (Hj : journal (fst (handleTriggeredOrder worldTriggered
                               stopLossLong49000 sampleLedger))
               = journal sampleLedger ++ scenarioAJournal)
    by (vm_compute; reflexivity).
  assert (Hd : In (SDeletePosition (symbol stopLossLong49000)
                     (side stopLossLong49000)) scenarioAJournal)
    by (right; left; reflexivity).
  assert (Hk : ~ In SRollback scenarioAJournal).
  { intros Hr. simpl in Hr.
    repeat (destruct Hr as [Hr|Hr]; [discriminate Hr|]). exact Hr. }
  specialize (H Hw eq_refl Hj Hd Hk).
  destruct H as (p & Hl & Htr & Hev & _).
  assert (Hp : btcLong = p)
    by (vm_compute in Hl; injection Hl as Hl; rewrite <- Hl; reflexivity).
  subst p. split; [exact Htr|exact Hev].
Defined.

(** Scenario A, run twice. *)
Lemma C9_witness :
  checkTriggeredOrders worldTriggered false
    (checkTriggeredOrders worldTriggered false sampleLedger)
  = checkTriggeredOrders worldTriggered false sampleLedger.
Proof.
  destruct (C9_second_cycle_writes_nothing worldTriggered sampleLedger)
    as [H _].
  - intros st L. reflexivity.
  - reflexivity.
  - split.
    + intros p [<-|[]]. reflexivity.
    + intros t [].
  - exact H.
Defined.

(** Scenario C goes straight to [handleTriggeredOrder]. *)
Lemma C10_witness :
  processOrder worldNoTrade [] [] stopLossLong49000 sampleLedger
  = handleTriggeredOrder worldNoTrade stopLossLong49000 sampleLedger.
Proof.
  destruct (C10_repair_only_with_exchange_position worldNoTrade [] []
              stopLossLong49000 sampleLedger) as [_ H].
  destruct H as [H _].
  - reflexivity.
  - reflexivity.
  - exact H.
Defined.

(** ** What a cycle keeps, whatever the store does *)

Lemma extends_refl {A : Type} (l : list A) : extends l l.
Proof. exists []. rewrite app_nil_r. reflexivity. Qed.

Lemma extends_trans {A : Type} (l1 l2 l3 : list A) :
  extends l1 l2 -> extends l2 l3 -> extends l1 l3.
Proof.
  intros [m1 ->] [m2 ->]. exists (m1 ++ m2). rewrite app_assoc. reflexivity.
Qed.

Lemma rowAdvance_refl r : rowAdvance r r.
Proof. unfold rowAdvance, sameOrderData. tauto. Qed.

Lemma rowAdvance_trans r1 r2 r3 :
  rowAdvance r1 r2 -> rowAdvance r2 r3 -> rowAdvance r1 r3.
Proof.
  unfold rowAdvance, sameOrderData.
  intros [(A1 & A2 & A3 & A4 & A5 & A6 & A7) Ha]
         [(B1 & B2 & B3 & B4 & B5 & B6 & B7) Hb].
  repeat split; try congruence. auto.
Qed.

Lemma Forall2_rowAdvance_refl rows : Forall2 rowAdvance rows rows.
Proof. induction rows; constructor; auto using rowAdvance_refl. Qed.

Lemma Forall2_rowAdvance_trans rows1 : forall rows2 rows3,
  Forall2 rowAdvance rows1 rows2 -> Forall2 rowAdvance rows2 rows3 ->
  Forall2 rowAdvance rows1 rows3.
Proof.
  induction rows1 as [|r rows1 IH]; intros rows2 rows3 H12 H23.
  - inversion H12; subst. inversion H23; subst. constructor.
  - inversion H12; subst. inversion H23; subst. constructor.
    + eapply rowAdvance_trans; eauto.
    + eapply IH; eauto.
Qed.

Lemma Forall2_rowAdvance_map (h : PriceOrderRow -> PriceOrderRow) rows :
  (forall r, rowAdvance r (h r)) -> Forall2 rowAdvance rows (map h rows).
Proof. intros Hh. induction rows; simpl; constructor; auto. Qed.

Lemma advance_refl T : advance T T.
Proof.
  unfold advance.
  repeat split; auto using Forall2_rowAdvance_refl, extends_refl.
Qed.

Lemma advance_trans T1 T2 T3 : advance T1 T2 -> advance T2 T3 -> advance T1 T3.
Proof.
  intros (A1 & A2 & A3 & A4 & A5) (B1 & B2 & B3 & B4 & B5).
  unfold advance. repeat split.
  - eapply Forall2_rowAdvance_trans; eauto.
  - auto.
  - eapply extends_trans; eauto.
  - eapply extends_trans; eauto.
  - eapply extends_trans; eauto.
Qed.

Lemma renameRow_advance old new now r : rowAdvance r (renameRow old new now r).
Proof.
  unfold renameRow. destruct (String.eqb _ old); [|apply rowAdvance_refl].
  unfold rowAdvance, sameOrderData. simpl. tauto.
Qed.

Lemma statusRow_advance orderId status now r :
  status <> active -> rowAdvance r (statusRow orderId status now r).
Proof.
  intros Hs. unfold statusRow.
  destruct (String.eqb _ orderId); [|apply rowAdvance_refl].
  unfold rowAdvance, sameOrderData. simpl.
  repeat split; auto. intros _. destruct status; auto. contradiction.
Qed.

Lemma applyWrite_advance st T : safeStmt st -> advance T (applyWrite st T).
Proof.
  intros Hs. unfold advance.
  destruct st; simpl;
    repeat split;
    auto using Forall2_rowAdvance_refl, extends_refl;
    try (eexists; reflexivity).
  - apply Forall2_rowAdvance_map. intros r. apply renameRow_advance.
  - apply Forall2_rowAdvance_map. intros r. apply statusRow_advance. exact Hs.
  - intros p Hp. apply filter_In in Hp. tauto.
Qed.

Lemma keeps_ret {A : Type} (I : Ledger -> Prop) (a : A) : keeps I (ret a).
Proof. intros L H. exact H. Qed.

Lemma keeps_throw {A : Type} (I : Ledger -> Prop) : keeps I (@throw A).
Proof. intros L H. exact H. Qed.

Lemma keeps_query {A : Type} (I : Ledger -> Prop) w st (f : Tables -> A) :
  keeps I (query w st f).
Proof. intros L H. rewrite query_state. exact H. Qed.

Lemma keeps_bind {A B : Type} (I : Ledger -> Prop) (m : M A) (k : A -> M B) :
  keeps I m -> (forall a, keeps I (k a)) -> keeps I (bind m k).
Proof.
  intros Hm Hk L H. unfold bind. specialize (Hm L H).
  destruct (m L) as [L1 [a|]]; simpl in *; [apply Hk|]; exact Hm.
Qed.

Lemma keeps_try {A : Type} (I : Ledger -> Prop) (body handler : M A) :
  keeps I body -> keeps I handler -> keeps I (try_catch body handler).
Proof.
  intros Hb Hh L H. unfold try_catch. specialize (Hb L H).
  destruct (body L) as [L1 [a|]]; simpl in *; [|apply Hh]; exact Hb.
Qed.

Lemma keeps_execute T0 w st :
  safeStmt st -> keeps (derivesFrom T0) (execute w st).
Proof.
  intros Hs L [Ht Hx]. unfold execute.
  destruct (fault w st L); [split; assumption|].
  destruct (bindable st); [|split; assumption]. cbn [negb].
  assert (Hplain : derivesFrom T0
            {| tables := applyWrite st (tables L); txn := txn L;
               journal := journal L ++ [st] |}).
  { split; simpl; [|exact Hx].
    eapply advance_trans; [exact Ht|]. apply applyWrite_advance. exact Hs. }
  destruct st; try exact Hplain;
    destruct (txn L) as [Ts|] eqn:E; simpl;
    try (split; [exact Ht|rewrite E; exact Hx]);
    split; simpl; auto; try discriminate.
  intros Ts [= <-]. exact Ht.
Qed.

Lemma keeps_lookupPosition (I : Ledger -> Prop) w order :
  keeps I (lookupPosition w order).
Proof.
  intros L H. destruct (lookupPosition_state w order L) as [r Hr].
  rewrite Hr. exact H.
Qed.

Lemma keeps_cancelOpposite T0 w order :
  keeps (derivesFrom T0) (cancelOppositeOrderInDB w order).
Proof.
  unfold cancelOppositeOrderInDB.
  apply keeps_bind; [apply keeps_query|].
  intros [oppositeOrderId|]; [|apply keeps_ret].
  apply keeps_execute. simpl. discriminate.
Qed.

Lemma keeps_handleTriggeredOrder T0 w order :
  keeps (derivesFrom T0) (handleTriggeredOrder w order).
Proof.
  unfold handleTriggeredOrder.
  destruct (priceCheckPasses (exchange w) order); simpl; [|apply keeps_ret].
  apply keeps_bind; [apply keeps_lookupPosition|]. intros position.
  destruct (findCloseTrade (exchange w) order) as [closeTrade|].
  - destruct position as [p|].
    + unfold commitTriggered, commitSteps.
      apply keeps_bind; [apply keeps_execute; exact I|]. intros _.
      apply keeps_try.
      * repeat (apply keeps_bind; [|intros _]);
          try apply keeps_cancelOpposite;
          apply keeps_execute; simpl; auto; discriminate.
      * apply keeps_bind; [apply keeps_execute; exact I|]. intros _.
        apply keeps_try; [|apply keeps_ret].
        apply keeps_execute. exact I.
    + apply keeps_bind; [|intros _; apply keeps_cancelOpposite].
      apply keeps_execute. simpl. discriminate.
  - destruct (getPositions (exchange w)) as [ps|]; [|apply keeps_throw].
    destruct (positionExists ps _).
    + unfold markCancelled.
      apply keeps_bind; [apply keeps_execute; exact I|]. intros _.
      apply keeps_try; [|apply keeps_execute; exact I].
      apply keeps_bind; [|intros _; apply keeps_execute; exact I].
      apply keeps_execute. simpl. discriminate.
    + unfold recordNoTrade.
      apply keeps_bind; [apply keeps_execute; exact I|]. intros _.
      apply keeps_try; [|apply keeps_execute; exact I].
      repeat (apply keeps_bind; [|intros _]);
        try apply keeps_cancelOpposite;
        apply keeps_execute; simpl; auto; discriminate.
Qed.

Lemma keeps_repairOrderId T0 w exchangeOrders dbOrder :
  keeps (derivesFrom T0) (repairOrderId w exchangeOrders dbOrder).
Proof.
  unfold repairOrderId.
  destruct (findMatchingOrder _ _ _) as [m|]; [|apply keeps_ret].
  destruct (negb _ && _); [|apply keeps_ret].
  apply keeps_try; [|apply keeps_ret].
  apply keeps_bind; [apply keeps_execute; exact I|].
  intros _. apply keeps_ret.
Qed.

Lemma keeps_processOrder T0 w exchangeOrders exchangePositions dbOrder :
  keeps (derivesFrom T0)
    (processOrder w exchangeOrders exchangePositions dbOrder).
Proof.
  unfold processOrder.
  apply keeps_bind.
  - destruct (negb _ && _); [apply keeps_repairOrderId|apply keeps_ret].
  - intros r. destruct (negb (snd r)); [|apply keeps_ret].
    destruct (negb _); [apply keeps_handleTriggeredOrder|].
    destruct (findCloseTrade _ _);
      [apply keeps_handleTriggeredOrder|apply keeps_ret].
Qed.

Lemma forEachOrder_derives T0 w exchangeOrders exchangePositions orders :
  forall L, derivesFrom T0 L ->
    derivesFrom T0
      (forEachOrder w exchangeOrders exchangePositions orders L).
Proof.
  induction orders as [|o orders IH]; intros L H; simpl; [exact H|].
  apply IH. apply keeps_processOrder. exact H.
Qed.

(** One cycle, from a ledger with no open transaction. *)
Lemma checkTriggeredOrders_advance w isRunning L :
  txn L = None ->
  advance (tables L) (tables (checkTriggeredOrders w isRunning L)).
Proof.
  intros Htxn.
  assert (H0 : derivesFrom (tables L) L).
  { split; [apply advance_refl|]. rewrite Htxn. discriminate. }
  unfold checkTriggeredOrders.
  destruct isRunning; [apply advance_refl|].
  unfold getActiveOrdersFromDB, query.
  destruct (fault w SSelectActiveOrders L); [apply advance_refl|].
  destruct (selectActiveOrders (tables L)) as [|o orders];
    [apply advance_refl|].
  destruct (getPriceOrders (exchange w)) as [eo|]; [|apply advance_refl].
  apply forEachOrder_derives. exact H0.
Qed.

(** X1: whatever the store and the exchange do, a cycle that starts with
    no open transaction keeps the rows of price_orders in place: as many
    rows as before, each with its id, symbol, side, type, trigger price,
    quantity and creation time, and a row that was not active is not active
    afterwards. *)
Theorem X1_cycle_never_reactivates_an_order (w : World) (isRunning : bool)
  (L : Ledger) :
  txn L = None ->
  let rows := price_orders (tables L) in
  let rows' := price_orders (tables (checkTriggeredOrders w isRunning L)) in
  length rows' = length rows /\
  forall (i : nat) (r r' : PriceOrderRow),
    nth_error rows i = Some r -> nth_error rows' i = Some r' ->
    sameOrderData r r' /\
    (po_status r <> active -> po_status r' <> active).
Proof.
  intros Htxn. cbv zeta.
  destruct (checkTriggeredOrders_advance w isRunning L Htxn) as [H _].
  revert H.
  generalize (price_orders (tables (checkTriggeredOrders w isRunning L))).
  generalize (price_orders (tables L)).
  intros rows rows' H. induction H as [|r r' rows rows' Hr _ IH].
  - split; [reflexivity|]. intros [|i] a b; discriminate.
  - destruct IH as [Hlen Hnth]. split; [simpl; congruence|].
    intros [|i] a b; simpl.
    + intros [= <-] [= <-]. destruct Hr as [Hd Hs]. split; [exact Hd|].
      intros Hna Ha. destruct (po_status r); try contradiction;
        specialize (Hs eq_refl); rewrite Ha in Hs; discriminate.
    + apply Hnth.
Qed.

(** X2: whatever the store and the exchange do, a cycle that starts with
    no open transaction only appends to trades, position_close_events and
    inconsistent_states: the rows that were there stay, in place. *)
Theorem X2_cycle_only_appends_to_the_audit_tables (w : World)
  (isRunning : bool) (L : Ledger) :
  txn L = None ->
  let T' := tables (checkTriggeredOrders w isRunning L) in
  (exists more, trades T' = trades (tables L) ++ more) /\
  (exists more,
     position_close_events T' = position_close_events (tables L) ++ more) /\
  (exists more,
     inconsistent_states T' = inconsistent_states (tables L) ++ more).
Proof.
  intros Htxn.
  destruct (checkTriggeredOrders_advance w isRunning L Htxn)
    as (_ & _ & H1 & H2 & H3).
  auto.
Qed.

(** X3: whatever the store and the exchange do, a cycle that starts with
    no open transaction creates no Position row: every row of positions
    after the cycle was there before. *)
Theorem X3_cycle_creates_no_position (w : World) (isRunning : bool)
  (L : Ledger) (p : PositionRow) :
  txn L = None ->
  In p (positions (tables (checkTriggeredOrders w isRunning L))) ->
  In p (positions (tables L)).
Proof.
  intros Htxn.
  destruct (checkTriggeredOrders_advance w isRunning L Htxn) as (_ & H & _).
  apply H.
Qed.

(** ** Transactions are closed *)

Lemma txnStable_ret {A : Type} (a : A) : txnStable (ret a).
Proof. intros L. reflexivity. Qed.

Lemma txnStable_query {A : Type} w st (f : Tables -> A) :
  txnStable (query w st f).
Proof. intros L. rewrite query_state. reflexivity. Qed.

Lemma txnStable_execute w st : plainWrite st = true -> txnStable (execute w st).
Proof. intros H L. apply execute_plain_txn. exact H. Qed.

Lemma txnStable_bind {A B : Type} (m : M A) (k : A -> M B) :
  txnStable m -> (forall a, txnStable (k a)) -> txnStable (bind m k).
Proof.
  intros Hm Hk L. unfold bind. specialize (Hm L).
  destruct (m L) as [L1 [a|]]; simpl in *; [rewrite Hk|]; exact Hm.
Qed.

Lemma txnStable_try {A : Type} (body handler : M A) :
  txnStable body -> txnStable handler -> txnStable (try_catch body handler).
Proof.
  intros Hb Hh L. unfold try_catch. specialize (Hb L).
  destruct (body L) as [L1 [a|]]; simpl in *; [|rewrite Hh]; exact Hb.
Qed.

Lemma txnStable_cancelOpposite w order :
  txnStable (cancelOppositeOrderInDB w order).
Proof. intros L. apply cancelOpposite_txn. Qed.

Lemma txnStable_lookupPosition w order : txnStable (lookupPosition w order).
Proof.
  intros L. destruct (lookupPosition_state w order L) as [r Hr].
  rewrite Hr. reflexivity.
Qed.

Lemma txnStable_repairOrderId w exchangeOrders dbOrder :
  txnStable (repairOrderId w exchangeOrders dbOrder).
Proof.
  unfold repairOrderId.
  destruct (findMatchingOrder _ _ _) as [m|]; [|apply txnStable_ret].
  destruct (negb _ && _); [|apply txnStable_ret].
  apply txnStable_try; [|apply txnStable_ret].
  apply txnStable_bind; [apply txnStable_execute; reflexivity|].
  intros _. apply txnStable_ret.
Qed.

Lemma txnStable_leavesClosed {A : Type} (m : M A) :
  txnStable m -> leavesClosed m.
Proof. intros H L Htxn. rewrite H. exact Htxn. Qed.

Lemma onThrow_of_stable {A : Type} (m : M A) :
  txnStable m -> txnStableOnThrow m.
Proof. intros H L _. apply H. Qed.

Lemma onThrow_bind {A B : Type} (m : M A) (k : A -> M B) :
  txnStable m -> (forall a, txnStableOnThrow (k a)) ->
  txnStableOnThrow (bind m k).
Proof. intros Hm Hk L. apply bind_fail_txn; assumption. Qed.

Lemma onThrow_commit w : txnStableOnThrow (execute w SCommit).
Proof. intros L. apply execute_commit_fail_txn. Qed.

Lemma closes_bind {A B : Type} (m : M A) (k : A -> M B) :
  (forall a, closesOnReturn (k a)) -> closesOnReturn (bind m k).
Proof.
  intros Hk L. unfold bind.
  destruct (m L) as [L1 [a|]]; simpl; [apply Hk|congruence].
Qed.

Lemma closes_commit w : closesOnReturn (execute w SCommit).
Proof.
  intros L. unfold execute. destruct (fault w SCommit L); simpl; [congruence|].
  destruct (txn L); simpl; congruence.
Qed.

(** [BEGIN; try { body } catch { handler }] leaves no transaction open
    when the handler closes the one it finds. *)
Lemma transaction_leavesClosed w (body handler : M unit) :
  txnStableOnThrow body ->
  closesOnReturn body ->
  (forall L, txn L <> None -> txn (fst (handler L)) = None) ->
  leavesClosed (bind (execute w SBegin) (fun _ => try_catch body handler)).
Proof.
  intros Hthrow Hret Hh L Htxn. unfold bind, execute.
  destruct (fault w SBegin L); [exact Htxn|]. cbn [bindable negb].
  rewrite Htxn. unfold try_catch.
  specialize (Hthrow (beginTx L)). specialize (Hret (beginTx L)).
  fold (beginTx L).
  destruct (body (beginTx L)) as [L1 [a|]]; simpl in *.
  - apply Hret. discriminate.
  - apply Hh. rewrite Hthrow by reflexivity. discriminate.
Qed.

Lemma rollback_closes w :
  (forall L0, fault w SRollback L0 = false) ->
  forall L, txn L <> None -> txn (fst (execute w SRollback L)) = None.
Proof.
  intros Hroll L Hopen. unfold execute. rewrite Hroll.
  destruct (txn L); [reflexivity|contradiction].
Qed.

Lemma handleTriggeredOrder_leavesClosed w order :
  (forall L0, fault w SRollback L0 = false) ->
  leavesClosed (handleTriggeredOrder w order).
Proof.
  intros Hroll. unfold handleTriggeredOrder.
  destruct (priceCheckPasses (exchange w) order); simpl;
    [|apply txnStable_leavesClosed, txnStable_ret].
  intros L Htxn. unfold bind at 1.
  destruct (lookupPosition_state w order L) as [position Hp]. rewrite Hp.
  revert L Htxn Hp. 
  destruct (findCloseTrade (exchange w) order) as [closeTrade|].
  - destruct position as [p|]; intros L Htxn _.
    + unfold commitTriggered.
      apply transaction_leavesClosed; [| |  |exact Htxn].
      * unfold commitSteps.
        repeat (apply onThrow_bind;
                [first [apply txnStable_cancelOpposite
                       |apply txnStable_execute; reflexivity]
                |intros _]).
        apply onThrow_commit.
      * unfold commitSteps. repeat (apply closes_bind; intros _).
        apply closes_commit.
      * intros L0 Hopen. unfold bind at 1.
        pose proof (rollback_closes w Hroll L0 Hopen) as Hc.
        destruct (execute w SRollback L0) as [L1 [u|]]; simpl in *;
          [|exact Hc].
        rewrite txnStable_try;
          [exact Hc|apply txnStable_execute; reflexivity|apply txnStable_ret].
    + apply txnStable_leavesClosed; [|exact Htxn].
      apply txnStable_bind; [apply txnStable_execute; reflexivity|].
      intros _. apply txnStable_cancelOpposite.
  - intros L Htxn _.
    destruct (getPositions (exchange w)) as [ps|]; [|exact Htxn].
    destruct (positionExists ps _).
    + unfold markCancelled.
      apply transaction_leavesClosed; [| | |exact Htxn].
      * apply onThrow_bind; [apply txnStable_execute; reflexivity|].
        intros _. apply onThrow_commit.
      * apply closes_bind. intros _. apply closes_commit.
      * apply rollback_closes. exact Hroll.
    + unfold recordNoTrade.
      apply transaction_leavesClosed; [| | |exact Htxn].
      * repeat (apply onThrow_bind;
                [first [apply txnStable_cancelOpposite
                       |apply txnStable_execute; reflexivity]
                |intros _]).
        apply onThrow_commit.
      * repeat (apply closes_bind; intros _). apply closes_commit.
      * apply rollback_closes. exact Hroll.
Qed.

Lemma processOrder_leavesClosed w exchangeOrders exchangePositions dbOrder :
  (forall L0, fault w SRollback L0 = false) ->
  leavesClosed (processOrder w exchangeOrders exchangePositions dbOrder).
Proof.
  intros Hroll L Htxn. unfold processOrder.
  destruct (orderMapHas exchangeOrders (order_id dbOrder)); simpl;
    [exact Htxn|].
  destruct (positionMapHas exchangePositions _); simpl.
  - unfold bind.
    pose proof (txnStable_repairOrderId w exchangeOrders dbOrder L) as Hm.
    destruct (repairOrderId w exchangeOrders dbOrder L) as [L1 [r|]];
      simpl in *; [|congruence].
    assert (Htxn1 : txn L1 = None) by congruence.
    destruct (negb (snd r)); [|exact Htxn1].
    destruct (findCloseTrade _ _);
      [apply handleTriggeredOrder_leavesClosed; assumption|exact Htxn1].
  - apply handleTriggeredOrder_leavesClosed; assumption.
Qed.

(** X4: if ROLLBACK never raises, a cycle that starts with no open
    transaction ends with no open transaction, whatever else the store or
    the exchange does (any other statement may raise, COMMIT included). *)
Theorem X4_cycle_leaves_no_transaction_open (w : World) (isRunning : bool)
  (L : Ledger) :
  (forall L0, fault w SRollback L0 = false) ->
  txn L = None ->
  txn (checkTriggeredOrders w isRunning L) = None.
Proof.
  intros Hroll Htxn. unfold checkTriggeredOrders.
  destruct isRunning; [exact Htxn|].
  unfold getActiveOrdersFromDB, query.
  destruct (fault w SSelectActiveOrders L); [exact Htxn|].
  destruct (selectActiveOrders (tables L)) as [|o orders]; [exact Htxn|].
  destruct (getPriceOrders (exchange w)) as [eo|]; [|exact Htxn].
  generalize (o :: orders). intros todo. revert L Htxn.
  induction todo as [|d todo IH]; intros L Htxn; simpl; [exact Htxn|].
  apply IH. apply processOrder_leavesClosed; assumption.
Qed.

(** ** Orders that the exchange still lists *)

Lemma processOrder_listed w exchangeOrders exchangePositions dbOrder L :
  orderMapHas exchangeOrders (order_id dbOrder) = true ->
  processOrder w exchangeOrders exchangePositions dbOrder L = (L, Some tt).
Proof. intros H. unfold processOrder. rewrite H. reflexivity. Qed.

Lemma forEachOrder_listed w exchangeOrders exchangePositions orders L :
  (forall o, In o orders ->
     orderMapHas exchangeOrders (order_id o) = true) ->
  forEachOrder w exchangeOrders exchangePositions orders L = L.
Proof.
  induction orders as [|o orders IH]; intros H; simpl; [reflexivity|].
  rewrite processOrder_listed by (apply H; left; reflexivity).
  apply IH. intros o' Ho'. apply H. right. exact Ho'.
Qed.

(** X5: when the exchange order list holds the id of every active order
    of the ledger, a cycle changes nothing: same tables, same transaction
    state, nothing journalled; this holds whatever the store does. *)
Theorem X5_cycle_leaves_listed_orders_alone (w : World) (isRunning : bool)
  (L : Ledger) :
  (forall exchangeOrders r,
     getPriceOrders (exchange w) = Some exchangeOrders ->
     In r (price_orders (tables L)) ->
     po_status r = active ->
     orderMapHas exchangeOrders (order_id (po_order r)) = true) ->
  checkTriggeredOrders w isRunning L = L.
Proof.
  intros H. unfold checkTriggeredOrders.
  destruct isRunning; [reflexivity|].
  unfold getActiveOrdersFromDB, query.
  destruct (fault w SSelectActiveOrders L); [reflexivity|].
  destruct (selectActiveOrders (tables L)) as [|o orders] eqn:Eo;
    [reflexivity|].
  destruct (getPriceOrders (exchange w)) as [eo|]; [|reflexivity].
  apply forEachOrder_listed. intros o' Ho'. rewrite <- Eo in Ho'.
  apply selectActiveOrders_In in Ho'. destruct Ho' as (r & Hin & Hact & <-).
  apply (H eo r eq_refl Hin).
  destruct (po_status r); [reflexivity|discriminate|discriminate].
Qed.

(** ** When the trade search finds nothing *)

Lemma reduce_none {A : Type} (f : A -> A -> A) (l : list A) :
  reduce f l = None <-> l = [].
Proof. destruct l; simpl; split; congruence. Qed.

Lemma filter_nil_iff {A : Type} (f : A -> bool) (l : list A) :
  List.filter f l = [] <-> forall x, In x l -> f x = false.
Proof.
  induction l as [|a l IH]; simpl.
  - split; [intros _ x []|reflexivity].
  - destruct (f a) eqn:E.
    + split; [discriminate|]. intros H.
      specialize (H a (or_introl eq_refl)). congruence.
    + rewrite IH. split.
      * intros H x [<-|Hx]; auto.
      * intros H x Hx. apply H. right. exact Hx.
Qed.

Lemma findCloseTradeAttempts_none ex order trades attempts :
  getMyTrades ex (normalizeContract ex (symbol order)) 500
    (searchStartTime order) = Some trades ->
  List.filter (closeTradeFilter order) trades = [] ->
  findCloseTradeAttempts ex order attempts = Some None.
Proof.
  intros Hget Hnil. induction attempts as [|n IH]; simpl; [reflexivity|].
  rewrite Hget, Hnil. simpl. exact IH.
Qed.

(** X6: [findCloseTrade] answers null exactly when the trade query
    raises or no trade of the fetched list passes the filter (window,
    direction, price); in particular a passing trade is never missed. *)
Theorem X6_trade_search_finds_nothing_iff (ex : Exchange)
  (order : DBPriceOrder) :
  findCloseTrade ex order = None <->
  getMyTrades ex (normalizeContract ex (symbol order)) 500
    (searchStartTime order) = None \/
  exists trades,
    getMyTrades ex (normalizeContract ex (symbol order)) 500
      (searchStartTime order) = Some trades /\
    forall t, In t trades -> closeTradeFilter order t = false.
Proof.
  split.
  - intros Hnone.
    destruct (getMyTrades ex (normalizeContract ex (symbol order)) 500
                (searchStartTime order)) as [trades|] eqn:Hget; [|auto].
    right. exists trades. split; [reflexivity|].
    apply filter_nil_iff.
    destruct (List.filter (closeTradeFilter order) trades) as [|x rest] eqn:Ef;
      [reflexivity|].
    exfalso. revert Hnone. unfold findCloseTrade, retries. simpl.
    rewrite Hget, Ef. simpl. discriminate.
  - intros [Hget|(trades & Hget & Hall)].
    + unfold findCloseTrade, retries. simpl. rewrite Hget. reflexivity.
    + unfold findCloseTrade.
      rewrite (findCloseTradeAttempts_none ex order trades retries Hget);
        [reflexivity|].
      apply filter_nil_iff. exact Hall.
Qed.

(** ** The two price tolerances *)

Lemma tolerance_search_le_precheck (triggerPrice : Q) :
  (0 <= triggerPrice)%Q ->
  (priceTolerance searchTolerancePercent triggerPrice
   <= priceTolerance precheckTolerancePercent triggerPrice)%Q.
Proof.
  intros H.
  unfold priceTolerance, searchTolerancePercent, precheckTolerancePercent.
  unfold Qdiv. change (/ 100)%Q with (1 # 100)%Q.
  change ((1 # 10) * (1 # 100))%Q with (1 # 1000)%Q.
  change ((2 # 10) * (1 # 100))%Q with (2 # 1000)%Q. lra.
Qed.

(** X7: for an order with a trigger price that is not negative, a fill
    price that passes the price test of the trade search (0.1 percent)
    also passes the price test of the pre-check of [handleTriggeredOrder]
    (0.2 percent), whatever the kind and the side of the order. *)
Theorem X7_search_price_test_implies_precheck_price_test
  (order : DBPriceOrder) (tradePrice : Q) :
  (0 <= trigger_price order)%Q ->
  priceMatches searchTolerancePercent order tradePrice = true ->
  priceMatches precheckTolerancePercent order tradePrice = true.
Proof.
  intros Ht. pose proof (tolerance_search_le_precheck _ Ht) as Hle.
  unfold priceMatches.
  destruct (type order), (side order); rewrite !Qle_bool_iff; lra.
Qed.

(** ** The active orders of a cycle *)

Lemma insertRow_Permutation r l : Permutation (insertRow r l) (r :: l).
Proof.
  induction l as [|x l IH]; simpl; [reflexivity|].
  destruct (sortsBefore x r); [|reflexivity].
  rewrite IH. apply perm_swap.
Qed.

Lemma orderBy_Permutation l : Permutation (orderBy l) l.
Proof.
  unfold orderBy. induction l as [|x l IH]; simpl; [reflexivity|].
  rewrite insertRow_Permutation. constructor. exact IH.
Qed.

(** X8: the list of orders that a cycle works on is a rearrangement of
    the orders of the rows with status active: each such row gives one
    entry, and no other row gives any. *)
Theorem X8_active_orders_are_exactly_the_active_rows (T : Tables) :
  Permutation (selectActiveOrders T)
    (map po_order
       (List.filter (fun r => is_active (po_status r)) (price_orders T))) /\
  length (selectActiveOrders T)
  = length (List.filter (fun r => is_active (po_status r)) (price_orders T)).
Proof.
  assert (H : Permutation (selectActiveOrders T)
                (map po_order
                   (List.filter (fun r => is_active (po_status r))
                      (price_orders T)))).
  { unfold selectActiveOrders. apply Permutation_map, orderBy_Permutation. }
  split; [exact H|].
  rewrite (Permutation_length H). apply length_map.
Qed.

(** ** The other paths of [handleTriggeredOrder] *)

(** X10: on a store that executes its statements, when
    [handleTriggeredOrder] finds no close trade and the exchange still
    reports a nonzero position for the contract, it sets every row with
    the id of the order to cancelled in one transaction and changes
    nothing else: the Position row and the audit tables stay. *)
Theorem X10_no_trade_with_open_position_cancels_the_order (w : World)
  (order : DBPriceOrder) (L : Ledger) (ps : list ExPosition) :
  storeWorks w ->
  txn L = None ->
  priceCheckPasses (exchange w) order = true ->
  findCloseTrade (exchange w) order = None ->
  getPositions (exchange w) = Some ps ->
  positionExists ps (normalizeContract (exchange w) (symbol order)) = true ->
  let L' := fst (handleTriggeredOrder w order L) in
  journal L'
  = journal L ++
    [SBegin; SUpdateStatus (order_id order) cancelled (clock w); SCommit] /\
  txn L' = None /\
  price_orders (tables L')
  = map (statusRow (order_id order) cancelled (clock w))
      (price_orders (tables L)) /\
  (forall r, In r (price_orders (tables L')) ->
     order_id (po_order r) = order_id order -> po_status r = cancelled) /\
  positions (tables L') = positions (tables L) /\
  trades (tables L') = trades (tables L) /\
  position_close_events (tables L') = position_close_events (tables L) /\
  inconsistent_states (tables L') = inconsistent_states (tables L).
Proof.
  intros Hw Htxn Hc Ht Hget Hpos. cbv zeta.
  rewrite (handleTriggeredOrder_run w Hw order L Htxn).
  unfold handleRun. rewrite Hc, Ht, Hget, Hpos. simpl.
  split; [apply markCancelledRun_journal|].
  repeat (split; [reflexivity|]).
  split; [|repeat split].
  intros r Hin Hid. apply in_map_iff in Hin.
  destruct Hin as (r0 & <- & _). revert Hid. unfold statusRow.
  destruct (String.eqb_spec (order_id (po_order r0)) (order_id order));
    [reflexivity|contradiction].
Qed.

(** X11: on a store that executes its statements, when the id of an
    order is absent from the exchange order list, the exchange reports a
    position for its contract, and the exchange lists another order of
    that contract whose trigger rule fits the kind and side, the loop
    body rewrites the id (and nothing but the id and updated_at) of the
    rows that carry the old id, leaves every status as it is, and stops
    there; the new id is one that the exchange lists. *)
Theorem X11_drift_repair_rewrites_only_the_id (w : World)
  (exchangeOrders : list ExOrder) (exchangePositions : list ExPosition)
  (dbOrder : DBPriceOrder) (L : Ledger) (matchingOrder : ExOrder) :
  storeWorks w ->
  orderMapHas exchangeOrders (order_id dbOrder) = false ->
  positionMapHas exchangePositions
    (normalizeContract (exchange w) (symbol dbOrder)) = true ->
  findMatchingOrder (exchange w) exchangeOrders dbOrder = Some matchingOrder ->
  ex_id matchingOrder <> "" ->
  let rename :=
    SRenameOrder (order_id dbOrder) (ex_id matchingOrder) (clock w) in
  processOrder w exchangeOrders exchangePositions dbOrder L
  = (run rename L, Some tt) /\
  orderMapHas exchangeOrders (ex_id matchingOrder) = true /\
  map po_status (price_orders (tables (run rename L)))
  = map po_status (price_orders (tables L)) /\
  (forall r, In r (price_orders (tables L)) ->
     order_id (po_order r) <> order_id dbOrder ->
     In r (price_orders (tables (run rename L)))) /\
  positions (tables (run rename L)) = positions (tables L) /\
  trades (tables (run rename L)) = trades (tables L) /\
  position_close_events (tables (run rename L))
  = position_close_events (tables L) /\
  inconsistent_states (tables (run rename L)) = inconsistent_states (tables L).
Proof.
  intros Hw Hin Hpos Hm Hid. cbv zeta.
  assert (Hlisted : orderMapHas exchangeOrders (ex_id matchingOrder) = true).
  { unfold findMatchingOrder in Hm. apply find_some in Hm.
    destruct Hm as [Hm _]. apply filter_In in Hm. destruct Hm as [Hm _].
    unfold orderMapHas. apply existsb_exists. exists matchingOrder.
    split; [exact Hm|].
    destruct (String.eqb_spec (ex_id matchingOrder) ""); [contradiction|].
    rewrite String.eqb_refl. reflexivity. }
  assert (Hne : String.eqb (ex_id matchingOrder) (order_id dbOrder) = false).
  { destruct (String.eqb_spec (ex_id matchingOrder) (order_id dbOrder))
      as [E|]; [|reflexivity].
    rewrite E in Hlisted. congruence. }
  assert (Hnonempty : String.eqb (ex_id matchingOrder) "" = false).
  { destruct (String.eqb_spec (ex_id matchingOrder) "");
      [contradiction|reflexivity]. }
  split.
  { unfold processOrder. rewrite Hin, Hpos. simpl.
    unfold bind at 1. rewrite (repairOrderId_run w Hw).
    unfold repairTarget. rewrite Hm, Hnonempty, Hne. reflexivity. }
  split; [exact Hlisted|].
  simpl. split.
  { rewrite map_map. apply map_ext. intros r. unfold renameRow.
    destruct (String.eqb (order_id (po_order r)) (order_id dbOrder));
      reflexivity. }
  split; [|auto].
  intros r Hr Hother. apply in_map_iff. exists r. split; [|exact Hr].
  unfold renameRow.
  destruct (String.eqb_spec (order_id (po_order r)) (order_id dbOrder));
    [contradiction|reflexivity].
Qed.

(** ** The lease lock, whatever the store does *)

Lemma tryAcquire_outcome
  (lockFault : DistributedLock.LockStmt ->
               gmap string DistributedLock.ConfigRow -> bool)
  (now : Z) (key holder : string)
  (cfg : gmap string DistributedLock.ConfigRow) :
  DistributedLock.tryAcquire lockFault now key holder cfg
  = (true,
     <[key := {| DistributedLock.value := holder;
                 DistributedLock.updated_at := now |}]> cfg) \/
  DistributedLock.tryAcquire lockFault now key holder cfg = (false, cfg).
Proof.
  unfold DistributedLock.tryAcquire. cbv zeta.
  destruct (lockFault (DistributedLock.SelectLock key) cfg); [auto|].
  destruct (cfg !! key) as [row|].
  - destruct (now - DistributedLock.updated_at row
              <? DistributedLock.LOCK_TIMEOUT_MS).
    + destruct (String.eqb_spec (DistributedLock.value row) holder) as [E|];
        [|auto].
      destruct (lockFault _ cfg); [auto|]. left. rewrite E. reflexivity.
    + destruct (lockFault _ cfg); auto.
  - destruct (lockFault _ cfg); auto.
Qed.

(** X12: whatever the store does, [tryAcquire] has one of two outcomes:
    it answers true and the row of the key holds the caller with the
    current time, or it answers false and the table is as it was; the rows
    of the other keys are never touched. *)
Theorem X12_tryAcquire_true_means_lease_written
  (lockFault : DistributedLock.LockStmt ->
               gmap string DistributedLock.ConfigRow -> bool)
  (now : Z) (key holder : string)
  (cfg : gmap string DistributedLock.ConfigRow) :
  let result := DistributedLock.tryAcquire lockFault now key holder cfg in
  (fst result = true ->
   snd result !! key
   = Some {| DistributedLock.value := holder;
             DistributedLock.updated_at := now |}) /\
  (fst result = false -> snd result = cfg) /\
  (forall other, other <> key -> snd result !! other = cfg !! other).
Proof.
  cbv zeta.
  destruct (tryAcquire_outcome lockFault now key holder cfg) as [-> | ->];
    simpl.
  - split; [intros _; apply lookup_insert_eq|].
    split; [discriminate|].
    intros other Hne. apply lookup_insert_ne. congruence.
  - split; [discriminate|]. auto.
Qed.

Lemma release_outcome
  (lockFault : DistributedLock.LockStmt ->
               gmap string DistributedLock.ConfigRow -> bool)
  (key holder : string) (cfg : gmap string DistributedLock.ConfigRow) :
  DistributedLock.release lockFault key holder cfg = cfg \/
  (DistributedLock.release lockFault key holder cfg = delete key cfg /\
   exists row, cfg !! key = Some row /\ DistributedLock.value row = holder).
Proof.
  unfold DistributedLock.release.
  destruct (lockFault (DistributedLock.SelectLock key) cfg); [auto|].
  destruct (cfg !! key) as [row|] eqn:E; [|auto].
  destruct (String.eqb_spec (DistributedLock.value row) holder); [|auto].
  destruct (lockFault _ cfg); [auto|]. right. eauto.
Qed.

(** X13: whatever the store does, [release] by a caller who is not the
    recorded holder of the key (or when the key has no row) leaves the
    table as it is, and no [release] touches the row of another key; with
    a store that executes its statements, [release] by the recorded holder
    removes the row. *)
Theorem X13_release_only_by_the_holder
  (lockFault : DistributedLock.LockStmt ->
               gmap string DistributedLock.ConfigRow -> bool)
  (key holder : string) (cfg : gmap string DistributedLock.ConfigRow) :
  let cfg' := DistributedLock.release lockFault key holder cfg in
  (forall row, cfg !! key = Some row ->
     DistributedLock.value row <> holder -> cfg' = cfg) /\
  (cfg !! key = None -> cfg' = cfg) /\
  (forall other, other <> key -> cfg' !! other = cfg !! other) /\
  (lockStoreWorks lockFault ->
   forall row, cfg !! key = Some row ->
     DistributedLock.value row = holder -> cfg' = delete key cfg).
Proof.
  cbv zeta.
  destruct (release_outcome lockFault key holder cfg)
    as [E|[E (row0 & Hrow0 & Hval0)]].
  - rewrite E. repeat split; auto.
    intros Hworks row Hrow Hval. revert E.
    unfold DistributedLock.release. rewrite !Hworks, Hrow, Hval.
    rewrite String.eqb_refl. auto.
  - rewrite E. split; [|split; [|split]].
    + intros row Hrow Hval. congruence.
    + intros Hnone. congruence.
    + intros other Hne. apply lookup_delete_ne. congruence.
    + auto.
Qed.

(** X14: with a store that executes its statements, acquiring a free key
    and then releasing it as the same caller gives back the table one
    started from. *)
Theorem X14_acquire_then_release_restores_the_table
  (lockFault : DistributedLock.LockStmt ->
               gmap string DistributedLock.ConfigRow -> bool)
  (now : Z) (key holder : string)
  (cfg : gmap string DistributedLock.ConfigRow) :
  lockStoreWorks lockFault ->
  cfg !! key = None ->
  DistributedLock.release lockFault key holder
    (snd (DistributedLock.tryAcquire lockFault now key holder cfg))
  = cfg.
Proof.
  intros Hworks Hfree.
  unfold DistributedLock.tryAcquire, DistributedLock.release. cbv zeta.
  rewrite !Hworks, Hfree. simpl. rewrite ?Hworks, lookup_insert_eq. simpl.
  rewrite String.eqb_refl, ?Hworks. rewrite delete_insert_eq.
  apply delete_id. exact Hfree.
Qed.

(** X15: whatever the store does, once a caller has acquired a key,
    another caller who asks before the 30 seconds are over is refused and
    the lease stays as it is. *)
Theorem X15_fresh_lease_excludes_other_holders
  (lockFault : DistributedLock.LockStmt ->
               gmap string DistributedLock.ConfigRow -> bool)
  (t1 t2 : Z) (key holderA holderB : string)
  (cfg : gmap string DistributedLock.ConfigRow) :
  fst (DistributedLock.tryAcquire lockFault t1 key holderA cfg) = true ->
  holderB <> holderA ->
  t2 - t1 < DistributedLock.LOCK_TIMEOUT_MS ->
  let cfg1 := snd (DistributedLock.tryAcquire lockFault t1 key holderA cfg) in
  DistributedLock.tryAcquire lockFault t2 key holderB cfg1 = (false, cfg1).
Proof.
  intros Hacq Hne Hfresh. cbv zeta.
  destruct (tryAcquire_outcome lockFault t1 key holderA cfg) as [E|E];
    rewrite E in *; simpl in *; [|discriminate].
  unfold DistributedLock.tryAcquire. cbv zeta.
  destruct (lockFault (DistributedLock.SelectLock key) _); [reflexivity|].
  rewrite lookup_insert_eq. simpl.
  destruct (Z.ltb_spec (t2 - t1) DistributedLock.LOCK_TIMEOUT_MS); [|lia].
  destruct (String.eqb_spec holderA holderB); [congruence|reflexivity].
Qed.

(** X16: whatever the store does, when a lease has passed to another
    caller, a late [release] by the former holder leaves the lease of the
    new holder in place. *)
Theorem X16_late_release_keeps_the_new_lease
  (lockFault : DistributedLock.LockStmt ->
               gmap string DistributedLock.ConfigRow -> bool)
  (t2 : Z) (key holderA holderB : string)
  (cfg : gmap string DistributedLock.ConfigRow) :
  fst (DistributedLock.tryAcquire lockFault t2 key holderB cfg) = true ->
  holderB <> holderA ->
  let cfg2 := snd (DistributedLock.tryAcquire lockFault t2 key holderB cfg) in
  DistributedLock.release lockFault key holderA cfg2 = cfg2 /\
  cfg2 !! key
  = Some {| DistributedLock.value := holderB;
            DistributedLock.updated_at := t2 |}.
Proof.
  intros Hacq Hne. cbv zeta.
  destruct (tryAcquire_outcome lockFault t2 key holderB cfg) as [E|E];
    rewrite E in *; simpl in *; [|discriminate].
  split; [|apply lookup_insert_eq].
  destruct (release_outcome lockFault key holderA
              (<[key := {| DistributedLock.value := holderB;
                           DistributedLock.updated_at := t2 |}]> cfg))
    as [H|[_ (row & Hrow & Hval)]]; [exact H|].
  rewrite lookup_insert_eq in Hrow. injection Hrow as <-.
  simpl in Hval. congruence.
Qed.

(** ** The partial take-profit executor *)

Import PartialTakeProfit.

Lemma release_by_holder
  (lockFault : DistributedLock.LockStmt ->
               gmap string DistributedLock.ConfigRow -> bool)
  (key holder : string) (cfg : gmap string DistributedLock.ConfigRow) row :
  lockStoreWorks lockFault ->
  cfg !! key = Some row ->
  DistributedLock.value row = holder ->
  DistributedLock.release lockFault key holder cfg = delete key cfg.
Proof.
  intros Hworks Hrow Hval. unfold DistributedLock.release.
  rewrite !Hworks, Hrow, Hval, String.eqb_refl. reflexivity.
Qed.

Lemma runStage_config env caller sym s st acc :
  toolKeepsLeases env ->
  system_config (fst (fst (runStage env caller sym s st acc)))
  = system_config st.
Proof.
  intros Htool. unfold runStage.
  destruct (dbFault env _ st); [reflexivity|].
  destruct (Nat.ltb 0 _); [reflexivity|].
  specialize (Htool (toolSymbol sym) (stageNumber s) st).
  destruct (partialTakeProfitTool env _ _ st) as [st' [[|]|]];
    exact Htool.
Qed.

Lemma stageBlock_config env caller sym sd s st acc :
  lockStoreWorks (lockFault env) ->
  toolKeepsLeases env ->
  system_config (fst (fst (stageBlock env caller sym sd s st acc)))
  ⊆ system_config st.
Proof.
  intros Hworks Htool. unfold stageBlock.
  destruct (hasRecentExecution env sym _ 30 st); [reflexivity|].
  cbv zeta.
  destruct (tryAcquire_outcome (lockFault env) (now env)
              (lockKeyOf sym sd s) caller (system_config st))
    as [E|E]; rewrite E; simpl; [|reflexivity].
  rewrite runStage_config by exact Htool. simpl.
  erewrite release_by_holder;
    [|exact Hworks|apply lookup_insert_eq|reflexivity].
  rewrite delete_insert_eq. apply delete_subseteq.
Qed.

Lemma checkPosition_config env caller pos st acc :
  lockStoreWorks (lockFault env) ->
  toolKeepsLeases env ->
  system_config (fst (fst (checkPosition env caller pos st acc)))
  ⊆ system_config st.
Proof.
  intros Hworks Htool. unfold checkPosition. cbv zeta.
  destruct (Qle_bool (pv_stop_loss pos) 0); [reflexivity|].
  destruct (getFuturesTicker env _) as [currentPrice|]; [|reflexivity].
  destruct (Qle_bool currentPrice 0); [reflexivity|].
  destruct (Qeq_bool _ 0); [reflexivity|].
  set (r1 := if Qle_bool (6 # 10) _ then _ else _).
  assert (H1 : system_config (fst (fst r1)) ⊆ system_config st).
  { unfold r1. destruct (Qle_bool (6 # 10) _); [|reflexivity].
    apply stageBlock_config; assumption. }
  destruct (snd r1); simpl; try exact H1.
  destruct (Qle_bool (12 # 10) _); simpl; [|exact H1].
  etransitivity; [|exact H1]. apply stageBlock_config; assumption.
Qed.

Lemma forEachPosition_config env caller rows :
  lockStoreWorks (lockFault env) ->
  toolKeepsLeases env ->
  forall st acc,
    system_config (fst (fst (forEachPosition env caller rows st acc)))
    ⊆ system_config st.
Proof.
  intros Hworks Htool.
  induction rows as [|pos rows IH]; intros st acc; simpl; [reflexivity|].
  pose proof (checkPosition_config env caller pos st acc Hworks Htool) as H.
  destruct (snd (checkPosition env caller pos st acc)); [exact H|].
  etransitivity; [apply IH|exact H].
Qed.

(** X17: with a lease store that executes its statements and a tool that
    leaves the lease rows alone, [executeCheck] leaves behind no lease
    that was not there before: every row of system_config after the check
    was there, unchanged, before it.  This holds when the tool fails or
    throws, when history queries raise, and for every position list. *)
Theorem X17_executeCheck_leaves_no_new_lease (env : Env)
  (caller : string) (positions : list PositionView) (st : Store) :
  lockStoreWorks (lockFault env) ->
  toolKeepsLeases env ->
  forall key row,
    system_config (fst (executeCheck env caller positions st)) !! key
    = Some row ->
    system_config st !! key = Some row.
Proof.
  intros Hworks Htool key row.
  assert (H : system_config
                (fst (executeCheck env caller positions st))
              ⊆ system_config st).
  { unfold executeCheck.
    destruct (dbFault env SelectOpenPositions st); [reflexivity|].
    destruct (List.filter _ positions) as [|pos rows]; [reflexivity|].
    exact (forEachPosition_config env caller (pos :: rows) Hworks Htool
             st _). }
  intros Hrow. eapply lookup_weaken; eauto.
Qed.

(** The counters follow the list of details. *)
Lemma countsAgree_skip acc d :
  isSkip d = true -> isSuccess d = false ->
  countsAgree acc -> countsAgree (skipWith acc d).
Proof.
  intros Hk Hs [He Hsk]. unfold countsAgree, skipWith. simpl.
  rewrite !List.filter_app, !List.length_app. simpl. rewrite Hk, Hs. simpl. lia.
Qed.

Lemma countsAgree_count acc d :
  isSkip d = false -> isSuccess d = true ->
  countsAgree acc -> countsAgree (countWith acc d).
Proof.
  intros Hk Hs [He Hsk]. unfold countsAgree, countWith. simpl.
  rewrite !List.filter_app, !List.length_app. simpl. rewrite Hk, Hs. simpl. lia.
Qed.

Lemma countsAgree_note acc d :
  isSkip d = false -> isSuccess d = false ->
  countsAgree acc -> countsAgree (noteWith acc d).
Proof.
  intros Hk Hs [He Hsk]. unfold countsAgree, noteWith. simpl.
  rewrite !List.filter_app, !List.length_app. simpl. rewrite Hk, Hs. simpl. lia.
Qed.

Lemma runStage_counts env caller sym s st acc :
  countsAgree acc ->
  countsAgree (snd (fst (runStage env caller sym s st acc))).
Proof.
  intros H. unfold runStage.
  destruct (dbFault env _ st); [exact H|].
  destruct (Nat.ltb 0 _); [apply countsAgree_skip; auto|].
  destruct (partialTakeProfitTool env _ _ st) as [st' [[|]|]]; simpl;
    [apply countsAgree_count|apply countsAgree_note|]; auto.
Qed.

Lemma stageBlock_counts env caller sym sd s st acc :
  countsAgree acc ->
  countsAgree (snd (fst (stageBlock env caller sym sd s st acc))).
Proof.
  intros H. unfold stageBlock.
  destruct (hasRecentExecution env sym _ 30 st);
    [apply countsAgree_skip; auto|].
  cbv zeta. destruct (negb _); [apply countsAgree_skip; auto|].
  simpl. apply runStage_counts. exact H.
Qed.

Lemma checkPosition_counts env caller pos st acc :
  countsAgree acc ->
  countsAgree (snd (fst (checkPosition env caller pos st acc))).
Proof.
  intros H. unfold checkPosition. cbv zeta.
  destruct (Qle_bool (pv_stop_loss pos) 0); [exact H|].
  destruct (getFuturesTicker env _) as [currentPrice|]; [|exact H].
  destruct (Qle_bool currentPrice 0); [exact H|].
  destruct (Qeq_bool _ 0); [exact H|].
  set (r1 := if Qle_bool (6 # 10) _ then _ else _).
  assert (H1 : countsAgree (snd (fst r1))).
  { unfold r1. destruct (Qle_bool (6 # 10) _); [|exact H].
    apply stageBlock_counts. exact H. }
  destruct (snd r1); simpl; try exact H1.
  destruct (Qle_bool (12 # 10) _); simpl; [|exact H1].
  apply stageBlock_counts. exact H1.
Qed.

Lemma forEachPosition_counts env caller rows :
  forall st acc,
    countsAgree acc ->
    countsAgree (snd (fst (forEachPosition env caller rows st acc))).
Proof.
  induction rows as [|pos rows IH]; intros st acc H; simpl; [exact H|].
  pose proof (checkPosition_counts env caller pos st acc H) as H1.
  destruct (snd (checkPosition env caller pos st acc)); [exact H1|].
  apply IH. exact H1.
Qed.

(** X18: in the object that [executeCheck] returns, [executed] is the
    number of details with result success and [skipped] is the number of
    details with result recently_executed, lock_busy or already_executed,
    also when the check ends on an exception. *)
Theorem X18_executeCheck_counters_match_details (env : Env)
  (caller : string) (positions : list PositionView) (st : Store) :
  let outcome := snd (executeCheck env caller positions st) in
  oc_executed outcome
  = length (List.filter isSuccess (oc_details outcome)) /\
  oc_skipped outcome
  = length (List.filter isSkip (oc_details outcome)).
Proof.
  cbv zeta. unfold executeCheck.
  destruct (dbFault env SelectOpenPositions st); [split; reflexivity|].
  destruct (List.filter _ positions) as [|pos rows]; [split; reflexivity|].
  refine (forEachPosition_counts env caller (pos :: rows) st _ _).
  split; reflexivity.
Qed.

Lemma filter_nonempty_iff {A : Type} (f : A -> bool) (l : list A) :
  Nat.ltb 0 (length (List.filter f l)) = true <->
  exists x, In x l /\ f x = true.
Proof.
  split.
  - intros H. destruct (List.filter f l) as [|x rest] eqn:E;
      [discriminate|].
    exists x. apply filter_In. rewrite E. left. reflexivity.
  - intros (x & Hin & Hf).
    assert (Hx : In x (List.filter f l)) by (apply filter_In; auto).
    destruct (List.filter f l); [contradiction|reflexivity].
Qed.

Lemma neverRan_skip acc d :
  isSkip d = true -> neverRan acc -> neverRan (skipWith acc d).
Proof.
  intros Hd [He Hf]. split; [exact He|]. simpl.
  apply Forall_app. split; [exact Hf|]. constructor; auto.
Qed.

Lemma runStage_completed env caller sym s st acc :
  (exists h, In h (history st) /\
             isCompleted sym (stageNumber s) h = true) ->
  neverRan acc ->
  history (fst (fst (runStage env caller sym s st acc)))
  = history st /\
  neverRan (snd (fst (runStage env caller sym s st acc))).
Proof.
  intros Hdone Hacc. unfold runStage.
  destruct (dbFault env _ st); [auto|].
  apply filter_nonempty_iff in Hdone. rewrite Hdone. simpl.
  split; [reflexivity|]. apply neverRan_skip; auto.
Qed.

Lemma stageBlock_completed env caller sym sd s st acc :
  (exists h, In h (history st) /\
             isCompleted sym (stageNumber s) h = true) ->
  neverRan acc ->
  history (fst (fst (stageBlock env caller sym sd s st acc)))
  = history st /\
  neverRan (snd (fst (stageBlock env caller sym sd s st acc))).
Proof.
  intros Hdone Hacc. unfold stageBlock.
  destruct (hasRecentExecution env sym _ 30 st);
    [split; [reflexivity|apply neverRan_skip; auto]|].
  cbv zeta. destruct (negb _);
    [split; [reflexivity|apply neverRan_skip; auto]|].
  match goal with
  | |- context [runStage env caller sym s ?held acc] =>
      destruct (runStage_completed env caller sym s held acc Hdone Hacc)
        as [Hh Ha]
  end.
  simpl in *. auto.
Qed.

Lemma checkPosition_completed env caller pos st acc :
  (exists h, In h (history st) /\
             isCompleted (pv_symbol pos) 1 h = true) ->
  (exists h, In h (history st) /\
             isCompleted (pv_symbol pos) 2 h = true) ->
  neverRan acc ->
  history (fst (fst (checkPosition env caller pos st acc)))
  = history st /\
  neverRan (snd (fst (checkPosition env caller pos st acc))).
Proof.
  intros Hdone1 Hdone2 Hacc. unfold checkPosition. cbv zeta.
  destruct (Qle_bool (pv_stop_loss pos) 0); [auto|].
  destruct (getFuturesTicker env _) as [currentPrice|]; [|auto].
  destruct (Qle_bool currentPrice 0); [auto|].
  destruct (Qeq_bool _ 0); [auto|].
  set (r1 := if Qle_bool (6 # 10) _ then _ else _).
  assert (H1 : history (fst (fst r1)) = history st /\
               neverRan (snd (fst r1))).
  { unfold r1. destruct (Qle_bool (6 # 10) _); [|auto].
    apply stageBlock_completed; assumption. }
  destruct H1 as [Hh1 Ha1].
  destruct (snd r1); simpl; auto.
  destruct (Qle_bool (12 # 10) _); simpl; [|auto].
  destruct (stageBlock_completed env caller (pv_symbol pos)
              (pv_side pos) stage2 (fst (fst r1)) (snd (fst r1)))
    as [Hh2 Ha2]; [rewrite Hh1; exact Hdone2|exact Ha1|].
  split; [congruence|exact Ha2].
Qed.

Lemma forEachPosition_completed env caller rows :
  forall st acc,
    allStagesCompleted rows st ->
    neverRan acc ->
    history (fst (fst (forEachPosition env caller rows st acc)))
    = history st /\
    neverRan (snd (fst (forEachPosition env caller rows st acc))).
Proof.
  induction rows as [|pos rows IH]; intros st acc Hall Hacc; simpl; [auto|].
  destruct (Hall pos (or_introl eq_refl)) as [Hd1 Hd2].
  destruct (checkPosition_completed env caller pos st acc Hd1 Hd2 Hacc)
    as [Hh Ha].
  destruct (snd (checkPosition env caller pos st acc)); [auto|].
  destruct (IH (fst (fst (checkPosition env caller pos st acc)))
              (snd (fst (checkPosition env caller pos st acc))))
    as [Hh' Ha']; [|exact Ha|split; [congruence|exact Ha']].
  intros p Hp. rewrite Hh. apply Hall. right. exact Hp.
Qed.

(** X19: when history holds a completed row for stage 1 and for stage 2
    of every position, [executeCheck] never runs the tool, whatever the
    prices, the leases and the store do: history is as before, [executed]
    is 0, and every detail is recently_executed, lock_busy or
    already_executed. *)
Theorem X19_completed_stages_are_not_executed_again (env : Env)
  (caller : string) (positions : list PositionView) (st : Store) :
  allStagesCompleted positions st ->
  let result := executeCheck env caller positions st in
  history (fst result) = history st /\
  oc_executed (snd result) = 0%nat /\
  forall d, In d (oc_details (snd result)) ->
    d_result d = recently_executed \/
    d_result d = lock_busy \/
    d_result d = already_executed.
Proof.
  intros Hall. cbv zeta.
  assert (Hskip : forall d, isSkip d = true ->
            d_result d = recently_executed \/
            d_result d = lock_busy \/
            d_result d = already_executed).
  { intros d. unfold isSkip. destruct (d_result d); auto; discriminate. }
  unfold executeCheck.
  destruct (dbFault env SelectOpenPositions st);
    [simpl; repeat split; auto; intros d []|].
  destruct (List.filter _ positions) as [|pos rows] eqn:Ef;
    [simpl; repeat split; auto; intros d []|].
  destruct (forEachPosition_completed env caller (pos :: rows) st
              {| executedCount := 0%nat; skippedCount := 0%nat;
                 executed := [] |})
    as [Hh [He Hf]].
  - intros p Hp. apply Hall. rewrite <- Ef in Hp.
    apply filter_In in Hp. tauto.
  - split; [reflexivity|constructor].
  - split; [exact Hh|]. split; [exact He|].
    intros d Hd. apply Hskip.
    rewrite List.Forall_forall in Hf. apply Hf. exact Hd.
Qed.

(** X20: with a store that answers, an execution that
    [hasRecentExecution] finds within a window is also found within every
    longer window, as long as the cutoff of the longer window is a date
    that [toISOString] can write and the cutoff of the shorter one does
    not lie beyond the year 9999. *)
Theorem X20_hasRecentExecution_grows_with_the_window (env : Env)
  (sym : string) (stage window1 window2 : Z) (st : Store) :
  (forall stmt, dbFault env stmt st = false) ->
  window1 <= window2 ->
  - MAX_DATE_MS <= now env - window2 * 1000 ->
  now env - window1 * 1000 <= LAST_FOUR_DIGIT_MS ->
  hasRecentExecution env sym stage window1 st = true ->
  hasRecentExecution env sym stage window2 st = true.
Proof.
  intros Hworks Hle Hlow Hhigh. unfold hasRecentExecution. cbv zeta.
  destruct (validDate (now env - window1 * 1000)) eqn:Ev1; [|discriminate].
  assert (Ev2 : validDate (now env - window2 * 1000) = true).
  { unfold validDate in *. apply andb_true_iff in Ev1. destruct Ev1 as [_ H].
    apply Z.leb_le in H. apply andb_true_iff. split; apply Z.leb_le; lia. }
  rewrite Ev2. simpl. rewrite !Hworks. rewrite !filter_nonempty_iff.
  intros (h & Hin & Hf). exists h. split; [exact Hin|].
  apply andb_true_iff in Hf. destruct Hf as [Hc Ht].
  rewrite Hc. simpl. revert Ht. unfold laterThan, fourDigitYear.
  destruct (Z.leb_spec FIRST_FOUR_DIGIT_MS (now env - window2 * 1000));
    [|reflexivity].
  destruct (Z.leb_spec (now env - window2 * 1000) LAST_FOUR_DIGIT_MS);
    [|reflexivity].
  destruct (Z.leb_spec FIRST_FOUR_DIGIT_MS (now env - window1 * 1000));
    [|lia].
  destruct (Z.leb_spec (now env - window1 * 1000) LAST_FOUR_DIGIT_MS);
    [|lia].
  simpl. intros Ht. apply Z.ltb_lt in Ht. apply Z.ltb_lt. lia.
Qed.

(** X21: whatever the store does, when no recent execution is found and
    another caller holds a lease on the key of the stage that is younger
    than 30 seconds, the stage block records lock_busy, counts a skip,
    moves on to the next position, and leaves history and the lease table
    as they are (the tool is not run). *)
Theorem X21_contended_stage_is_skipped (env : Env) (caller sym : string)
  (sd : Side) (s : Stage) (st : Store) (acc : Acc)
  (row : DistributedLock.ConfigRow) :
  hasRecentExecution env sym (stageNumber s) 30 st = false ->
  system_config st !! lockKeyOf sym sd s = Some row ->
  DistributedLock.value row <> caller ->
  now env - DistributedLock.updated_at row
  < DistributedLock.LOCK_TIMEOUT_MS ->
  let result := stageBlock env caller sym sd s st acc in
  history (fst (fst result)) = history st /\
  system_config (fst (fst result)) = system_config st /\
  snd (fst result)
  = skipWith acc {| d_symbol := sym; d_stage := stageNumber s;
                       d_result := lock_busy |} /\
  snd result = Continue.
Proof.
  intros Hrecent Hrow Hother Hfresh. cbv zeta.
  unfold stageBlock. rewrite Hrecent. cbv zeta.
  assert (E : DistributedLock.tryAcquire (lockFault env) (now env)
                (lockKeyOf sym sd s) caller (system_config st)
              = (false, system_config st)).
  { unfold DistributedLock.tryAcquire. cbv zeta.
    destruct (lockFault env _ _); [reflexivity|].
    rewrite Hrow.
    destruct (Z.ltb_spec (now env - DistributedLock.updated_at row)
                DistributedLock.LOCK_TIMEOUT_MS); [|lia].
    destruct (String.eqb_spec (DistributedLock.value row) caller);
      [contradiction|reflexivity]. }
  rewrite E. simpl. auto.
Qed.

(** ** All or nothing *)

Lemma allOrThrow_execute w st :
  plainWrite st = true -> allOrThrow (execute w st) (run st).
Proof.
  intros H L. unfold execute. destruct (fault w st L); [left; reflexivity|].
  destruct (bindable st); [|left; reflexivity].
  right. destruct st; try discriminate; reflexivity.
Qed.

Lemma allOrThrow_commit w : allOrThrow (execute w SCommit) commitTx.
Proof.
  intros L. unfold execute. destruct (fault w SCommit L); [left; reflexivity|].
  destruct (txn L); [right|left]; reflexivity.
Qed.

Lemma allOrThrow_cancelOpposite w order :
  allOrThrow (cancelOppositeOrderInDB w order) (cancelOppositeRun w order).
Proof.
  intros L. unfold cancelOppositeOrderInDB, cancelOppositeRun, oppositeOf.
  unfold bind, query. destruct (fault w _ L); [left; reflexivity|].
  destruct (selectOpposite _ _ _ (tables L)); [|right; reflexivity].
  apply allOrThrow_execute. reflexivity.
Qed.

Lemma allOrThrow_bind (m k : M unit) (f g h : Ledger -> Ledger) :
  allOrThrow m f -> allOrThrow k g -> (forall L, h L = g (f L)) ->
  allOrThrow (bind m (fun _ => k)) h.
Proof.
  intros Hm Hk Hh L. unfold bind. rewrite Hh. destruct (Hm L) as [H|H].
  - left. destruct (m L) as [L1 [u|]]; simpl in *; [discriminate|reflexivity].
  - rewrite H. apply Hk.
Qed.

Ltac all_or_throw :=
  first
    [ apply allOrThrow_commit
    | apply allOrThrow_cancelOpposite
    | apply allOrThrow_execute; reflexivity
    | eapply allOrThrow_bind;
      [all_or_throw | all_or_throw | intros; reflexivity] ].

Lemma allOrThrow_commitSteps w order trade p :
  allOrThrow (commitSteps w order trade p)
    (fun L =>
       commitTx
         (run (SInsertCloseEvent (closeEventRow w order trade p))
            (run (SInsertTrade (closeTradeRow w order trade p))
               (cancelOppositeRun w order
                  (run (SUpdateStatus (order_id order) triggered (clock w))
                     (run (SDeletePosition (symbol order) (side order))
                        L)))))).
Proof. unfold commitSteps. all_or_throw. Qed.

(** The three ways out of [BEGIN; try { body } catch { handler }]. *)
Lemma transaction_outcome w (body handler : M unit) (full : Ledger -> Ledger)
  L :
  txn L = None ->
  txnStableOnThrow body ->
  allOrThrow body full ->
  let L' :=
    fst (bind (execute w SBegin) (fun _ => try_catch body handler) L) in
  L' = L \/
  L' = full (beginTx L) \/
  exists Lf, txn Lf = Some (tables L) /\ L' = fst (handler Lf).
Proof.
  intros Htxn Hthrow Hall. cbv zeta. unfold bind, execute.
  destruct (fault w SBegin L); [left; reflexivity|]. cbn [bindable negb].
  rewrite Htxn. fold (beginTx L). unfold try_catch.
  specialize (Hthrow (beginTx L)).
  destruct (Hall (beginTx L)) as [H|H].
  - right; right. destruct (body (beginTx L)) as [Lf [u|]]; simpl in *;
      [discriminate|].
    exists Lf. split; [apply Hthrow; reflexivity|reflexivity].
  - right; left. rewrite H. reflexivity.
Qed.

Lemma rollback_restores w Lf T0 :
  (forall L0, fault w SRollback L0 = false) ->
  txn Lf = Some T0 ->
  execute w SRollback Lf = (rollbackTx T0 Lf, Some tt).
Proof. intros Hroll H. unfold execute. rewrite Hroll, H. reflexivity. Qed.

(** X24: if ROLLBACK never raises, the transaction of a triggered order
    (close trade found, position known) is all or nothing whatever else
    the store does: afterwards the tables are those of the complete commit,
    or those from before the transaction, or those from before with the
    one record of the failure appended to inconsistent_states. *)
Theorem X24_commit_is_all_or_nothing (w : World) (order : DBPriceOrder)
  (L : Ledger) (closeTrade : ExTrade) (p : PositionRow) :
  (forall L0, fault w SRollback L0 = false) ->
  txn L = None ->
  priceCheckPasses (exchange w) order = true ->
  findCloseTrade (exchange w) order = Some closeTrade ->
  lookupPosition w order L = (L, Some (Some p)) ->
  let L' := fst (handleTriggeredOrder w order L) in
  let trade := formatTradeRecord (clock w) closeTrade in
  tables L' = tables (commitRun w order trade p L) \/
  tables L' = tables L \/
  tables L'
  = applyWrite
      (SInsertInconsistent
         (inconsistentRow w "price_order_triggered" order StoreError))
      (tables L).
Proof.
  intros Hroll Htxn Hc Ht Hp. cbv zeta.
  unfold handleTriggeredOrder. rewrite Hc. simpl.
  rewrite (bind_ok _ _ _ _ _ Hp), Ht. unfold commitTriggered.
  destruct (transaction_outcome w
              (commitSteps w order (formatTradeRecord (clock w) closeTrade) p)
              (bind (execute w SRollback)
                 (fun _ =>
                    try_catch
                      (execute w
                         (SInsertInconsistent
                            (inconsistentRow w "price_order_triggered" order
                               StoreError)))
                      (ret tt)))
              _ L Htxn
              (commitSteps_fail_txn w order _ p)
              (allOrThrow_commitSteps w order _ p))
    as [H|[H|(Lf & Hopen & H)]]; rewrite H.
  - right; left. reflexivity.
  - left. reflexivity.
  - right. rewrite (bind_ok _ _ _ _ _ (rollback_restores w Lf _ Hroll Hopen)).
    unfold try_catch, execute.
    destruct (fault w _ _); [left|right]; reflexivity.
Qed.

(** X25: if ROLLBACK never raises, the transactions of the no-trade case
    are all or nothing whatever else the store does: afterwards the tables
    are those of the complete run (order cancelled when the exchange still
    has the position; otherwise order triggered, opposite cancelled,
    Position deleted and the inconsistent state recorded), or exactly those
    from before; when such a transaction fails, nothing is recorded. *)
Theorem X25_no_trade_transaction_is_all_or_nothing (w : World)
  (order : DBPriceOrder) (L : Ledger) (ps : list ExPosition) :
  (forall L0, fault w SRollback L0 = false) ->
  txn L = None ->
  priceCheckPasses (exchange w) order = true ->
  findCloseTrade (exchange w) order = None ->
  getPositions (exchange w) = Some ps ->
  let L' := fst (handleTriggeredOrder w order L) in
  tables L' = tables L \/
  tables L'
  = tables
      (if positionExists ps (normalizeContract (exchange w) (symbol order))
       then markCancelledRun w order L
       else recordNoTradeRun w order L).
Proof.
  intros Hroll Htxn Hc Ht Hget. cbv zeta.
  unfold handleTriggeredOrder. rewrite Hc. simpl.
  destruct (lookupPosition_state w order L) as [position Hp].
  rewrite (bind_ok _ _ _ _ _ Hp), Ht, Hget.
  destruct (positionExists ps _).
  - unfold markCancelled.
    destruct (transaction_outcome w
                (bind (updateOrderStatus w (order_id order) cancelled)
                   (fun _ => execute w SCommit))
                (execute w SRollback)
                (fun L0 =>
                   commitTx
                     (run (SUpdateStatus (order_id order) cancelled (clock w))
                        L0))
                L Htxn)
      as [H|[H|(Lf & Hopen & H)]].
    + apply onThrow_bind; [apply txnStable_execute; reflexivity|].
      intros _. apply onThrow_commit.
    + all_or_throw.
    + rewrite H. left. reflexivity.
    + rewrite H. right. reflexivity.
    + rewrite H, (rollback_restores w Lf _ Hroll Hopen). left. reflexivity.
  - unfold recordNoTrade.
    destruct (transaction_outcome w
                (bind (updateOrderStatus w (order_id order) triggered)
                   (fun _ =>
                      bind (cancelOppositeOrderInDB w order)
                        (fun _ =>
                           bind (execute w
                                   (SDeletePosition (symbol order)
                                      (side order)))
                             (fun _ =>
                                bind (execute w
                                        (SInsertInconsistent
                                           (inconsistentRow w
                                              "price_order_triggered_no_trade"
                                              order
                                              (NoTradeFound (type order)
                                                 (trigger_price order)
                                                 (created_at order)))))
                                  (fun _ => execute w SCommit)))))
                (execute w SRollback)
                (fun L0 =>
                   commitTx
                     (run (SInsertInconsistent (noTradeRow w order))
                        (run (SDeletePosition (symbol order) (side order))
                           (cancelOppositeRun w order
                              (run (SUpdateStatus (order_id order) triggered
                                      (clock w)) L0)))))
                L Htxn)
      as [H|[H|(Lf & Hopen & H)]].
    + repeat (apply onThrow_bind;
              [first [apply txnStable_cancelOpposite
                     |apply txnStable_execute; reflexivity]
              |intros _]).
      apply onThrow_commit.
    + all_or_throw.
    + rewrite H. left. reflexivity.
    + rewrite H. right. reflexivity.
    + rewrite H, (rollback_restores w Lf _ Hroll Hopen). left. reflexivity.
Qed.

(** ** The rows of price_orders after steps 2 and 3 *)

Lemma oppositeOf_row order L opp :
  oppositeOf order L = Some opp ->
  exists r, In r (price_orders (tables L)) /\
            order_id (po_order r) = opp /\ po_status r = active.
Proof.
  unfold oppositeOf, selectOpposite.
  destruct (find _ (price_orders (tables L))) as [r|] eqn:Ef; [|discriminate].
  simpl. intros [= <-]. apply find_some in Ef. destruct Ef as [Hin Hpred].
  apply andb_true_iff in Hpred. destruct Hpred as [_ Hact].
  exists r. repeat split; auto.
  destruct (po_status r); [reflexivity|discriminate|discriminate].
Qed.

Lemma statusRow_same orderId status now r :
  order_id (po_order r) = orderId ->
  po_status (statusRow orderId status now r) = status /\
  po_order (statusRow orderId status now r) = po_order r.
Proof. intros H. unfold statusRow. rewrite H, String.eqb_refl. auto. Qed.

Lemma statusRow_other orderId status now r :
  order_id (po_order r) <> orderId -> statusRow orderId status now r = r.
Proof.
  intros H. unfold statusRow.
  destruct (String.eqb_spec (order_id (po_order r)) orderId);
    [contradiction|reflexivity].
Qed.

Lemma settledRow_order w order opposite r :
  po_order (settledRow w order opposite r) = po_order r.
Proof.
  assert (H : forall orderId status r0,
            po_order (statusRow orderId status (clock w) r0) = po_order r0).
  { intros orderId status r0. unfold statusRow.
    destruct (String.eqb _ _); reflexivity. }
  unfold settledRow. destruct opposite; rewrite ?H; reflexivity.
Qed.

(** The row of an active order of the ledger, once the rows are settled. *)
Lemma settledRow_active w order opposite T rows' :
  rows' = map (settledRow w order opposite) (price_orders T) ->
  (forall r, order_id (po_order r) = order_id order ->
     po_status (settledRow w order opposite r) = triggered) ->
  In order (selectActiveOrders T) ->
  exists r', In r' rows' /\ po_order r' = order /\ po_status r' = triggered.
Proof.
  intros -> Htrig Hact. apply selectActiveOrders_In in Hact.
  destruct Hact as (r & Hin & _ & Ho).
  exists (settledRow w order opposite r).
  split; [apply in_map; exact Hin|].
  split; [rewrite settledRow_order; exact Ho|].
  apply Htrig. rewrite Ho. reflexivity.
Qed.

(** Step 3 after step 2: the rows with the id of the order are triggered,
    the opposite order that step 3 finds is another, active row, which is
    cancelled, and the other rows are left as they are. *)
Lemma settledRow_rows w order rows L2 :
  price_orders (tables L2)
  = map (statusRow (order_id order) triggered (clock w)) rows ->
  let opposite := oppositeOf order L2 in
  price_orders (tables (cancelOppositeRun w order L2))
  = map (settledRow w order opposite) rows /\
  (forall r, order_id (po_order r) = order_id order ->
     po_status (settledRow w order opposite r) = triggered) /\
  (forall opp, opposite = Some opp ->
     exists r, In r rows /\ order_id (po_order r) = opp /\
               po_status r = active /\
               po_status (settledRow w order opposite r) = cancelled) /\
  (forall r, order_id (po_order r) <> order_id order ->
     opposite <> Some (order_id (po_order r)) ->
     settledRow w order opposite r = r).
Proof.
  intros Hrows. cbv zeta.
  assert (Hopp : forall opp, oppositeOf order L2 = Some opp ->
            opp <> order_id order /\
            exists r, In r rows /\ order_id (po_order r) = opp /\
                      po_status r = active).
  { intros opp E. destruct (oppositeOf_row _ _ _ E) as (r2 & Hin & Hid & Hact).
    rewrite Hrows in Hin. apply in_map_iff in Hin.
    destruct Hin as (r0 & <- & Hin0).
    destruct (String.eqb_spec (order_id (po_order r0)) (order_id order))
      as [Heq|Hne].
    - exfalso.
      destruct (statusRow_same _ triggered (clock w) r0 Heq) as [Hs _].
      rewrite Hs in Hact. discriminate.
    - rewrite (statusRow_other _ _ _ _ Hne) in *.
      split; [congruence|]. exists r0. auto. }
  split; [|split; [|split]].
  - unfold cancelOppositeRun, settledRow.
    destruct (oppositeOf order L2); simpl.
    + rewrite Hrows, map_map. reflexivity.
    + exact Hrows.
  - intros r Hid. unfold settledRow.
    destruct (statusRow_same _ triggered (clock w) r Hid) as [Hs Ho].
    destruct (oppositeOf order L2) as [opp|] eqn:E; [|exact Hs].
    destruct (Hopp opp eq_refl) as [Hne _].
    rewrite statusRow_other; [exact Hs|]. rewrite Ho, Hid. congruence.
  - intros opp E. destruct (Hopp opp E) as [Hne (r0 & Hin & Hid & Hact)].
    exists r0. repeat split; auto. unfold settledRow. rewrite E.
    rewrite (statusRow_other (order_id order)) by congruence.
    apply statusRow_same. exact Hid.
  - intros r Hne Hno. unfold settledRow.
    rewrite (statusRow_other _ _ _ _ Hne).
    destruct (oppositeOf order L2) as [opp|]; [|reflexivity].
    apply statusRow_other. congruence.
Qed.

(** ** A transaction that commits has run every step *)

Lemma emitsOnThrow_bind {A B : Type} (P : Stmt -> Prop) (m : M A)
  (k : A -> M B) :
  emits P m -> (forall a, emitsOnThrow P (k a)) -> emitsOnThrow P (bind m k).
Proof.
  intros Hm Hk L. unfold bind. destruct (Hm L) as (d1 & E1 & F1).
  destruct (m L) as [L1 [a|]]; simpl in *.
  - intros Hnone. destruct (Hk a L1 Hnone) as (d2 & E2 & F2).
    exists (d1 ++ d2). rewrite E2, E1, app_assoc. split; [reflexivity|].
    apply Forall_app; auto.
  - intros _. exists d1. auto.
Qed.

(** A [COMMIT] that raises is not journalled. *)
Lemma emitsOnThrow_commit (P : Stmt -> Prop) w :
  emitsOnThrow P (execute w SCommit).
Proof.
  intros L H. exists []. rewrite app_nil_r. split; [|constructor].
  revert H. unfold execute. destruct (fault w SCommit L); [reflexivity|].
  cbn [bindable negb]. destruct (txn L); simpl; [discriminate|reflexivity].
Qed.

Lemma commitSteps_emitsOnThrow w order trade p :
  emitsOnThrow (fun st => st <> SCommit) (commitSteps w order trade p).
Proof.
  unfold commitSteps.
  apply emitsOnThrow_bind; [apply emits_execute; discriminate|intros _].
  apply emitsOnThrow_bind;
    [apply emits_updateOrderStatus; discriminate|intros _].
  apply emitsOnThrow_bind;
    [apply emits_cancelOpposite; intros; discriminate|intros _].
  apply emitsOnThrow_bind; [apply emits_execute; discriminate|intros _].
  apply emitsOnThrow_bind; [apply emits_execute; discriminate|intros _].
  apply emitsOnThrow_commit.
Qed.

(** A run of the transaction either commits every step, or journals no
    [COMMIT] at all. *)
Lemma commitTriggered_cases w order trade p L :
  txn L = None ->
  commitTriggered w order trade p L = (commitRun w order trade p L, Some tt) \/
  exists d,
    journal (fst (commitTriggered w order trade p L)) = journal L ++ d /\
    Forall (fun st => st <> SCommit) d.
Proof.
  intros Htxn. destruct (fault w SBegin L) eqn:Eb.
  { right. exists [].
    assert (H : commitTriggered w order trade p L = (L, None))
      by (unfold commitTriggered, bind, execute; rewrite Eb; reflexivity).
    rewrite H, app_nil_r. split; [reflexivity|constructor]. }
  assert (Hb : execute w SBegin L = (beginTx L, Some tt))
    by (unfold execute; rewrite Eb, Htxn; reflexivity).
  unfold commitTriggered. rewrite (bind_ok _ _ _ _ _ Hb).
  destruct (allOrThrow_commitSteps w order trade p (beginTx L)) as [H|H].
  - right.
    destruct (commitSteps_emitsOnThrow w order trade p (beginTx L) H)
      as (d1 & E1 & F1).
    destruct (commitSteps w order trade p (beginTx L)) as [Lf r] eqn:E.
    simpl in H, E1. subst r. rewrite (try_throw _ _ _ _ E).
    assert (Hh : emits (fun st => st <> SCommit)
                   (bind (execute w SRollback)
                      (fun _ =>
                         try_catch
                           (execute w
                              (SInsertInconsistent
                                 (inconsistentRow w "price_order_triggered"
                                    order StoreError)))
                           (ret tt)))).
    { apply emits_bind; [apply emits_execute; discriminate|intros _].
      apply emits_try; [apply emits_execute; discriminate|apply emits_ret]. }
    destruct (Hh Lf) as (d2 & E2 & F2).
    exists ([SBegin] ++ d1 ++ d2). split.
    + rewrite E2, E1. simpl. rewrite <- !app_assoc. reflexivity.
    + apply Forall_app. split; [constructor; [discriminate|constructor]|].
      apply Forall_app; auto.
  - left. rewrite (try_ok _ _ _ _ _ H). reflexivity.
Qed.

(** C1: a triggered order with a close trade found and a known position
    is committed in one transaction.  On a store that executes its
    statements and with an entry price other than 0, the transaction
    commits; and whenever it commits, whatever the store does, its
    statements are, in this order: BEGIN, the delete of the Position row,
    the status [triggered] of the order, the status [cancelled] of the
    opposite active order (when the ledger has one), the insert of the
    close Trade, the insert of the PositionCloseEvent, COMMIT.  The delete
    comes before every other write.  Afterwards the Position rows of
    (symbol, side) are gone, every row of price_orders with the id of the
    order has the status [triggered], the opposite order that step 3 found
    has the status [cancelled], every other row of price_orders is as it
    was, and trades and position_close_events have one more row each. *)
Theorem C1_commit_steps_in_order (w : World) (order : DBPriceOrder)
  (L : Ledger) (closeTrade : ExTrade) (p : PositionRow) :
  txn L = None ->
  priceCheckPasses (exchange w) order = true ->
  findCloseTrade (exchange w) order = Some closeTrade ->
  lookupPosition w order L = (L, Some (Some p)) ->
  let trade := formatTradeRecord (clock w) closeTrade in
  let L' := fst (handleTriggeredOrder w order L) in
  let opposite := oppositeOf order (afterStep2 w order L) in
  let steps :=
    [SBegin; SDeletePosition (symbol order) (side order);
     SUpdateStatus (order_id order) triggered (clock w)] ++
    match opposite with
    | Some oppositeOrderId =>
        [SUpdateStatus oppositeOrderId cancelled (clock w)]
    | None => []
    end ++
    [SInsertTrade (closeTradeRow w order trade p);
     SInsertCloseEvent (closeEventRow w order trade p); SCommit] in
  (storeWorks w -> Qeq_bool (pos_entry_price p) 0 = false ->
   journal L' = journal L ++ steps) /\
  forall d, journal L' = journal L ++ d -> In SCommit d ->
    d = steps /\
    txn L' = None /\
    positions (tables L')
    = List.filter (fun q => negb (positionIs (symbol order) (side order) q))
        (positions (tables L)) /\
    price_orders (tables L')
    = map (settledRow w order opposite) (price_orders (tables L)) /\
    (forall r, order_id (po_order r) = order_id order ->
       po_status (settledRow w order opposite r) = triggered) /\
    (In order (selectActiveOrders (tables L)) ->
     exists r', In r' (price_orders (tables L')) /\
                po_order r' = order /\ po_status r' = triggered) /\
    (forall opp, opposite = Some opp ->
       exists r, In r (price_orders (tables L)) /\
                 order_id (po_order r) = opp /\
                 po_status r = active /\
                 po_status (settledRow w order opposite r) = cancelled) /\
    (forall r, order_id (po_order r) <> order_id order ->
       opposite <> Some (order_id (po_order r)) ->
       settledRow w order opposite r = r) /\
    trades (tables L')
    = trades (tables L) ++ [closeTradeRow w order trade p] /\
    position_close_events (tables L')
    = position_close_events (tables L) ++ [closeEventRow w order trade p] /\
    inconsistent_states (tables L') = inconsistent_states (tables L).
Proof.
  intros Htxn Hc Ht Hp. cbv zeta.
  assert (Hrun : fst (handleTriggeredOrder w order L)
                 = fst (commitTriggered w order
                          (formatTradeRecord (clock w) closeTrade) p L)).
  { unfold handleTriggeredOrder. rewrite Hc. simpl.
    rewrite (bind_ok _ _ _ _ _ Hp), Ht. reflexivity. }
  rewrite Hrun. split.
  - intros Hw He. rewrite (commitTriggered_run w Hw order _ p L Htxn He).
    simpl. apply commitRun_journal.
  - intros d E Hcommit.
    destruct (commitTriggered_cases w order
                (formatTradeRecord (clock w) closeTrade) p L Htxn)
      as [H|(d0 & E0 & F0)].
    + rewrite H in *. simpl fst in *.
      rewrite commitRun_journal in E. apply app_inv_head in E. subst d.
      split; [reflexivity|]. split; [reflexivity|].
      destruct (settledRow_rows w order (price_orders (tables L))
                  (afterStep2 w order L) eq_refl)
        as (Hrows & Htrig & Hcanc & Hrest).
      destruct (cancelOppositeRun_tables w order (afterStep2 w order L))
        as (Hpos & Htr & Hev & Hinc).
      assert (Hnew : price_orders
                       (tables
                          (commitRun w order
                             (formatTradeRecord (clock w) closeTrade) p L))
                     = map (settledRow w order
                              (oppositeOf order (afterStep2 w order L)))
                         (price_orders (tables L))) by exact Hrows.
      split; [unfold commitRun; simpl; rewrite Hpos; reflexivity|].
      split; [exact Hnew|]. split; [exact Htrig|].
      split; [exact (settledRow_active w order _ _ _ Hnew Htrig)|].
      split; [exact Hcanc|]. split; [exact Hrest|].
      unfold commitRun. simpl. rewrite Htr, Hev, Hinc. auto.
    + exfalso. rewrite E0 in E. apply app_inv_head in E. subst d0.
      rewrite List.Forall_forall in F0. exact (F0 SCommit Hcommit eq_refl).
Qed.

(** C8: the trade that the search returns passes the direction, window and
    price filters, lies at or after the window start (creation time minus
    5 seconds), and no other trade of the fetched list that passes the
    filters is earlier.  On a store that executes its statements, with a
    known position whose entry price is not 0, [handleTriggeredOrder]
    appends one close Trade row and one PositionCloseEvent row, and both
    carry the price of that trade; and whatever the store does, every
    Trade row and PositionCloseEvent row that [handleTriggeredOrder]
    inserts carries that price. *)
Theorem C8_earliest_matching_trade_is_the_evidence (w : World)
  (order : DBPriceOrder) (t : ExTrade) :
  findCloseTrade (exchange w) order = Some t ->
  (exists trades,
     getMyTrades (exchange w)
       (normalizeContract (exchange w) (symbol order)) 500
       (searchStartTime order) = Some trades /\
     In t trades /\
     closeTradeFilter order t = true /\
     created_at order - 5000 <= xt_timestamp t /\
     forall t', In t' trades -> closeTradeFilter order t' = true ->
       xt_timestamp t <= xt_timestamp t') /\
  (forall L p,
     storeWorks w ->
     txn L = None ->
     priceCheckPasses (exchange w) order = true ->
     lookupPosition w order L = (L, Some (Some p)) ->
     Qeq_bool (pos_entry_price p) 0 = false ->
     let L' := fst (handleTriggeredOrder w order L) in
     exists tr ev,
       trades (tables L') = trades (tables L) ++ [tr] /\
       tr_type tr = close_trade /\
       tr_price tr = xt_price t /\
       position_close_events (tables L')
       = position_close_events (tables L) ++ [ev] /\
       ce_close_price ev = xt_price t /\
       ce_close_trade_id ev = xt_id t) /\
  (forall L, exists d,
     journal (fst (handleTriggeredOrder w order L)) = journal L ++ d /\
     (forall r, In r (insertedTrades d) -> tr_price r = xt_price t) /\
     (forall r, In r (insertedCloseEvents d) ->
        ce_close_price r = xt_price t)).
Proof.
  intros Ht. split; [|split].
  - destruct (findCloseTrade_earliest _ _ _ Ht)
      as (trades & Hget & Hin & Hf & Hle).
    exists trades. repeat split; auto.
    apply closeTradeFilter_window in Hf. apply Hf.
  - intros L p Hw Htxn Hc Hp He. cbv zeta.
    apply (lookupPosition_known w order L p Hw) in Hp.
    rewrite (handleTriggeredOrder_run w Hw order L Htxn).
    rewrite (handleRun_commit w order L t p Hc Ht Hp He).
    destruct (cancelOppositeRun_tables w order (afterStep2 w order L))
      as (_ & Htr & Hev & _).
    eexists. eexists. unfold commitRun. simpl. rewrite Htr, Hev. simpl.
    repeat split; reflexivity.
  - intros L.
    destruct (emits_handleTriggeredOrder w order L) as (d & E & F).
    exists d. split; [exact E|].
    rewrite List.Forall_forall in F.
    split; intros r Hr.
    + unfold insertedTrades in Hr. apply in_flat_map in Hr.
      destruct Hr as (st & Hst & Hr). specialize (F st Hst).
      destruct st; simpl in Hr; try contradiction.
      destruct Hr as [<-|[]]. simpl in F.
      destruct F as (t0 & p & Ht0 & ->). simpl.
      unfold exitPriceOf. simpl. congruence.
    + unfold insertedCloseEvents in Hr. apply in_flat_map in Hr.
      destruct Hr as (st & Hst & Hr). specialize (F st Hst).
      destruct st; simpl in Hr; try contradiction.
      destruct Hr as [<-|[]]. simpl in F.
      destruct F as (t0 & p & Ht0 & ->). simpl.
      unfold exitPriceOf. simpl. congruence.
Qed.

(** X9: on a store that executes its statements, when a close trade is
    found but the ledger has neither the Position row nor an open trade
    for (symbol, side), the order is set to triggered and the opposite
    active order to cancelled, outside any transaction: every row of
    price_orders with the id of the order has the status [triggered], the
    opposite order that was found has the status [cancelled], every other
    row is as it was; positions, trades, position_close_events and
    inconsistent_states stay as they are. *)
Theorem X9_trade_found_without_position_info (w : World)
  (order : DBPriceOrder) (L : Ledger) (closeTrade : ExTrade) :
  storeWorks w ->
  txn L = None ->
  priceCheckPasses (exchange w) order = true ->
  findCloseTrade (exchange w) order = Some closeTrade ->
  lookupPosition w order L = (L, Some None) ->
  let L' := fst (handleTriggeredOrder w order L) in
  let status2 := SUpdateStatus (order_id order) triggered (clock w) in
  let opposite := oppositeOf order (run status2 L) in
  journal L'
  = journal L ++ [status2] ++
    match opposite with
    | Some oppositeOrderId =>
        [SUpdateStatus oppositeOrderId cancelled (clock w)]
    | None => []
    end /\
  txn L' = None /\
  price_orders (tables L')
  = map (settledRow w order opposite) (price_orders (tables L)) /\
  (forall r, order_id (po_order r) = order_id order ->
     po_status (settledRow w order opposite r) = triggered) /\
  (In order (selectActiveOrders (tables L)) ->
   exists r', In r' (price_orders (tables L')) /\
              po_order r' = order /\ po_status r' = triggered) /\
  (forall opp, opposite = Some opp ->
     exists r, In r (price_orders (tables L)) /\
               order_id (po_order r) = opp /\
               po_status r = active /\
               po_status (settledRow w order opposite r) = cancelled) /\
  (forall r, order_id (po_order r) <> order_id order ->
     opposite <> Some (order_id (po_order r)) ->
     settledRow w order opposite r = r) /\
  positions (tables L') = positions (tables L) /\
  trades (tables L') = trades (tables L) /\
  position_close_events (tables L') = position_close_events (tables L) /\
  inconsistent_states (tables L') = inconsistent_states (tables L).
Proof.
  intros Hw Htxn Hc Ht Hp. cbv zeta.
  rewrite (lookupPosition_run w Hw) in Hp.
  assert (Hnone : positionOf order (tables L) = None) by congruence.
  rewrite (handleTriggeredOrder_run w Hw order L Htxn).
  unfold handleRun. rewrite Hc, Ht, Hnone. simpl.
  split; [apply statusOnlyRun_journal|].
  unfold statusOnlyRun.
  destruct (cancelOppositeRun_tables w order
              (run (SUpdateStatus (order_id order) triggered (clock w)) L))
    as (H1 & H2 & H3 & H4).
  destruct (settledRow_rows w order (price_orders (tables L))
              (run (SUpdateStatus (order_id order) triggered (clock w)) L)
              eq_refl)
    as (Hrows & Htrig & Hcanc & Hrest).
  rewrite cancelOppositeRun_txn, H1, H2, H3, H4. simpl.
  split; [exact Htxn|]. split; [exact Hrows|]. split; [exact Htrig|].
  split; [exact (settledRow_active w order _ _ _ Hrows Htrig)|].
  split; [exact Hcanc|]. split; [exact Hrest|]. auto.
Qed.

(** ** Step 3 cancels one order *)

Lemma NoDup_map_injective {A B : Type} (f : A -> B) (l : list A) a b :
  List.NoDup (map f l) -> In a l -> In b l -> f a = f b -> a = b.
Proof.
  induction l as [|x l IH]; simpl; [contradiction|].
  intros Hnd Ha Hb Hf. inversion Hnd as [|y ys Hnotin Hnd']; subst.
  destruct Ha as [<-|Ha], Hb as [<-|Hb]; auto.
  - exfalso. apply Hnotin. rewrite Hf. apply in_map. exact Hb.
  - exfalso. apply Hnotin. rewrite <- Hf. apply in_map. exact Ha.
Qed.

(** X22: on a store that executes its statements and whose price_orders
    rows carry pairwise different order ids, step 3 ([cancelOppositeOrderInDB])
    changes at most one row: the first active row of the opposite kind
    for the same symbol and side, which becomes cancelled; with no such
    row the ledger is left as it is. *)
Theorem X22_opposite_cancel_touches_one_row (w : World)
  (order : DBPriceOrder) (L : Ledger) :
  storeWorks w ->
  uniqueOrderIds (tables L) ->
  let L' := fst (cancelOppositeOrderInDB w order L) in
  match oppositeOf order L with
  | None => L' = L
  | Some oppositeOrderId =>
      exists r0,
        In r0 (price_orders (tables L)) /\
        order_id (po_order r0) = oppositeOrderId /\
        symbol (po_order r0) = symbol order /\
        side (po_order r0) = side order /\
        type (po_order r0) = oppositeType (type order) /\
        po_status r0 = active /\
        price_orders (tables L')
        = map (statusRow oppositeOrderId cancelled (clock w))
            (price_orders (tables L)) /\
        po_status (statusRow oppositeOrderId cancelled (clock w) r0)
        = cancelled /\
        forall r, In r (price_orders (tables L)) -> r <> r0 ->
          statusRow oppositeOrderId cancelled (clock w) r = r
  end.
Proof.
  intros Hw Huniq. cbv zeta.
  rewrite (cancelOpposite_run w Hw). simpl. unfold cancelOppositeRun.
  destruct (oppositeOf order L) as [opp|] eqn:E; [|reflexivity].
  unfold oppositeOf, selectOpposite in E.
  destruct (find _ (price_orders (tables L))) as [r0|] eqn:Ef;
    [|discriminate].
  simpl in E. injection E as E.
  apply find_some in Ef. destruct Ef as [Hin Hpred].
  apply andb_true_iff in Hpred. destruct Hpred as [Hpred Hact].
  apply andb_true_iff in Hpred. destruct Hpred as [Hpred Htype].
  apply andb_true_iff in Hpred. destruct Hpred as [Hsym Hside].
  apply String.eqb_eq in Hsym. apply Side_eqb_eq in Hside.
  apply OrderType_eqb_eq in Htype.
  exists r0. repeat split; auto.
  - destruct (po_status r0); [reflexivity|discriminate|discriminate].
  - unfold statusRow. rewrite E, String.eqb_refl. reflexivity.
  - intros r Hr Hne. unfold statusRow.
    destruct (String.eqb_spec (order_id (po_order r)) opp) as [Hid|];
      [|reflexivity].
    exfalso. apply Hne.
    apply (NoDup_map_injective (fun x => order_id (po_order x))
             (price_orders (tables L)) r r0 Huniq Hr Hin).
    congruence.
Qed.

(** ** The details that one position adds *)

Lemma stageBlock_details env caller sym sd s st acc :
  let r := stageBlock env caller sym sd s st acc in
  (executed (snd (fst r)) = executed acc /\ snd r <> Continue) \/
  exists d,
    executed (snd (fst r)) = executed acc ++ [d] /\
    d_symbol d = sym /\
    d_stage d = stageNumber s /\
    (((d_result d = recently_executed \/
       d_result d = lock_busy) /\ snd r = Continue) \/
     (d_result d <> recently_executed /\
      d_result d <> lock_busy /\ snd r <> Continue)).
Proof.
  cbv zeta. unfold stageBlock.
  destruct (hasRecentExecution env sym _ 30 st).
  { right. eexists. simpl. repeat split. left. auto. }
  cbv zeta. destruct (negb _).
  { right. eexists. simpl. repeat split. left. auto. }
  simpl. unfold runStage.
  destruct (dbFault env _ _); [left; simpl; split; [auto|discriminate]|].
  destruct (Nat.ltb 0 _).
  { right. eexists. simpl. repeat split. right.
    repeat split; discriminate. }
  destruct (partialTakeProfitTool env _ _ _) as [st' [[|]|]]; simpl.
  - right. eexists. simpl. repeat split. right. repeat split; discriminate.
  - right. eexists. simpl. repeat split. right. repeat split; discriminate.
  - left. split; [auto|discriminate].
Qed.

(** X23: one position adds at most two details to the report of
    [executeCheck], all for its own symbol; and when the stage 1 detail is
    recently_executed or lock_busy, stage 2 is not attempted for that
    position in this check (no stage 2 detail is added), however far the
    price has run. *)
Theorem X23_skipped_stage1_defers_stage2 (env : Env) (caller : string)
  (pos : PositionView) (st : Store) (acc : Acc) :
  exists ds,
    executed (snd (fst (checkPosition env caller pos st acc)))
    = executed acc ++ ds /\
    (length ds <= 2)%nat /\
    (forall d, In d ds -> d_symbol d = pv_symbol pos) /\
    ((exists d, In d ds /\ d_stage d = 1 /\
                (d_result d = recently_executed \/
                 d_result d = lock_busy)) ->
     forall d, In d ds -> d_stage d = 1).
Proof.
  assert (Hnone : exists ds : list Detail,
            executed acc = executed acc ++ ds /\
            (length ds <= 2)%nat /\
            (forall d, In d ds -> d_symbol d = pv_symbol pos) /\
            ((exists d, In d ds /\ d_stage d = 1 /\
                        (d_result d = recently_executed \/
                         d_result d = lock_busy)) ->
             forall d, In d ds -> d_stage d = 1)).
  { exists []. rewrite app_nil_r. simpl. repeat split; auto.
    - intros d [].
    - intros _ d []. }
  unfold checkPosition. cbv zeta.
  destruct (Qle_bool (pv_stop_loss pos) 0); [exact Hnone|].
  destruct (getFuturesTicker env _) as [currentPrice|]; [|exact Hnone].
  destruct (Qle_bool currentPrice 0); [exact Hnone|].
  destruct (Qeq_bool _ 0); [exact Hnone|].
  destruct (Qle_bool (6 # 10) _).
  - pose proof (stageBlock_details env caller (pv_symbol pos)
                  (pv_side pos) stage1 st acc) as H1.
    cbv zeta in H1.
    destruct (stageBlock env caller (pv_symbol pos) (pv_side pos)
                stage1 st acc) as [[st1 acc1] flow1].
    simpl in H1. simpl.
    destruct H1 as [[He1 Hf1]|(d1 & He1 & Hs1 & Hn1 & Hr1)].
    + (* stage 1 added nothing: it raised *)
      destruct flow1; simpl; try contradiction.
      * destruct (Qle_bool (12 # 10) _); simpl;
          [|rewrite He1; exact Hnone].
        pose proof (stageBlock_details env caller (pv_symbol pos)
                      (pv_side pos) stage2 st1 acc1) as H2.
        cbv zeta in H2.
        destruct (stageBlock env caller (pv_symbol pos)
                    (pv_side pos) stage2 st1 acc1)
          as [[st2 acc2] flow2].
        simpl in H2. simpl.
        destruct H2 as [[He2 _]|(d2 & He2 & Hs2 & Hn2 & _)].
        -- rewrite He2, He1. exact Hnone.
        -- exists [d2]. rewrite He2, He1. simpl. repeat split; auto.
           ++ intros d [<-|[]]. exact Hs2.
           ++ intros (d & [<-|[]] & Hst & _). rewrite Hn2 in Hst.
              discriminate.
      * rewrite He1. exact Hnone.
    + assert (Hone : exists ds : list Detail,
                executed acc1 = executed acc ++ ds /\
                (length ds <= 2)%nat /\
                (forall d, In d ds -> d_symbol d = pv_symbol pos) /\
                ((exists d, In d ds /\ d_stage d = 1 /\
                            (d_result d = recently_executed \/
                             d_result d = lock_busy)) ->
                 forall d, In d ds -> d_stage d = 1)).
      { exists [d1]. simpl. repeat split; auto.
        - intros d [<-|[]]. exact Hs1.
        - intros _ d [<-|[]]. exact Hn1. }
      destruct flow1; simpl; try exact Hone.
      destruct Hr1 as [[_ Hc]|(Hnr & Hnl & _)]; [discriminate|].
      destruct (Qle_bool (12 # 10) _); simpl; [|exact Hone].
      pose proof (stageBlock_details env caller (pv_symbol pos)
                    (pv_side pos) stage2 st1 acc1) as H2.
      cbv zeta in H2.
      destruct (stageBlock env caller (pv_symbol pos)
                  (pv_side pos) stage2 st1 acc1)
        as [[st2 acc2] flow2].
      simpl in H2. simpl.
      destruct H2 as [[He2 _]|(d2 & He2 & Hs2 & Hn2 & _)].
      * rewrite He2. exact Hone.
      * exists [d1; d2]. rewrite He2, He1, <- app_assoc. simpl.
        repeat split; auto.
        -- intros d [<-|[<-|[]]]; assumption.
        -- intros (d & [<-|[<-|[]]] & Hst & Hres).
           ++ destruct Hres; contradiction.
           ++ rewrite Hn2 in Hst. discriminate.
  - simpl.
    destruct (Qle_bool (12 # 10) _); simpl; [|exact Hnone].
    pose proof (stageBlock_details env caller (pv_symbol pos)
                  (pv_side pos) stage2 st acc) as H2.
    cbv zeta in H2.
    destruct (stageBlock env caller (pv_symbol pos)
                (pv_side pos) stage2 st acc) as [[st2 acc2] flow2].
    simpl in H2. simpl.
    destruct H2 as [[He2 _]|(d2 & He2 & Hs2 & Hn2 & _)].
    + rewrite He2. exact Hnone.
    + exists [d2]. rewrite He2. simpl. repeat split; auto.
      * intros d [<-|[]]. exact Hs2.
      * intros (d & [<-|[]] & Hst & _). rewrite Hn2 in Hst. discriminate.
Qed.

(** ** The further properties on the sample scenarios *)

(** Scenario A keeps both rows of price_orders. *)
Lemma X1_witness :
  length
    (price_orders (tables (checkTriggeredOrders worldTriggered false
                             sampleLedger))) = 2%nat.
Proof.
  destruct (X1_cycle_never_reactivates_an_order worldTriggered false
              sampleLedger) as [H _].
  - reflexivity.
  - exact H.
Defined.

(** Scenario A appends to trades. *)
Lemma X2_witness :
  exists more,
    trades (tables (checkTriggeredOrders worldTriggered false sampleLedger))
    = [] ++ more.
Proof.
  destruct (X2_cycle_only_appends_to_the_audit_tables worldTriggered false
              sampleLedger) as [H _].
  - reflexivity.
  - exact H.
Defined.

(** Scenario B: the Position row found after the cycle was there before. *)
Lemma X3_witness : In btcLong (positions (tables sampleLedger)).
Proof.
  apply (X3_cycle_creates_no_position worldPositionOpen false sampleLedger
           btcLong).
  - reflexivity.
  - left. reflexivity.
Defined.

(** Scenario A on a store that refuses the insert of the close trade. *)
Lemma X4_witness :
  txn (checkTriggeredOrders worldTradeInsertFails false sampleLedger) = None.
Proof.
  apply X4_cycle_leaves_no_transaction_open.
  - intros L0. reflexivity.
  - reflexivity.
Defined.

(** Both orders listed on the exchange. *)
Lemma X5_witness :
  checkTriggeredOrders worldListed false sampleLedger = sampleLedger.
Proof.
  apply X5_cycle_leaves_listed_orders_alone.
  intros eo r [= <-] [<-|[<-|[]]] _; reflexivity.
Defined.

(** A fill at the trigger of the stop-loss at 49000. *)
Lemma X7_witness :
  priceMatches precheckTolerancePercent stopLossLong49000 49000 = true.
Proof.
  apply X7_search_price_test_implies_precheck_price_test.
  - vm_compute. discriminate.
  - vm_compute. reflexivity.
Defined.

(** Scenario B, entered through [handleTriggeredOrder]. *)
Lemma X10_witness :
  journal (fst (handleTriggeredOrder worldPositionOpen takeProfitLong55000
                  sampleLedger))
  = [SBegin; SUpdateStatus "tp-1" cancelled 2000000; SCommit].
Proof.
  destruct (X10_no_trade_with_open_position_cancels_the_order
              worldPositionOpen takeProfitLong55000 sampleLedger
              [{| xp_contract := "BTC"; xp_size := 1 |}])
    as [H _].
  - intros st L. reflexivity.
  - reflexivity.
  - vm_compute. reflexivity.
  - vm_compute. reflexivity.
  - reflexivity.
  - vm_compute. reflexivity.
  - exact H.
Defined.

(** The stop-loss of the exchange has the id sl-9. *)
Lemma X11_witness :
  processOrder worldPositionOpen [driftedStopLoss]
    [{| xp_contract := "BTC"; xp_size := 1 |}] stopLossLong49000 sampleLedger
  = (run (SRenameOrder "sl-1" "sl-9" 2000000) sampleLedger, Some tt).
Proof.
  destruct (X11_drift_repair_rewrites_only_the_id worldPositionOpen
              [driftedStopLoss] [{| xp_contract := "BTC"; xp_size := 1 |}]
              stopLossLong49000 sampleLedger driftedStopLoss)
    as [H _].
  - intros st L. reflexivity.
  - reflexivity.
  - vm_compute. reflexivity.
  - vm_compute. reflexivity.
  - discriminate.
  - exact H.
Defined.

(** The agent asks for the lease of the health check after 39 seconds. *)
Lemma X12_witness :
  snd (DistributedLock.tryAcquire noLockFault 40000
         "partial_tp_BTC_long_stage1" "ai-agent" heldByHealthCheck)
  !! "partial_tp_BTC_long_stage1"
  = Some {| DistributedLock.value := "ai-agent";
            DistributedLock.updated_at := 40000 |}.
Proof.
  destruct (X12_tryAcquire_true_means_lease_written noLockFault 40000
              "partial_tp_BTC_long_stage1" "ai-agent" heldByHealthCheck)
    as [H _].
  apply H. vm_compute. reflexivity.
Defined.

(** The agent releases the lease of the health check. *)
Lemma X13_witness :
  DistributedLock.release noLockFault "partial_tp_BTC_long_stage1"
    "ai-agent" heldByHealthCheck
  = heldByHealthCheck.
Proof.
  destruct (X13_release_only_by_the_holder noLockFault
              "partial_tp_BTC_long_stage1" "ai-agent" heldByHealthCheck)
    as [H _].
  apply (H {| DistributedLock.value := "health-check";
              DistributedLock.updated_at := 1000 |}).
  - apply lookup_singleton_eq.
  - simpl. discriminate.
Defined.

Lemma X14_witness :
  DistributedLock.release noLockFault "k" "ai-agent"
    (snd (DistributedLock.tryAcquire noLockFault 1000 "k" "ai-agent" ∅))
  = ∅.
Proof.
  apply X14_acquire_then_release_restores_the_table.
  - intros st cfg. reflexivity.
  - apply lookup_empty.
Defined.

Lemma X15_witness :
  fst (DistributedLock.tryAcquire noLockFault 5000 "k" "health-check"
         (snd (DistributedLock.tryAcquire noLockFault 1000 "k" "ai-agent" ∅)))
  = false.
Proof.
  rewrite (X15_fresh_lease_excludes_other_holders noLockFault 1000 5000 "k"
             "ai-agent" "health-check" ∅).
  - reflexivity.
  - vm_compute. reflexivity.
  - discriminate.
  - reflexivity.
Defined.

Lemma X16_witness :
  DistributedLock.release noLockFault "partial_tp_BTC_long_stage1"
    "health-check"
    (snd (DistributedLock.tryAcquire noLockFault 40000
            "partial_tp_BTC_long_stage1" "ai-agent" heldByHealthCheck))
  = snd (DistributedLock.tryAcquire noLockFault 40000
           "partial_tp_BTC_long_stage1" "ai-agent" heldByHealthCheck).
Proof.
  destruct (X16_late_release_keeps_the_new_lease noLockFault 40000
              "partial_tp_BTC_long_stage1" "health-check" "ai-agent"
              heldByHealthCheck) as [H _].
  - vm_compute. reflexivity.
  - discriminate.
  - exact H.
Defined.

(** Both stages run from an empty lease table: no lease is left. *)
Lemma X17_witness :
  system_config
    (fst (executeCheck sampleEnv "ai-agent" [btcView] emptyStore))
  !! "partial_tp_BTC_USDT_long_stage1" = None.
Proof.
  destruct (system_config
              (fst (executeCheck sampleEnv "ai-agent" [btcView] emptyStore))
            !! "partial_tp_BTC_USDT_long_stage1") as [row|] eqn:E;
    [|reflexivity].
  apply (X17_executeCheck_leaves_no_new_lease sampleEnv "ai-agent" [btcView]
           emptyStore) in E.
  - unfold emptyStore in E. simpl in E.
    rewrite lookup_empty in E. discriminate.
  - intros st cfg. reflexivity.
  - intros sym n st. reflexivity.
Defined.

Lemma X19_witness :
  oc_executed
    (snd (executeCheck sampleEnv "ai-agent" [btcView]
            bothStagesDone)) = 0%nat.
Proof.
  destruct (X19_completed_stages_are_not_executed_again sampleEnv "ai-agent"
              [btcView] bothStagesDone) as (_ & H & _).
  - intros pos [<-|[]]. split.
    + exists (completedRow 1 1000000). split; [left; reflexivity|].
      vm_compute. reflexivity.
    + exists (completedRow 2 1500000).
      split; [right; left; reflexivity|]. vm_compute. reflexivity.
  - exact H.
Defined.

Lemma X21_witness :
  snd (stageBlock sampleEnv "ai-agent" "BTC_USDT" long
         stage1 stage1Contended
         {| executedCount := 0%nat;
            skippedCount := 0%nat;
            executed := [] |})
  = Continue.
Proof.
  destruct (X21_contended_stage_is_skipped sampleEnv "ai-agent" "BTC_USDT"
              long stage1 stage1Contended
              {| executedCount := 0%nat;
                 skippedCount := 0%nat;
                 executed := [] |}
              {| DistributedLock.value := "health-check";
                 DistributedLock.updated_at := 1990000 |})
    as (_ & _ & _ & H).
  - vm_compute. reflexivity.
  - apply lookup_singleton_eq.
  - simpl. discriminate.
  - vm_compute. reflexivity.
  - exact H.
Defined.

(** Step 3 for the stop-loss of [sampleLedger] finds the take-profit. *)
Lemma X22_witness :
  exists r0,
    In r0 (price_orders (tables sampleLedger)) /\
    order_id (po_order r0) = "tp-1" /\
    po_status r0 = active.
Proof.
  pose proof (X22_opposite_cancel_touches_one_row worldTriggered
                stopLossLong49000 sampleLedger) as H.
  assert (Hw : storeWorks worldTriggered) by (intros st L; reflexivity).
  assert (Hu : uniqueOrderIds (tables sampleLedger)).
  { unfold uniqueOrderIds. simpl. constructor.
    - intros [E|[]]. discriminate.
    - constructor; [intros []|constructor]. }
  specialize (H Hw Hu).
  destruct H as (r0 & Hin & Hid & _ & _ & _ & Hact & _).
  exists r0. split; [exact Hin|]. split; [exact Hid|exact Hact].
Defined.

(** Scenario A on a store that refuses the insert of the close trade:
    one of the three outcomes. *)
Lemma X24_witness :
  let L' := fst (handleTriggeredOrder worldTradeInsertFails
                   stopLossLong49000 sampleLedger) in
  tables L'
  = tables (commitRun worldTradeInsertFails stopLossLong49000
              (formatTradeRecord 2000000 (fillAt 48950)) btcLong
              sampleLedger) \/
  tables L' = tables sampleLedger \/
  tables L'
  = applyWrite
      (SInsertInconsistent
         (inconsistentRow worldTradeInsertFails "price_order_triggered"
            stopLossLong49000 StoreError))
      (tables sampleLedger).
Proof.
  apply (X24_commit_is_all_or_nothing worldTradeInsertFails
           stopLossLong49000 sampleLedger (fillAt 48950) btcLong).
  - intros L0. reflexivity.
  - reflexivity.
  - vm_compute. reflexivity.
  - vm_compute. reflexivity.
  - vm_compute. reflexivity.
Defined.

(** Scenario C: all or nothing. *)
Lemma X25_witness :
  let L' := fst (handleTriggeredOrder worldNoTrade stopLossLong49000
                   sampleLedger) in
  tables L' = tables sampleLedger \/
  tables L'
  = tables (recordNoTradeRun worldNoTrade stopLossLong49000 sampleLedger).
Proof.
  apply (X25_no_trade_transaction_is_all_or_nothing worldNoTrade
           stopLossLong49000 sampleLedger []).
  - intros L0. reflexivity.
  - reflexivity.
  - vm_compute. reflexivity.
  - vm_compute. reflexivity.
  - reflexivity.
Defined.

(** Scenario A: the stop-loss at 49000 fires, the fill is at 48950; the
    stop-loss ends triggered, the take-profit cancelled, the Position row
    is gone. *)
Lemma C1_witness :
  journal (fst (handleTriggeredOrder worldTriggered stopLossLong49000
                  sampleLedger))
  = scenarioAJournal /\
  map po_status
    (price_orders
       (tables (fst (handleTriggeredOrder worldTriggered stopLossLong49000
                       sampleLedger))))
  = [triggered; cancelled] /\
  positions
    (tables (fst (handleTriggeredOrder worldTriggered stopLossLong49000
                    sampleLedger)))
  = [].
Proof.
  destruct (C1_commit_steps_in_order worldTriggered stopLossLong49000
              sampleLedger (fillAt 48950) btcLong) as [Hj Hall].
  - reflexivity.
  - vm_compute. reflexivity.
  - vm_compute. reflexivity.
  - vm_compute. reflexivity.
  - assert (Hw : storeWorks worldTriggered) by (intros st L; reflexivity).
    specialize (Hj Hw eq_refl).
    destruct (Hall _ Hj) as (_ & _ & Hpos & Hrows & _).
    { vm_compute. tauto. }
    split; [exact Hj|]. split.
    + rewrite Hrows. vm_compute. reflexivity.
    + rewrite Hpos. vm_compute. reflexivity.
Defined.

(** Two close fills pass the filters; the earlier one, at 48950, is the
    evidence, and its price is the one recorded. *)
Lemma C8_witness :
  closeTradeFilter stopLossLong49000 laterFill = true /\
  closeTradeFilter stopLossLong49000 (fillAt 48950) = true /\
  findCloseTrade (exchange worldTwoFills) stopLossLong49000
  = Some (fillAt 48950) /\
  map tr_price
    (trades
       (tables (fst (handleTriggeredOrder worldTwoFills stopLossLong49000
                       sampleLedger))))
  = [xt_price (fillAt 48950)].
Proof.
  assert (Hfind : findCloseTrade (exchange worldTwoFills) stopLossLong49000
                  = Some (fillAt 48950)) by (vm_compute; reflexivity).
  destruct (C8_earliest_matching_trade_is_the_evidence worldTwoFills
              stopLossLong49000 (fillAt 48950) Hfind) as (_ & Hrec & _).
  destruct (Hrec sampleLedger btcLong) as (tr & ev & Htr & _ & Hprice & _).
  - intros st L. reflexivity.
  - reflexivity.
  - vm_compute. reflexivity.
  - vm_compute. reflexivity.
  - reflexivity.
  - split; [vm_compute; reflexivity|].
    split; [vm_compute; reflexivity|].
    split; [exact Hfind|].
    rewrite Htr. simpl. rewrite Hprice. reflexivity.
Defined.

(** Scenario A on a ledger that has lost the Position row. *)
Lemma X9_witness :
  journal (fst (handleTriggeredOrder worldTriggered stopLossLong49000
                  ledgerWithoutPosition))
  = [SUpdateStatus "sl-1" triggered 2000000;
     SUpdateStatus "tp-1" cancelled 2000000] /\
  map po_status
    (price_orders
       (tables (fst (handleTriggeredOrder worldTriggered stopLossLong49000
                       ledgerWithoutPosition))))
  = [triggered; cancelled].
Proof.
  destruct (X9_trade_found_without_position_info worldTriggered
              stopLossLong49000 ledgerWithoutPosition (fillAt 48950))
    as (Hj & _ & Hrows & _).
  - intros st L. reflexivity.
  - reflexivity.
  - vm_compute. reflexivity.
  - vm_compute. reflexivity.
  - vm_compute. reflexivity.
  - split; [exact Hj|]. rewrite Hrows. vm_compute. reflexivity.
Defined.

(** The stage 2 row of 1.5 million ms is found within 600 seconds, hence
    within 900. *)
Lemma X20_witness :
  hasRecentExecution sampleEnv "BTC_USDT" 2 900
    bothStagesDone = true.
Proof.
  apply (X20_hasRecentExecution_grows_with_the_window sampleEnv "BTC_USDT" 2
           600 900 bothStagesDone).
  - intros stmt. reflexivity.
  - lia.
  - vm_compute. discriminate.
  - vm_compute. discriminate.
  - vm_compute. reflexivity.
Defined.
